(** * telebun: the command-dispatch core of [src/utils/pluginManager.ts]

    A shallow embedding of the plugin manager (prefix parser, alias
    resolver, plugin registry, command rewriter, dispatcher, event
    fan-out) and of the part of [src/utils/aliasDB.ts] it reads, followed
    by the properties the specification states about them.

    Conventions of the embedding:
    - a JavaScript string is the list of its UTF-16 code units;
    - module-level variables of [pluginManager.ts] are the fields of
      [State]; every function takes the state and returns the new one;
    - what the outside world decides (whether [new AliasDB()] throws, what
      a directory contains, whether a handler rejects, whether the
      transport accepts an edit) is an argument of the function that asks
      for it. *)

From Stdlib Require Import ZArith NArith Ascii String List Sorted Permutation Lia.
From stdpp Require Import base option list gmap.

Local Open Scope N_scope.

(** ** JavaScript strings *)

Abbreviation jsstring := (list N) (only parsing).

(** An ASCII literal as a JavaScript string. *)
Definition js (s : string) : jsstring :=
  map N_of_ascii (list_ascii_of_string s).

Definition truthy_str (s : jsstring) : bool :=
  match s with [] => false | _ :: _ => true end.

(** [\s] of a regular expression and the characters [String.prototype.trim]
    removes: ECMAScript WhiteSpace and LineTerminator. *)
Definition isWhiteSpace (c : N) : bool :=
  (c =? 9) || (c =? 10) || (c =? 11) || (c =? 12) || (c =? 13) ||
  (c =? 32) || (c =? 160) || (c =? 5760) ||
  ((8192 <=? c) && (c <=? 8202)) ||
  (c =? 8232) || (c =? 8233) || (c =? 8239) || (c =? 8287) ||
  (c =? 12288) || (c =? 65279).

(** [text.startsWith(p)] *)
Fixpoint startsWith (text p : jsstring) {struct p} : bool :=
  match p with
  | [] => true
  | c :: p' =>
      match text with
      | [] => false
      | d :: text' => (c =? d) && startsWith text' p'
      end
  end.

(** [text.slice(n)] for [0 <= n] *)
Definition slice_from (n : nat) (text : jsstring) : jsstring := drop n text.

Fixpoint trimStart (s : jsstring) : jsstring :=
  match s with
  | [] => []
  | c :: s' => if isWhiteSpace c then trimStart s' else s
  end.

Definition trimEnd (s : jsstring) : jsstring := rev (trimStart (rev s)).

(** [s.trim()] *)
Definition trim (s : jsstring) : jsstring := trimEnd (trimStart s).

(** [s.split(/\s+/)]: the fields between maximal runs of white space; a
    string that starts or ends with white space yields an empty first or
    last field, and the empty string yields one empty field. [acc] is the
    current field, reversed; [inSep] says that the previous character was
    white space. *)
Fixpoint split_go (inSep : bool) (acc : jsstring) (s : jsstring)
  : list jsstring :=
  match s with
  | [] => [rev acc]
  | c :: s' =>
      if isWhiteSpace c
      then if inSep then split_go true acc s'
           else rev acc :: split_go true [] s'
      else split_go false (c :: acc) s'
  end.

Definition split_ws (s : jsstring) : list jsstring := split_go false [] s.

(** [s.split(/\s+/).filter(Boolean)] *)
Definition words (s : jsstring) : list jsstring :=
  List.filter truthy_str (split_ws s).

(** [l.join(sep)] *)
Fixpoint join (sep : jsstring) (l : list jsstring) : jsstring :=
  match l with
  | [] => []
  | x :: l' =>
      match l' with
      | [] => x
      | _ :: _ => x ++ sep ++ join sep l'
      end
  end.

Definition space : jsstring := [32].

(** [/^[a-z0-9_]+$/i.test(cmd)]. Without the [u] flag, case folding never
    maps a character outside ASCII onto an ASCII letter, so the class is
    exactly the ASCII letters, the digits and the underscore. *)
Definition isWordChar (c : N) : bool :=
  ((48 <=? c) && (c <=? 57)) ||
  ((65 <=? c) && (c <=? 90)) ||
  ((97 <=? c) && (c <=? 122)) ||
  (c =? 95).

Definition isCommandName (cmd : jsstring) : bool :=
  truthy_str cmd && forallb isWordChar cmd.

(** ** The alias store, [aliasDB.ts] *)

Record AliasRecord := { rec_original : jsstring; rec_final : jsstring }.

(** An open [AliasDB]: either the SQLite table or the JSON fallback
    array. Both are read as a sequence of rows; [original] is the primary
    key of the table. *)
Record AliasDB := { db_sqlite : bool; db_rows : list AliasRecord }.

(** What [new AliasDB()] meets: the assets directory or the fallback file
    cannot be written (the constructor throws), the database opens, or
    opening it fails and the JSON fallback is loaded. *)
Inductive AliasCtor :=
| CtorThrows (e : jsstring)
| CtorSqlite (rows : list AliasRecord)
| CtorFallback (e : jsstring) (data : list AliasRecord).

(** [AliasDB.get]: the [final] of the row whose [original] is [k], or
    [null]. Reading an open store is taken to succeed. Keys are compared
    code unit by code unit, as [===] does on the fallback array; the
    table compares the UTF-8 text the driver binds, which is the same
    comparison for strings without lone surrogates (a lone surrogate is
    bound as U+FFFD). *)
Definition AliasDB_get (db : AliasDB) (k : jsstring) : option jsstring :=
  rec_final <$> find (fun r => bool_decide (rec_original r = k)) (db_rows db).

(** ** Data of the plugin manager *)

(** Identities of the functions a plugin exports; what they do when
    called is asked of the host (see [Section Host]). *)
Definition HandlerId := N.

Record CronTask := { cron_expr : jsstring; cron_handler : HandlerId }.

(** Modelled from the spec: the class [Plugin] of [@utils/pluginBase],
    which is not among the sources. These are the fields
    [pluginManager.ts] reads, with the shape the plugin contract of
    section 6 gives them: an optional display name, the mapping from
    command name to handler, the flags for edited messages, an optional
    listener, event handlers and named cron tasks.
    [plugin_cmdHandlers] lists the own properties of [cmdHandlers] in the
    order of [Object.keys]. *)
Record Plugin := {
  plugin_name : option jsstring;
  plugin_cmdHandlers : list (jsstring * HandlerId);
  plugin_ignoreEdited : bool;
  plugin_listenMessageHandler : option HandlerId;
  plugin_listenMessageHandlerIgnoreEdited : bool;
  plugin_eventHandlers : list (N * HandlerId);
  plugin_cronTasks : option (list (jsstring * CronTask));
}.

(** [type PluginEntry = { original?: string; aliasFinal?: string; plugin }] *)
Record PluginEntry := {
  entry_original : option jsstring;
  entry_aliasFinal : option jsstring;
  entry_plugin : Plugin;
}.

Inductive PluginDir := USER_PLUGIN_PATH | DEFAUTL_PLUGIN_PATH.

(** What [dynamicRequireWithDeps] and the test
    [plugin instanceof Plugin && isValidPlugin(plugin)] make of a file:
    the module cannot be required, its default export is not a valid
    plugin ([isValidPlugin] is part of [@utils/pluginBase]), or it is
    one. *)
Inductive RequireOutcome :=
| RequireFails (e : jsstring)
| NotAPlugin
| ValidPlugin (p : Plugin).

Record PluginFile := { file_name : jsstring; file_module : RequireOutcome }.

(** Values of the other fields of a message. *)
Inductive JsVal :=
| VUndefined
| VNull
| VBool (b : bool)
| VNum (z : Z)
| VStr (s : jsstring)
| VObj (ref : N).

Definition truthy (v : JsVal) : bool :=
  match v with
  | VUndefined | VNull => false
  | VBool b => b
  | VNum z => negb (z =? 0)%Z
  | VStr s => truthy_str s
  | VObj _ => true
  end.

(** An [Api.Message] object: its prototype, its own [message] property,
    its own [text] property when it has one (otherwise [text] is the
    accessor it inherits), and its other own enumerable properties. *)
Record MessageObj := {
  msg_proto : N;
  msg_message : jsstring;
  msg_text : option jsstring;
  msg_fields : gmap (list N) JsVal;
}.

(** Exceptions, tagged with the place that raised them. *)
Inductive Exn :=
| ExnAliasCtor (e : jsstring)
| ExnReaddir (e : jsstring)
| ExnHandler (h : HandlerId) (e : jsstring)
| ExnEdit (e : jsstring).

(** [String(error)] *)
Definition render (x : Exn) : jsstring :=
  match x with
  | ExnAliasCtor e | ExnReaddir e | ExnHandler _ e | ExnEdit e => e
  end.

Inductive Result (A : Type) :=
| Ok (a : A)
| Throw (x : Exn).
Arguments Ok {A} a.
Arguments Throw {A} x.

Inductive LogLine :=
| LogAliasUnavailable (e : jsstring)
| LogAliasFallback (e : jsstring)
| LogRequireFailed (file : jsstring) (e : jsstring)
| LogProfileSkipped (dir : PluginDir)
| LogError (x : Exn).

(** Event filters and callbacks registered with the transport client.
    Each [new NewMessage()], [new EditedMessage({})] and each arrow
    function is a fresh object, named by the number it was created
    under; [dealNewMsgEvent] and [dealEditedMsgEvent] are the two
    module-level functions. *)
Inductive EventFilter :=
| FNewMessage (id : N)
| FEditedMessage (id : N)
| FPluginEvent (event : N).

Inductive Callback :=
| CbDealNewMsgEvent
| CbDealEditedMsgEvent
| CbListenNew (id : N) (h : HandlerId)
| CbListenEdited (id : N) (h : HandlerId)
| CbEvent (id : N) (h : HandlerId).

Record Invocation := {
  inv_handler : HandlerId;
  inv_message : N;
  inv_trigger : option N;
}.

(** The module-level variables of [pluginManager.ts], the static
    [AliasDB.fallbackWarned], and the collaborators the module acts on:
    the console, the transport client's handler list, the cron manager,
    the heap of message objects, the edit requests sent and the command
    handlers called. [next_id] numbers the filters and arrow functions
    created so far. *)
Record State := {
  prefixes : list jsstring;
  aliasResolutionAvailable : bool;
  aliasResolutionWarned : bool;
  fallbackWarned : bool;
  validPlugins : list Plugin;
  plugins : list (jsstring * PluginEntry);
  console : list LogLine;
  client : list (EventFilter * Callback);
  cron : list (jsstring * CronTask);
  heap : gmap N MessageObj;
  next_id : N;
  edits : list (N * jsstring);
  invoked : list Invocation;
}.

Definition set_prefixes v st :=
  {| prefixes := v;
     aliasResolutionAvailable := aliasResolutionAvailable st;
     aliasResolutionWarned := aliasResolutionWarned st;
     fallbackWarned := fallbackWarned st;
     validPlugins := validPlugins st; plugins := plugins st;
     console := console st; client := client st; cron := cron st;
     heap := heap st; next_id := next_id st; edits := edits st;
     invoked := invoked st |}.

Definition set_aliasResolutionAvailable v st :=
  {| prefixes := prefixes st;
     aliasResolutionAvailable := v;
     aliasResolutionWarned := aliasResolutionWarned st;
     fallbackWarned := fallbackWarned st;
     validPlugins := validPlugins st; plugins := plugins st;
     console := console st; client := client st; cron := cron st;
     heap := heap st; next_id := next_id st; edits := edits st;
     invoked := invoked st |}.

Definition set_aliasResolutionWarned v st :=
  {| prefixes := prefixes st;
     aliasResolutionAvailable := aliasResolutionAvailable st;
     aliasResolutionWarned := v;
     fallbackWarned := fallbackWarned st;
     validPlugins := validPlugins st; plugins := plugins st;
     console := console st; client := client st; cron := cron st;
     heap := heap st; next_id := next_id st; edits := edits st;
     invoked := invoked st |}.

Definition set_fallbackWarned v st :=
  {| prefixes := prefixes st;
     aliasResolutionAvailable := aliasResolutionAvailable st;
     aliasResolutionWarned := aliasResolutionWarned st;
     fallbackWarned := v;
     validPlugins := validPlugins st; plugins := plugins st;
     console := console st; client := client st; cron := cron st;
     heap := heap st; next_id := next_id st; edits := edits st;
     invoked := invoked st |}.

Definition set_validPlugins v st :=
  {| prefixes := prefixes st;
     aliasResolutionAvailable := aliasResolutionAvailable st;
     aliasResolutionWarned := aliasResolutionWarned st;
     fallbackWarned := fallbackWarned st;
     validPlugins := v; plugins := plugins st;
     console := console st; client := client st; cron := cron st;
     heap := heap st; next_id := next_id st; edits := edits st;
     invoked := invoked st |}.

Definition set_plugins v st :=
  {| prefixes := prefixes st;
     aliasResolutionAvailable := aliasResolutionAvailable st;
     aliasResolutionWarned := aliasResolutionWarned st;
     fallbackWarned := fallbackWarned st;
     validPlugins := validPlugins st; plugins := v;
     console := console st; client := client st; cron := cron st;
     heap := heap st; next_id := next_id st; edits := edits st;
     invoked := invoked st |}.

Definition set_console v st :=
  {| prefixes := prefixes st;
     aliasResolutionAvailable := aliasResolutionAvailable st;
     aliasResolutionWarned := aliasResolutionWarned st;
     fallbackWarned := fallbackWarned st;
     validPlugins := validPlugins st; plugins := plugins st;
     console := v; client := client st; cron := cron st;
     heap := heap st; next_id := next_id st; edits := edits st;
     invoked := invoked st |}.

Definition set_client v st :=
  {| prefixes := prefixes st;
     aliasResolutionAvailable := aliasResolutionAvailable st;
     aliasResolutionWarned := aliasResolutionWarned st;
     fallbackWarned := fallbackWarned st;
     validPlugins := validPlugins st; plugins := plugins st;
     console := console st; client := v; cron := cron st;
     heap := heap st; next_id := next_id st; edits := edits st;
     invoked := invoked st |}.

Definition set_cron v st :=
  {| prefixes := prefixes st;
     aliasResolutionAvailable := aliasResolutionAvailable st;
     aliasResolutionWarned := aliasResolutionWarned st;
     fallbackWarned := fallbackWarned st;
     validPlugins := validPlugins st; plugins := plugins st;
     console := console st; client := client st; cron := v;
     heap := heap st; next_id := next_id st; edits := edits st;
     invoked := invoked st |}.

Definition set_heap v st :=
  {| prefixes := prefixes st;
     aliasResolutionAvailable := aliasResolutionAvailable st;
     aliasResolutionWarned := aliasResolutionWarned st;
     fallbackWarned := fallbackWarned st;
     validPlugins := validPlugins st; plugins := plugins st;
     console := console st; client := client st; cron := cron st;
     heap := v; next_id := next_id st; edits := edits st;
     invoked := invoked st |}.

Definition set_next_id v st :=
  {| prefixes := prefixes st;
     aliasResolutionAvailable := aliasResolutionAvailable st;
     aliasResolutionWarned := aliasResolutionWarned st;
     fallbackWarned := fallbackWarned st;
     validPlugins := validPlugins st; plugins := plugins st;
     console := console st; client := client st; cron := cron st;
     heap := heap st; next_id := v; edits := edits st;
     invoked := invoked st |}.

Definition set_edits v st :=
  {| prefixes := prefixes st;
     aliasResolutionAvailable := aliasResolutionAvailable st;
     aliasResolutionWarned := aliasResolutionWarned st;
     fallbackWarned := fallbackWarned st;
     validPlugins := validPlugins st; plugins := plugins st;
     console := console st; client := client st; cron := cron st;
     heap := heap st; next_id := next_id st; edits := v;
     invoked := invoked st |}.

Definition set_invoked v st :=
  {| prefixes := prefixes st;
     aliasResolutionAvailable := aliasResolutionAvailable st;
     aliasResolutionWarned := aliasResolutionWarned st;
     fallbackWarned := fallbackWarned st;
     validPlugins := validPlugins st; plugins := plugins st;
     console := console st; client := client st; cron := cron st;
     heap := heap st; next_id := next_id st; edits := edits st;
     invoked := v |}.

(** [console.log], [console.warn], [console.error] *)
Definition log (l : LogLine) (st : State) : State :=
  set_console (console st ++ [l]) st.

(** What the process environment fixes at start-up. *)
Record Config := {
  cfg_minimal : bool;
  cfg_envPrefixes : list jsstring;
  cfg_development : bool;
  cfg_listenerHandleEdited : list jsstring;
}.

Definition enableAliasResolution (cfg : Config) : bool :=
  negb (cfg_minimal cfg).

(** The prefix table the module starts with: [TB_PREFIX] when it names
    at least one prefix, ["!"] and the full-width ["！"] in development,
    otherwise [".", "。", "$"]. *)
Definition initial_prefixes (cfg : Config) : list jsstring :=
  match cfg_envPrefixes cfg with
  | _ :: _ => cfg_envPrefixes cfg
  | [] => if cfg_development cfg then [[33]; [65281]]
          else [[46]; [12290]; [36]]
  end.

(** The state when the module has been loaded and nothing has run. *)
Definition initial_state (cfg : Config) : State :=
  {| prefixes := initial_prefixes cfg;
     aliasResolutionAvailable := enableAliasResolution cfg;
     aliasResolutionWarned := false;
     fallbackWarned := false;
     validPlugins := []; plugins := [];
     console := []; client := []; cron := [];
     heap := ∅; next_id := 0; edits := []; invoked := [] |}.

Definition getPrefixes (st : State) : list jsstring := prefixes st.

Definition setPrefixes (newList : list jsstring) (st : State) : State :=
  set_prefixes newList st.

(** ** Opening the alias store *)

(** [new AliasDB()] *)
Definition new_AliasDB (c : AliasCtor) (st : State) : Result AliasDB * State :=
  match c with
  | CtorThrows e => (Throw (ExnAliasCtor e), st)
  | CtorSqlite rows => (Ok {| db_sqlite := true; db_rows := rows |}, st)
  | CtorFallback e data =>
      (Ok {| db_sqlite := false; db_rows := data |},
       if fallbackWarned st then st
       else log (LogAliasFallback e) (set_fallbackWarned true st))
  end.

Definition openAliasDB (c : AliasCtor) (st : State) : option AliasDB * State :=
  if negb (aliasResolutionAvailable st) then (None, st)
  else
    match new_AliasDB c st with
    | (Ok db, st1) => (Some db, st1)
    | (Throw error, st1) =>
        let st2 := set_aliasResolutionAvailable false st1 in
        (None,
         if aliasResolutionWarned st2 then st2
         else log (LogAliasUnavailable (render error))
                  (set_aliasResolutionWarned true st2))
    end.

(** ** The command parser and the alias resolver *)

(** The loop [for (let i = parts.length; i >= 1; i--)], entered at [i]. *)
Fixpoint aliasLoop (db : AliasDB) (parts : list jsstring) (i : nat)
  : option jsstring :=
  match i with
  | O => None
  | S i' =>
      let candidate := join space (take i parts) in
      match AliasDB_get db candidate with
      | Some f =>
          if truthy_str f then Some candidate else aliasLoop db parts i'
      | None => aliasLoop db parts i'
      end
  end.

(** Lines 209-222 of [getCommandFromMessage]: the value of
    [aliasCandidate] for the tokens [parts]. *)
Definition aliasCandidateOf (cfg : Config) (c : AliasCtor)
    (parts : list jsstring) (st : State) : option jsstring * State :=
  if enableAliasResolution cfg then
    match openAliasDB c st with
    | (Some aliasDB, st1) => (aliasLoop aliasDB parts (length parts), st1)
    | (None, st1) => (None, st1)
    end
  else (None, st).

(** Lines 209-231: the command the tokens [parts] resolve to. *)
Definition resolveParts (cfg : Config) (c : AliasCtor)
    (parts : list jsstring) (st : State) : option jsstring * State :=
  match parts with
  | [] => (None, st)
  | cmd :: _ =>
      let '(aliasCandidate, st1) := aliasCandidateOf cfg c parts st in
      match aliasCandidate with
      | Some a =>
          if truthy_str a then (Some a, st1)
          else if isCommandName cmd then (Some cmd, st1) else (None, st1)
      | None =>
          if isCommandName cmd then (Some cmd, st1) else (None, st1)
      end
  end.

(** [diyPrefixes] when it is given and not empty, the prefix table
    otherwise. *)
Definition prefix_table (diyPrefixes : option (list jsstring)) (st : State)
  : list jsstring :=
  match diyPrefixes with
  | Some (d :: ds) => d :: ds
  | _ => getPrefixes st
  end.

(** [pfs.find((p) => text.startsWith(p))] *)
Definition first_prefix (text : jsstring) (pfs : list jsstring)
  : option jsstring :=
  find (fun p => startsWith text p) pfs.

(** [getCommandFromMessage(msg, diyPrefixes)] for the text [text] of
    [msg]. *)
Definition getCommandFromMessage (cfg : Config) (c : AliasCtor)
    (text : jsstring) (diyPrefixes : option (list jsstring)) (st : State)
  : option jsstring * State :=
  let pfs := prefix_table diyPrefixes st in
  match first_prefix text pfs with
  | None => (None, st)
  | Some matched =>
      if negb (truthy_str matched) then (None, st)
      else
        let rest := trim (slice_from (length matched) text) in
        if negb (truthy_str rest) then (None, st)
        else resolveParts cfg c (words rest) st
  end.

(** ** JavaScript arrays, objects and [Map]s *)

(** [s.endsWith(suffix)] *)
Definition endsWith (s suffix : jsstring) : bool :=
  startsWith (rev s) (rev suffix).

(** [Array.prototype.sort(cmp)]: the stable sort; an element goes before
    the first element it does not come after. *)
Fixpoint sort_insert {A} (cmp : A -> A -> Z) (x : A) (l : list A) : list A :=
  match l with
  | [] => [x]
  | y :: l' =>
      if (cmp x y <=? 0)%Z then x :: y :: l' else y :: sort_insert cmp x l'
  end.

Definition Array_sort {A} (cmp : A -> A -> Z) (l : list A) : list A :=
  foldr (sort_insert cmp) [] l.

(** [m.get(k)] of a [Map] with string keys, kept in insertion order, and
    [o[k]] for an own property of an object. *)
Fixpoint Map_get {V} (k : jsstring) (m : list (jsstring * V)) : option V :=
  match m with
  | [] => None
  | (k', v) :: m' => if decide (k' = k) then Some v else Map_get k m'
  end.

(** [m.set(k, v)]: the value of an existing key is replaced where it
    stands, a new key goes to the end. *)
Fixpoint Map_set {V} (k : jsstring) (v : V) (m : list (jsstring * V))
  : list (jsstring * V) :=
  match m with
  | [] => [(k, v)]
  | (k', v') :: m' =>
      if decide (k' = k) then (k, v) :: m' else (k', v') :: Map_set k v m'
  end.

(** [aliasParts.every((w, idx) => parts[idx] === w)], from index [idx]. *)
Fixpoint every_at (idx : nat) (aliasParts parts : list jsstring) : bool :=
  match aliasParts with
  | [] => true
  | w :: ws => bool_decide (parts !! idx = Some w) && every_at (S idx) ws parts
  end.

(** ** The registry *)

Definition minimalBuiltinPluginFiles : list jsstring :=
  [js "help.ts"; js "status.ts"; js "sysinfo.ts"; js "reload.ts";
   js "prefix.ts"; js "loglevel.ts"; js "exec.ts"].

(** [path.basename(file, ".ts")] for a file name that ends in [".ts"]. *)
Definition basename_ts (file : jsstring) : jsstring :=
  take (length file - 3) file.

Definition literal_entry (plugin : Plugin) : PluginEntry :=
  {| entry_original := None; entry_aliasFinal := None;
     entry_plugin := plugin |}.

Definition alias_entry (plugin : Plugin) (cmd : jsstring) (rec : AliasRecord)
  : PluginEntry :=
  {| entry_original := Some cmd; entry_aliasFinal := Some (rec_final rec);
     entry_plugin := plugin |}.

(** [rec.final === cmd || rec.final.startsWith(cmd + " ")] *)
Definition related_alias (cmd : jsstring) (rec : AliasRecord) : bool :=
  bool_decide (rec_final rec = cmd) || startsWith (rec_final rec) (cmd ++ space).

(** The body of [for (const cmd of cmds)] in [setPlugins]. *)
Definition register_cmd (aliasList : list AliasRecord) (plugin : Plugin)
    (index : list (jsstring * PluginEntry)) (cmd : jsstring)
  : list (jsstring * PluginEntry) :=
  let index1 := Map_set cmd (literal_entry plugin) index in
  match aliasList with
  | [] => index1
  | _ :: _ =>
      let relatedAliases := List.filter (related_alias cmd) aliasList in
      fold_left
        (fun ix rec => Map_set (rec_original rec) (alias_entry plugin cmd rec) ix)
        relatedAliases index1
  end.

(** [if (!plugin.name) plugin.name = path.basename(file, ".ts")] *)
Definition with_default_name (file : jsstring) (p : Plugin) : Plugin :=
  let unnamed :=
    match plugin_name p with
    | Some n => negb (truthy_str n)
    | None => true
    end in
  if unnamed then
    {| plugin_name := Some (basename_ts file);
       plugin_cmdHandlers := plugin_cmdHandlers p;
       plugin_ignoreEdited := plugin_ignoreEdited p;
       plugin_listenMessageHandler := plugin_listenMessageHandler p;
       plugin_listenMessageHandlerIgnoreEdited :=
         plugin_listenMessageHandlerIgnoreEdited p;
       plugin_eventHandlers := plugin_eventHandlers p;
       plugin_cronTasks := plugin_cronTasks p |}
  else p.

(** The body of [for await (const file of files)] in [setPlugins]. *)
Definition load_file (aliasList : list AliasRecord) (st : State)
    (file : PluginFile) : State :=
  match file_module file with
  | RequireFails e => log (LogRequireFailed (file_name file) e) st
  | NotAPlugin => st
  | ValidPlugin p =>
      let plugin := with_default_name (file_name file) p in
      let st1 := set_validPlugins (validPlugins st ++ [plugin]) st in
      let cmds := map fst (plugin_cmdHandlers plugin) in
      set_plugins (fold_left (register_cmd aliasList plugin) cmds (plugins st1))
                  st1
  end.

(** The files of [basePath] that the loading profile lets through. *)
Definition eligible_files (cfg : Config) (basePath : PluginDir)
    (listing : list PluginFile) : list PluginFile :=
  let allFiles :=
    List.filter (fun f => endsWith (file_name f) (js ".ts")) listing in
  if cfg_minimal cfg then
    match basePath with
    | USER_PLUGIN_PATH => []
    | DEFAUTL_PLUGIN_PATH =>
        List.filter
          (fun f => bool_decide (file_name f ∈ minimalBuiltinPluginFiles))
          allFiles
    end
  else allFiles.

Definition getPluginEntry (command : jsstring) (st : State)
  : option PluginEntry :=
  Map_get command (plugins st).

(** The string [listCommands] shows for a key. *)
Definition display (key : jsstring) (entry : PluginEntry) : jsstring :=
  match entry_original entry with
  | Some o => if truthy_str o then key ++ js "(" ++ o ++ js ")" else key
  | None => key
  end.

(** The map [cmds] that [listCommands] fills. *)
Definition listCommands_cmds (st : State) : list (jsstring * jsstring) :=
  fold_left
    (fun cmds key =>
       match Map_get key (plugins st) with
       | Some entry => Map_set key (display key entry) cmds
       | None => cmds
       end)
    (map fst (plugins st)) [].

(** ** Messages and the transport client *)

Definition field (m : MessageObj) (k : jsstring) : JsVal :=
  default VUndefined (msg_fields m !! k).

(** The copy made by [Object.create(Object.getPrototypeOf(base))],
    [Object.assign(newMsg, base)] and the two [Object.defineProperty]
    calls: same prototype, same own properties, [message] and [text]
    set to [newText]. *)
Definition copy_with_text (base : MessageObj) (newText : jsstring)
  : MessageObj :=
  {| msg_proto := msg_proto base;
     msg_message := newText;
     msg_text := Some newText;
     msg_fields := msg_fields base |}.

(** A new object on the heap, at an address no object of the heap has. *)
Definition alloc (m : MessageObj) (st : State) : N * State :=
  let a := fresh (dom (heap st)) in
  (a, set_heap (<[a := m]> (heap st)) st).

(** The number naming a new filter or arrow function. *)
Definition new_identity (st : State) : N * State :=
  (next_id st, set_next_id (next_id st + 1) st).

(** The transport client of section 6, reached through
    [getGlobalClient()]: it keeps the list of registered pairs of an
    event filter and a callback.

    [client.addEventHandler(callback, event)] *)
Definition addEventHandler (callback : Callback) (event : EventFilter)
    (st : State) : State :=
  set_client (client st ++ [(event, callback)]) st.

Global Instance EventFilter_eq_dec : EqDecision EventFilter.
Proof. solve_decision. Defined.

Global Instance Callback_eq_dec : EqDecision Callback.
Proof. solve_decision. Defined.

(** [client.removeEventHandler(callback, event)]: the registrations of
    this callback under this filter are dropped. *)
Definition removeEventHandler (callback : Callback) (event : EventFilter)
    (st : State) : State :=
  set_client
    (List.filter (fun h => negb (bool_decide (h = (event, callback))))
                 (client st))
    st.

(** [client.listEventHandlers()] *)
Definition listEventHandlers (st : State) : list (EventFilter * Callback) :=
  client st.

(** Modelled from the spec: [cronManager], the scheduling collaborator
    of section 4.7, of which only the calls [set] and [clear] appear in
    the source. [set] registers a task's schedule and callback under its
    key; [clear] forgets every registration. *)
Definition cronManager_set (key : jsstring) (task : CronTask) (st : State)
  : State :=
  set_cron (cron st ++ [(key, task)]) st.

Definition cronManager_clear (st : State) : State := set_cron [] st.

(** An inbound event: the message it carries and whether it is an
    [EditedMessageEvent]. *)
Record MessageEvent := { ev_message : N; ev_isEdited : bool }.

(** What [loadPlugins] finds outside: the listing of each plugin
    directory ([readdirSync] may throw) and the alias store at each of
    the two [setPlugins] calls. *)
Record LoadEnv := {
  env_user : Result (list PluginFile);
  env_builtin : Result (list PluginFile);
  env_alias_user : AliasCtor;
  env_alias_builtin : AliasCtor;
}.

(** Sequencing of calls that may throw. *)
Definition bind {A B} (m : State -> Result A * State)
    (k : A -> State -> Result B * State) (st : State) : Result B * State :=
  match m st with
  | (Ok a, st1) => k a st1
  | (Throw x, st1) => (Throw x, st1)
  end.

Definition lift (f : State -> State) (st : State) : Result unit * State :=
  (Ok tt, f st).

(** [try { body } catch (error) { handler }] *)
Definition try_catch {A} (body : State -> Result A * State)
    (handler : Exn -> State -> Result A * State) (st : State)
  : Result A * State :=
  match body st with
  | (Ok a, st1) => (Ok a, st1)
  | (Throw error, st1) => handler error st1
  end.

Notation "m ;; k" := (bind m (fun _ => k))
  (at level 100, k at level 200, right associativity).

(** ** The host *)

Section Host.

#[local] Set Default Proof Using "Type".

(** [a.localeCompare(b)], the comparison of the host's collation. *)
Variable localeCompare : jsstring -> jsstring -> Z.

(** What a command handler does with the message (and the trigger) it is
    called with: it resolves ([None]) or it throws or rejects with
    [error], of which [String(error)] is given. Plugin bodies are outside
    this development: what a handler does to the chat, or to the module
    by calling its exports, is not part of the call. *)
Variable handler_run : HandlerId -> MessageObj -> option N -> option jsstring.

(** What the transport does with [msg.edit({ text })]: it accepts the
    edit ([None]) or the call rejects. *)
Variable edit_outcome : N -> jsstring -> option jsstring.

(** The value of the [text] accessor a message inherits from its
    prototype. *)
Variable inherited_text : MessageObj -> jsstring.

(** [AliasDB.list] *)
Definition AliasDB_list (db : AliasDB) : list AliasRecord :=
  if db_sqlite db then db_rows db
  else Array_sort
         (fun a b => localeCompare (rec_original a) (rec_original b))
         (db_rows db).

Definition setPlugins (cfg : Config) (basePath : PluginDir)
    (listing : Result (list PluginFile)) (c : AliasCtor) (st : State)
  : Result unit * State :=
  match listing with
  | Throw x => (Throw x, st)
  | Ok listing =>
      match eligible_files cfg basePath listing with
      | [] =>
          (Ok tt,
           if cfg_minimal cfg then log (LogProfileSkipped basePath) st else st)
      | (_ :: _) as files =>
          let '(aliasList, st1) :=
            if enableAliasResolution cfg then
              match openAliasDB c st with
              | (Some aliasDB, st1) => (AliasDB_list aliasDB, st1)
              | (None, st1) => ([], st1)
              end
            else ([], st) in
          (Ok tt, fold_left (load_file aliasList) files st1)
      end
  end.

Definition listCommands (st : State) : list jsstring :=
  Array_sort localeCompare (map snd (listCommands_cmds st)).

(** [base.message || base.text || ""] *)
Definition message_text (base : MessageObj) : jsstring :=
  if truthy_str (msg_message base) then msg_message base
  else
    let t := match msg_text base with
             | Some t => t
             | None => inherited_text base
             end in
    if truthy_str t then t else [].

(** The rewrite of lines 255-288: the new message object when the tokens
    of [cmd] lead the tokens of the text, nothing otherwise. *)
Definition rewrite_message (pfs : list jsstring) (cmd aliasFinal : jsstring)
    (base : MessageObj) : option MessageObj :=
  let text := message_text base in
  let matched := default [] (first_prefix text pfs) in
  let rest := trim (slice_from (length matched) text) in
  let parts := words rest in
  let aliasParts := words cmd in
  let finalParts := words aliasFinal in
  if (length aliasParts <=? length parts)%nat && every_at 0 aliasParts parts
  then
    let extraParts := drop (length aliasParts) parts in
    let newRest := join space (finalParts ++ extraParts) in
    let newText := matched ++ newRest in
    Some (copy_with_text base newText)
  else None.

(** [original && pluginEntry.aliasFinal && pluginEntry.aliasFinal !== original] *)
Definition rewrite_wanted (pluginEntry : PluginEntry) : option jsstring :=
  match entry_original pluginEntry, entry_aliasFinal pluginEntry with
  | Some original, Some aliasFinal =>
      if truthy_str original && truthy_str aliasFinal
         && negb (bool_decide (aliasFinal = original))
      then Some aliasFinal else None
  | _, _ => None
  end.

(** [original || cmd] *)
Definition target_cmd (pluginEntry : PluginEntry) (cmd : jsstring) : jsstring :=
  match entry_original pluginEntry with
  | Some original => if truthy_str original then original else cmd
  | None => cmd
  end.

(** [await handler(targetMsg, trigger)] *)
Definition call_handler (handler : HandlerId) (targetMsg : N)
    (obj : MessageObj) (trigger : option N) (st : State)
  : Result unit * State :=
  let st1 :=
    set_invoked
      (invoked st ++ [ {| inv_handler := handler; inv_message := targetMsg;
                          inv_trigger := trigger |} ]) st in
  match handler_run handler obj trigger with
  | None => (Ok tt, st1)
  | Some e => (Throw (ExnHandler handler e), st1)
  end.

(** The text of the failure notice, [`处理命令时出错：${error}`], for an
    error that [String] renders, as [handler_run] gives it. *)
Definition failure_notice (error : Exn) : jsstring :=
  [22788; 29702; 21629; 20196; 26102; 20986; 38169; 65306] ++ render error.

(** [await msg.edit({ text })] *)
Definition msg_edit (msg : N) (text : jsstring) (st : State)
  : Result unit * State :=
  let st1 := set_edits (edits st ++ [(msg, text)]) st in
  match edit_outcome msg text with
  | None => (Ok tt, st1)
  | Some e => (Throw (ExnEdit e), st1)
  end.

(** The [try] block of [dealCommandPluginWithMessage]. *)
Definition dispatch_body (cmd : jsstring) (isEdited : bool) (msg : N)
    (base : MessageObj) (trigger : option N) (st : State)
  : Result unit * State :=
  match getPluginEntry cmd st with
  | None => (Ok tt, st)
  | Some pluginEntry =>
      if isEdited && plugin_ignoreEdited (entry_plugin pluginEntry)
      then (Ok tt, st)
      else
        let targetCmd := target_cmd pluginEntry cmd in
        let '(targetMsg, obj, st1) :=
          match rewrite_wanted pluginEntry with
          | Some aliasFinal =>
              match rewrite_message (getPrefixes st) cmd aliasFinal base with
              | Some newMsg =>
                  let '(a, st1) := alloc newMsg st in (a, newMsg, st1)
              | None => (msg, base, st)
              end
          | None => (msg, base, st)
          end in
        match Map_get targetCmd (plugin_cmdHandlers (entry_plugin pluginEntry))
        with
        | Some handler => call_handler handler targetMsg obj trigger st1
        | None => (Ok tt, st1)
        end
  end.

(** [dealCommandPluginWithMessage({ cmd, isEdited, msg, trigger })]. [msg]
    is the address of the message object; an address that names no
    object of the heap is not a message and nothing is done for it. *)
Definition dealCommandPluginWithMessage (cmd : jsstring) (isEdited : bool)
    (msg : N) (trigger : option N) (st : State) : Result unit * State :=
  match heap st !! msg with
  | None => (Ok tt, st)
  | Some base =>
      try_catch
        (dispatch_body cmd isEdited msg base trigger)
        (fun error st1 =>
           msg_edit msg (failure_notice error) (log (LogError error) st1))
        st
  end.

Definition dealCommandPlugin (cfg : Config) (c : AliasCtor)
    (event : MessageEvent) (st : State) : Result unit * State :=
  match heap st !! ev_message event with
  | None => (Ok tt, st)
  | Some m =>
      if truthy (field m (js "out")) || truthy (field m (js "savedPeerId"))
      then
        match getCommandFromMessage cfg c (msg_message m) None st with
        | (Some cmd, st1) =>
            if truthy_str cmd
            then dealCommandPluginWithMessage cmd (ev_isEdited event)
                   (ev_message event) None st1
            else (Ok tt, st1)
        | (None, st1) => (Ok tt, st1)
        end
      else (Ok tt, st)
  end.

Definition dealNewMsgEvent (cfg : Config) (c : AliasCtor) (message : N)
    (st : State) : Result unit * State :=
  dealCommandPlugin cfg c {| ev_message := message; ev_isEdited := false |} st.

Definition dealEditedMsgEvent (cfg : Config) (c : AliasCtor) (message : N)
    (st : State) : Result unit * State :=
  dealCommandPlugin cfg c {| ev_message := message; ev_isEdited := true |} st.

(** ** Event fan-out and reload *)

(** The body of [for (const plugin of validPlugins)] in
    [dealListenMessagePlugin]. *)
Definition listen_plugin (cfg : Config) (st : State) (plugin : Plugin)
  : State :=
  let st1 :=
    match plugin_listenMessageHandler plugin with
    | Some messageHandler =>
        let '(cb, s1) := new_identity st in
        let '(ev, s2) := new_identity s1 in
        let s3 := addEventHandler (CbListenNew cb messageHandler)
                                  (FNewMessage ev) s2 in
        let named :=
          match plugin_name plugin with
          | Some n =>
              truthy_str n && bool_decide (n ∈ cfg_listenerHandleEdited cfg)
          | None => false
          end in
        if negb (plugin_listenMessageHandlerIgnoreEdited plugin) || named
        then
          let '(cb', s4) := new_identity s3 in
          let '(ev', s5) := new_identity s4 in
          addEventHandler (CbListenEdited cb' messageHandler)
                          (FEditedMessage ev') s5
        else s3
    | None => st
    end in
  fold_left
    (fun s '(event, handler) =>
       let '(cb, s1) := new_identity s in
       addEventHandler (CbEvent cb handler) (FPluginEvent event) s1)
    (plugin_eventHandlers plugin) st1.

Definition dealListenMessagePlugin (cfg : Config) (st : State) : State :=
  fold_left (listen_plugin cfg) (validPlugins st) st.

Definition dealCronPlugin (st : State) : State :=
  fold_left
    (fun s plugin =>
       match plugin_cronTasks plugin with
       | Some cronTasks =>
           fold_left (fun s' '(key, cronTask) => cronManager_set key cronTask s')
                     cronTasks s
       | None => s
       end)
    (validPlugins st) st.

Definition clearPlugins (st : State) : State :=
  let st1 := set_plugins [] (set_validPlugins [] st) in
  let handlers := listEventHandlers st1 in
  fold_left (fun s handler => removeEventHandler (snd handler) (fst handler) s)
            handlers st1.

Definition loadPlugins (cfg : Config) (env : LoadEnv) (st : State)
  : Result unit * State :=
  (lift clearPlugins ;;
   lift cronManager_clear ;;
   setPlugins cfg USER_PLUGIN_PATH (env_user env) (env_alias_user env) ;;
   setPlugins cfg DEFAUTL_PLUGIN_PATH (env_builtin env)
              (env_alias_builtin env) ;;
   lift (fun s =>
           let '(ev, s1) := new_identity s in
           addEventHandler CbDealNewMsgEvent (FNewMessage ev) s1) ;;
   lift (fun s =>
           let '(ev, s1) := new_identity s in
           addEventHandler CbDealEditedMsgEvent (FEditedMessage ev) s1) ;;
   lift (dealListenMessagePlugin cfg) ;;
   lift dealCronPlugin) st.

(** ** Vocabulary of the properties *)

(** The [i]-token candidate: [parts.slice(0, i).join(" ")]. *)
Definition candidate (parts : list jsstring) (i : nat) : jsstring :=
  join space (take i parts).

(** The test [if (aliasDB.get(candidate))]: the store has a row for [k]
    and its [final] is not the empty string. *)
Definition has_final (db : AliasDB) (k : jsstring) : bool :=
  match AliasDB_get db k with
  | Some f => truthy_str f
  | None => false
  end.

(** Following the words of the specification: [k] exists as an
    [original] key of the store. *)
Definition is_original_key (db : AliasDB) (k : jsstring) : bool :=
  existsb (fun r => bool_decide (rec_original r = k)) (db_rows db).

(** Following the words of the specification: the first candidate, from
    [i] tokens down to one, that exists as an [original] key. *)
Fixpoint first_original_key (db : AliasDB) (parts : list jsstring) (i : nat)
  : option jsstring :=
  match i with
  | O => None
  | S i' =>
      if is_original_key db (candidate parts i) then Some (candidate parts i)
      else first_original_key db parts i'
  end.

(** A configuration and an alias table used in the worked cases: the full
    profile, the single prefix ["."], and aliases ["foo bar"] and ["g"]. *)
Definition demo_cfg : Config :=
  {| cfg_minimal := false; cfg_envPrefixes := [js "."];
     cfg_development := false; cfg_listenerHandleEdited := [] |}.

Definition demo_rows : list AliasRecord :=
  [ {| rec_original := js "foo bar"; rec_final := js "echo hello" |};
    {| rec_original := js "g"; rec_final := js "google search" |} ].

(** The [ALIAS] warnings on the console. *)
Definition is_alias_warning (l : LogLine) : bool :=
  match l with LogAliasUnavailable _ => true | _ => false end.

Definition alias_warnings (st : State) : nat :=
  length (List.filter is_alias_warning (console st)).

(** The life of the process: a sequence of calls of the functions the
    module exports or subscribes, each with what it meets outside. *)
Inductive Op :=
| OpGetCommand (c : AliasCtor) (text : jsstring)
               (diy : option (list jsstring))
| OpSetPrefixes (newList : list jsstring)
| OpLoadPlugins (env : LoadEnv)
| OpEvent (c : AliasCtor) (event : MessageEvent)
| OpDispatch (cmd : jsstring) (isEdited : bool) (msg : N)
             (trigger : option N)
| OpReceive (msg : N) (m : MessageObj).

Definition run_op (cfg : Config) (st : State) (op : Op) : State :=
  match op with
  | OpGetCommand c text diy => snd (getCommandFromMessage cfg c text diy st)
  | OpSetPrefixes newList => setPrefixes newList st
  | OpLoadPlugins env => snd (loadPlugins cfg env st)
  | OpEvent c event => snd (dealCommandPlugin cfg c event st)
  | OpDispatch cmd isEdited msg trigger =>
      snd (dealCommandPluginWithMessage cmd isEdited msg trigger st)
  | OpReceive msg m => set_heap (<[msg := m]> (heap st)) st
  end.

Definition run_ops (cfg : Config) (ops : list Op) (st : State) : State :=
  fold_left (run_op cfg) ops st.

(** A step that leaves the alias flags and the [ALIAS] warnings alone. *)
Definition alias_neutral (st st' : State) : Prop :=
  aliasResolutionAvailable st' = aliasResolutionAvailable st /\
  aliasResolutionWarned st' = aliasResolutionWarned st /\
  alias_warnings st' = alias_warnings st.

(** What holds of the alias flags and the console in every state the
    process reaches. *)
Definition alias_inv (cfg : Config) (st : State) : Prop :=
  (aliasResolutionWarned st = false ->
   alias_warnings st = 0%nat /\
   aliasResolutionAvailable st = enableAliasResolution cfg) /\
  (aliasResolutionWarned st = true ->
   alias_warnings st = 1%nat /\ aliasResolutionAvailable st = false).

(** A step of the process, as far as the alias flags and warnings are
    concerned: it keeps [alias_inv], and once resolution is switched off
    it is neutral. *)
Definition alias_step (cfg : Config) (st st' : State) : Prop :=
  (alias_inv cfg st -> alias_inv cfg st') /\
  (aliasResolutionAvailable st = false -> alias_neutral st st').

(** The order of a comparison function: [a] does not come after [b]. *)
Definition cmp_le {A} (cmp : A -> A -> Z) (a b : A) : Prop :=
  (cmp a b <= 0)%Z.

(** The order of [localeCompare]. *)
Definition locale_le : jsstring -> jsstring -> Prop := cmp_le localeCompare.

(** The keys of a [Map] are distinct. *)
Definition Map_wf {V} (m : list (jsstring * V)) : Prop :=
  List.NoDup (map fst m).

(** The plugins a directory contributes: the valid modules among the
    eligible files, in order, each with its default name. *)
Definition loaded_plugins (cfg : Config) (basePath : PluginDir)
    (listing : list PluginFile) : list Plugin :=
  flat_map
    (fun file =>
       match file_module file with
       | ValidPlugin p => [with_default_name (file_name file) p]
       | _ => []
       end)
    (eligible_files cfg basePath listing).

(** The subscriptions [dealListenMessagePlugin] makes for a plugin. *)
Definition subscriptions_of (cfg : Config) (plugin : Plugin) : nat :=
  (match plugin_listenMessageHandler plugin with
   | Some _ =>
       let named :=
         match plugin_name plugin with
         | Some n =>
             truthy_str n && bool_decide (n ∈ cfg_listenerHandleEdited cfg)
         | None => false
         end in
       if negb (plugin_listenMessageHandlerIgnoreEdited plugin) || named
       then 2 else 1
   | None => 0
   end + length (plugin_eventHandlers plugin))%nat.

Definition subscriptions_of_all (cfg : Config) (l : list Plugin) : nat :=
  fold_right (fun p n => (subscriptions_of cfg p + n)%nat) 0%nat l.

(** The number of subscriptions a reload leaves, from what the two
    directories hold: none when a listing fails, otherwise the two of
    the dispatcher and those of the plugins. *)
Definition subscriptions_after (cfg : Config) (env : LoadEnv) : nat :=
  match env_user env, env_builtin env with
  | Ok lu, Ok lb =>
      (2 + subscriptions_of_all cfg
             (loaded_plugins cfg USER_PLUGIN_PATH lu ++
              loaded_plugins cfg DEFAUTL_PLUGIN_PATH lb))%nat
  | _, _ => 0%nat
  end.

(** A token: not empty, and without white space. *)
Definition is_token (t : jsstring) : Prop :=
  t <> [] /\ forallb (fun ch => negb (isWhiteSpace ch)) t = true.

(** No two white-space characters stand next to each other. *)
Fixpoint no_ws_run (s : jsstring) : bool :=
  match s with
  | [] => true
  | ch :: s' =>
      match s' with
      | [] => true
      | d :: _ => negb (isWhiteSpace ch && isWhiteSpace d) && no_ws_run s'
      end
  end.

(** Every white-space character is the space U+0020. *)
Definition only_plain_spaces (s : jsstring) : bool :=
  forallb (fun ch => implb (isWhiteSpace ch) (ch =? 32)) s.

(** The prefix the rewriter strips: [pfs.find(...) || ""]. *)
Definition matched_prefix (st : State) (base : MessageObj) : jsstring :=
  default [] (first_prefix (message_text base) (getPrefixes st)).

(** The tokens of the message after prefix-stripping. *)
Definition message_parts (st : State) (base : MessageObj) : list jsstring :=
  words (trim (slice_from (length (matched_prefix st base))
                          (message_text base))).

(** The address the next allocated object gets. *)
Definition next_address (st : State) : N := fresh (dom (heap st)).

(** The entry carries an [original] and an [aliasFinal] that differs
    from it (both non-empty, as the guard of the rewrite tests them). *)
Definition carries_alias (entry : PluginEntry) (o f : jsstring) : Prop :=
  entry_original entry = Some o /\ o <> [] /\
  entry_aliasFinal entry = Some f /\ f <> [] /\ f <> o.

(** The dispatch of [cmd] reaches the handler of its entry: the entry
    exists and the event is not an edit the plugin ignores. *)
Definition dispatched (st : State) (cmd : jsstring) (isEdited : bool)
    (entry : PluginEntry) : Prop :=
  getPluginEntry cmd st = Some entry /\
  isEdited && plugin_ignoreEdited (entry_plugin entry) = false.

Definition invocation (h : HandlerId) (a : N) (trigger : option N)
  : Invocation :=
  {| inv_handler := h; inv_message := a; inv_trigger := trigger |}.

(** What [dealCommandPluginWithMessage] does once it calls the handler
    [h] with the object [obj] at address [a]: the call is made; if the
    handler throws, the error is caught, logged and reported by an edit
    of the triggering message [msg]. *)
Definition after_call (msg : N) (h : HandlerId) (a : N) (obj : MessageObj)
    (trigger : option N) (s : State) : Result unit * State :=
  let s1 := set_invoked (invoked s ++ [invocation h a trigger]) s in
  match handler_run h obj trigger with
  | None => (Ok tt, s1)
  | Some e =>
      msg_edit msg (failure_notice (ExnHandler h e))
               (log (LogError (ExnHandler h e)) s1)
  end.

(** The message the handler is called with: its address, the object,
    and the state once the object is on the heap. *)
Definition dispatch_target (cmd : jsstring) (msg : N) (base : MessageObj)
    (entry : PluginEntry) (st : State) : N * MessageObj * State :=
  match rewrite_wanted entry with
  | Some aliasFinal =>
      match rewrite_message (getPrefixes st) cmd aliasFinal base with
      | Some newMsg =>
          (next_address st, newMsg,
           set_heap (<[next_address st := newMsg]> (heap st)) st)
      | None => (msg, base, st)
      end
  | None => (msg, base, st)
  end.

(** The handler registered for the dispatched command. *)
Definition handler_of (entry : PluginEntry) (cmd : jsstring)
  : option HandlerId :=
  Map_get (target_cmd entry cmd) (plugin_cmdHandlers (entry_plugin entry)).

(** ** A small host for the worked cases *)

(** Comparison of strings by their code units. *)
Fixpoint compare_units (a b : jsstring) : Z :=
  match a, b with
  | [], [] => 0%Z
  | [], _ :: _ => (-1)%Z
  | _ :: _, [] => 1%Z
  | x :: a', y :: b' =>
      if x <? y then (-1)%Z else if y <? x then 1%Z else compare_units a' b'
  end.

(** Handler 1 resolves, handler 2 throws ["boom"], the others resolve. *)
Definition demo_handler_run (h : HandlerId) (m : MessageObj)
    (trigger : option N) : option jsstring :=
  if h =? 2 then Some (js "boom") else None.

Definition demo_edit_accepts (msg : N) (text : jsstring) : option jsstring :=
  None.

Definition demo_edit_rejects (msg : N) (text : jsstring) : option jsstring :=
  Some (js "MESSAGE_ID_INVALID").

Definition demo_inherited_text (m : MessageObj) : jsstring := msg_message m.

(** A plugin file [search.ts] with the commands ["google"] and ["fail"],
    a message listener and one event handler; a built-in [help.ts]. *)
Definition search_plugin : Plugin :=
  {| plugin_name := None;
     plugin_cmdHandlers := [(js "google", 1); (js "fail", 2)];
     plugin_ignoreEdited := false;
     plugin_listenMessageHandler := Some 3;
     plugin_listenMessageHandlerIgnoreEdited := true;
     plugin_eventHandlers := [(100, 4)];
     plugin_cronTasks :=
       Some [(js "tick", {| cron_expr := js "* * * * *"; cron_handler := 5 |})]
  |}.

Definition help_plugin : Plugin :=
  {| plugin_name := Some (js "help");
     plugin_cmdHandlers := [(js "help", 6)];
     plugin_ignoreEdited := true;
     plugin_listenMessageHandler := None;
     plugin_listenMessageHandlerIgnoreEdited := false;
     plugin_eventHandlers := [];
     plugin_cronTasks := None |}.

Definition demo_env : LoadEnv :=
  {| env_user :=
       Ok [ {| file_name := js "search.ts";
               file_module := ValidPlugin search_plugin |};
            {| file_name := js "README.md"; file_module := NotAPlugin |};
            {| file_name := js "broken.ts";
               file_module := RequireFails (js "SyntaxError") |} ];
     env_builtin :=
       Ok [ {| file_name := js "help.ts";
               file_module := ValidPlugin help_plugin |} ];
     env_alias_user := CtorSqlite demo_rows;
     env_alias_builtin := CtorSqlite demo_rows |}.

(** An outgoing message with the text [text]. *)
Definition outgoing (text : jsstring) : MessageObj :=
  {| msg_proto := 1; msg_message := text; msg_text := None;
     msg_fields := {[ js "out" := VBool true; js "id" := VNum 42 ]} |}.

(** The state after one [loadPlugins] from the initial state, with a
    message at address 7. *)
Definition demo_state (text : jsstring) : State :=
  let st := snd (loadPlugins demo_cfg demo_env (initial_state demo_cfg)) in
  set_heap (<[7 := outgoing text]> (heap st)) st.

(** The entry [loadPlugins] makes for the alias ["g"] in the worked
    cases. *)
Definition demo_alias_entry : PluginEntry :=
  alias_entry (with_default_name (js "search.ts") search_plugin) (js "google")
    {| rec_original := js "g"; rec_final := js "google search" |}.

Definition demo_literal_entry : PluginEntry :=
  literal_entry (with_default_name (js "search.ts") search_plugin).

(** ** The rest of [aliasDB.ts] *)

(** The row update of [AliasDB.set]: the first row whose [original] is
    [original] gets the new [final] where it stands
    ([fallbackData[idx].final = final], or [ON CONFLICT(original) DO
    UPDATE]); when there is none, a new row goes to the end. Keys are
    compared code unit by code unit, as [===] does; for strings without
    lone surrogates the table compares its stored text the same way. *)
Fixpoint rows_set (original final : jsstring) (rows : list AliasRecord)
  : list AliasRecord :=
  match rows with
  | [] => [ {| rec_original := original; rec_final := final |} ]
  | x :: rows' =>
      if bool_decide (rec_original x = original)
      then {| rec_original := rec_original x; rec_final := final |} :: rows'
      else x :: rows_set original final rows'
  end.

(** [AliasDB.set(original, final)]: the store afterwards and, for the
    JSON fallback, what [flushFallback] writes to the file. Writing the
    store is taken to succeed. For the table this is the reading of
    [AliasDB_get]: exact for strings without lone surrogates. *)
Definition AliasDB_set (original final : jsstring) (db : AliasDB)
  : AliasDB * option (list AliasRecord) :=
  let rows := rows_set original final (db_rows db) in
  ({| db_sqlite := db_sqlite db; db_rows := rows |},
   if db_sqlite db then None else Some rows).

(** [AliasDB.del(original)]: whether a row went away, the store
    afterwards, and what is written to the fallback file (nothing when
    no row went away). For the table, [WHERE original = ?] is read as
    in [AliasDB_get]. *)
Definition AliasDB_del (original : jsstring) (db : AliasDB)
  : bool * AliasDB * option (list AliasRecord) :=
  let rows :=
    List.filter (fun x => negb (bool_decide (rec_original x = original)))
                (db_rows db) in
  let changed := negb (length rows =? length (db_rows db))%nat in
  (changed,
   {| db_sqlite := db_sqlite db; db_rows := rows |},
   if db_sqlite db then None else if changed then Some rows else None).

(** [AliasDB.getOriginal(final)]: the [original]s of the rows whose
    [final] is [final], in the order of the rows. For the table,
    [WHERE final = ?] is read as in [AliasDB_get]. *)
Definition AliasDB_getOriginal (final : jsstring) (db : AliasDB)
  : list jsstring :=
  map rec_original
      (List.filter (fun x => bool_decide (rec_final x = final)) (db_rows db)).

(** ** Start-up configuration *)

(** [process.env.TB_PREFIX?.split(/\s+/g).filter((p) => p.length > 0) || []] *)
Definition envPrefixes (TB_PREFIX : option jsstring) : list jsstring :=
  match TB_PREFIX with
  | Some s => words s
  | None => []
  end.

(** ** Vocabulary of the further properties *)

(** The [original]s of the rows are distinct, as the primary key of the
    table makes them. *)
Definition distinct_originals (db : AliasDB) : Prop :=
  List.NoDup (map rec_original (db_rows db)).

(** The [AliasDB] warnings of the JSON fallback on the console. *)
Definition is_fallback_warning (l : LogLine) : bool :=
  match l with LogAliasFallback _ => true | _ => false end.

Definition fallback_warnings (st : State) : nat :=
  length (List.filter is_fallback_warning (console st)).

(** A step that leaves [AliasDB.fallbackWarned] and the fallback warnings
    alone. *)
Definition fallback_neutral (st st' : State) : Prop :=
  fallbackWarned st' = fallbackWarned st /\
  fallback_warnings st' = fallback_warnings st.

(** [AliasDB.fallbackWarned] says whether the warning was printed, and it
    was printed once. *)
Definition fallback_inv (st : State) : Prop :=
  fallback_warnings st = if fallbackWarned st then 1%nat else 0%nat.

(** A step of the process, as far as the fallback warning is concerned:
    it keeps [fallback_inv] and never lowers the flag. *)
Definition fallback_step (st st' : State) : Prop :=
  (fallback_inv st -> fallback_inv st') /\
  (fallbackWarned st = true -> fallbackWarned st' = true).

(** [cmd] is a key of [plugin.cmdHandlers]. *)
Definition declares (p : Plugin) (cmd : jsstring) : Prop :=
  In cmd (map fst (plugin_cmdHandlers p)).

(** An entry of the command index is what [setPlugins] makes: under a
    command of its plugin, the entry without [original]; under an alias
    key, the entry whose [original] is a command of its plugin and whose
    [aliasFinal] is that command, alone or followed by a space and
    more. *)
Definition entry_sound (key : jsstring) (e : PluginEntry) : Prop :=
  match entry_original e, entry_aliasFinal e with
  | None, None => declares (entry_plugin e) key
  | Some o, Some f =>
      declares (entry_plugin e) o /\
      (f = o \/ startsWith f (o ++ space) = true)
  | _, _ => False
  end.

(** Every entry of the index is sound and belongs to a loaded plugin. *)
Definition index_sound (st : State) : Prop :=
  forall k e, Map_get k (plugins st) = Some e ->
              entry_sound k e /\ In (entry_plugin e) (validPlugins st).

(** The rows the store holds when [new AliasDB()] returns. *)
Definition ctor_rows (c : AliasCtor) : list AliasRecord :=
  match c with
  | CtorThrows _ => []
  | CtorSqlite rows => rows
  | CtorFallback _ data => data
  end.

(** [cmd in plugin.cmdHandlers], as a test. *)
Definition declaresb (p : Plugin) (cmd : jsstring) : bool :=
  existsb (fun c => bool_decide (c = cmd)) (map fst (plugin_cmdHandlers p)).

(** The last plugin of the list, in loading order, that declares [cmd]. *)
Fixpoint last_declaring (cmd : jsstring) (ps : list Plugin) : option Plugin :=
  match ps with
  | [] => None
  | p :: ps' =>
      match last_declaring cmd ps' with
      | Some q => Some q
      | None => if declaresb p cmd then Some p else None
      end
  end.

(** A file of a plugin directory that [setPlugins] can load: its name
    ends in [".ts"], [require] returns its module, and the module's
    default export is a valid plugin. *)
Definition loads (f : PluginFile) : bool :=
  endsWith (file_name f) (js ".ts") &&
  match file_module f with ValidPlugin _ => true | _ => false end.

(** The callbacks of the command dispatcher. *)
Definition is_dispatcher (cb : Callback) : bool :=
  match cb with
  | CbDealNewMsgEvent | CbDealEditedMsgEvent => true
  | _ => false
  end.

(** The client of [st'] has the handlers of [st], in order, followed by
    handlers that are not the dispatcher's. *)
Definition plugin_handlers_added (st st' : State) : Prop :=
  exists extra,
    client st' = client st ++ extra /\
    Forall (fun h => is_dispatcher (snd h) = false) extra.

(** ** Further worked cases *)

(** The demo alias table in a store on the JSON fallback. *)
Definition demo_fallback_db : AliasDB :=
  {| db_sqlite := false; db_rows := demo_rows |}.

(** A user plugin that declares ["help"], as the built-in one does. *)
Definition help_override : Plugin :=
  {| plugin_name := Some (js "myhelp");
     plugin_cmdHandlers := [(js "help", 9); (js "mine", 10)];
     plugin_ignoreEdited := false;
     plugin_listenMessageHandler := None;
     plugin_listenMessageHandlerIgnoreEdited := false;
     plugin_eventHandlers := [];
     plugin_cronTasks := None |}.

Definition override_env : LoadEnv :=
  {| env_user :=
       Ok [ {| file_name := js "myhelp.ts";
               file_module := ValidPlugin help_override |} ];
     env_builtin := env_builtin demo_env;
     env_alias_user := CtorSqlite demo_rows;
     env_alias_builtin := CtorSqlite demo_rows |}.

(** The minimal profile with the prefix ["."]. *)
Definition minimal_cfg : Config :=
  {| cfg_minimal := true; cfg_envPrefixes := [js "."];
     cfg_development := false; cfg_listenerHandleEdited := [] |}.

(** * Properties *)

(** Propositional steps, with the host out of the context so that the
    lemmas about strings and maps do not come to depend on it. *)
Ltac without_host tac :=
  try clear localeCompare; try clear handler_run; try clear edit_outcome;
  try clear inherited_text; tac.

Ltac propositional := without_host tauto.
Ltac propositional_steps := without_host ltac:(intuition).

(** ** The alias resolver *)

Lemma aliasLoop_step db parts i :
  aliasLoop db parts (S i) =
  if has_final db (candidate parts (S i)) then Some (candidate parts (S i))
  else aliasLoop db parts i.
Proof.
  unfold has_final, candidate. cbn [aliasLoop].
  destruct (AliasDB_get db _) as [f|]; [destruct (truthy_str f)|]; reflexivity.
Qed.

Lemma aliasLoop_None db parts n :
  aliasLoop db parts n = None <->
  forall i, (1 <= i <= n)%nat -> has_final db (candidate parts i) = false.
Proof.
  induction n as [|n IH].
  - split; [intros _ i Hi; lia | reflexivity].
  - rewrite aliasLoop_step.
    destruct (has_final db (candidate parts (S n))) eqn:E.
    + split; [discriminate|]. intros H.
      specialize (H (S n) ltac:(lia)). congruence.
    + rewrite IH. split; intros H i Hi.
      * destruct (decide (i = S n)) as [->|]; [exact E | apply H; lia].
      * apply H; lia.
Qed.

Lemma aliasLoop_Some db parts n a :
  aliasLoop db parts n = Some a <->
  exists i, (1 <= i <= n)%nat /\ a = candidate parts i /\
            has_final db a = true /\
            forall j, (i < j <= n)%nat ->
                      has_final db (candidate parts j) = false.
Proof.
  induction n as [|n IH].
  - split; [discriminate | intros (i & Hi & _); lia].
  - rewrite aliasLoop_step.
    destruct (has_final db (candidate parts (S n))) eqn:E.
    + split.
      * intros [= <-]. exists (S n). repeat split; [lia | lia | exact E |].
        intros j Hj; lia.
      * intros (i & Hi & -> & Hf & Hlater).
        destruct (decide (i = S n)) as [->|Hne]; [reflexivity|].
        specialize (Hlater (S n) ltac:(lia)). congruence.
    + rewrite IH. split.
      * intros (i & Hi & -> & Hf & Hlater). exists i.
        repeat split; [lia | lia | exact Hf |].
        intros j Hj. destruct (decide (j = S n)) as [->|]; [exact E|].
        apply Hlater; lia.
      * intros (i & Hi & -> & Hf & Hlater). exists i.
        assert (i <> S n) by (intros ->; congruence).
        repeat split; [lia | lia | exact Hf |].
        intros j Hj. apply Hlater; lia.
Qed.

Lemma aliasCandidateOf_open cfg c st db st1 parts :
  enableAliasResolution cfg = true ->
  openAliasDB c st = (Some db, st1) ->
  aliasCandidateOf cfg c parts st = (aliasLoop db parts (length parts), st1).
Proof.
  intros Hen Hopen. unfold aliasCandidateOf. rewrite Hen, Hopen. reflexivity.
Qed.

(** C1. Longest match wins. When the alias store opens, the resolver
    walks the candidates [parts.slice(0, i).join(" ")] from all the
    tokens down to one token and yields the first one for which the
    store returns a non-empty [final]; it yields nothing exactly when no
    candidate has one. With an alias ["foo bar"] (and no alias ["foo bar baz"]), the
    tokens ["foo"; "bar"; "baz"] resolve to ["foo bar"], whatever is
    stored or registered under ["foo"]. *)
Theorem C1_longest_alias_wins cfg c st db st1 parts :
  enableAliasResolution cfg = true ->
  openAliasDB c st = (Some db, st1) ->
  parts <> [] ->
  (forall a,
      fst (aliasCandidateOf cfg c parts st) = Some a <->
      exists i, (1 <= i <= length parts)%nat /\ a = candidate parts i /\
                has_final db a = true /\
                forall j, (i < j <= length parts)%nat ->
                          has_final db (candidate parts j) = false) /\
  (fst (aliasCandidateOf cfg c parts st) = None <->
   forall i, (1 <= i <= length parts)%nat ->
             has_final db (candidate parts i) = false) /\
  (parts = [js "foo"; js "bar"; js "baz"] ->
   has_final db (js "foo bar") = true ->
   has_final db (js "foo bar baz") = false ->
   fst (resolveParts cfg c parts st) = Some (js "foo bar")).
Proof.
  intros Hen Hopen Hne.
  pose proof (aliasCandidateOf_open cfg c st db st1 parts Hen Hopen) as Hcand.
  repeat split.
  - rewrite Hcand. cbn [fst]. apply aliasLoop_Some.
  - rewrite Hcand. cbn [fst]. apply aliasLoop_Some.
  - rewrite Hcand. cbn [fst]. apply aliasLoop_None.
  - rewrite Hcand. cbn [fst]. apply aliasLoop_None.
  - intros -> H2 H3. unfold resolveParts.
    rewrite (aliasCandidateOf_open cfg c st db st1 _ Hen Hopen).
    cbn [length]. rewrite aliasLoop_step.
    change (candidate [js "foo"; js "bar"; js "baz"] 3) with (js "foo bar baz").
    rewrite H3, aliasLoop_step.
    change (candidate [js "foo"; js "bar"; js "baz"] 2) with (js "foo bar").
    rewrite H2. reflexivity.
Qed.

(** ** The command parser *)

Lemma startsWith_spec text p :
  startsWith text p = true <-> exists rest, text = p ++ rest.
Proof.
  revert text. induction p as [|c p IH]; intros text; cbn [startsWith].
  - split; [intros _; exists text; reflexivity | reflexivity].
  - destruct text as [|d text].
    + split; [discriminate | intros (r & Hr); discriminate].
    + rewrite andb_true_iff, N.eqb_eq, IH. split.
      * intros (-> & r & ->). exists r. reflexivity.
      * intros (r & Hr). injection Hr as -> ->. split; [reflexivity | eauto].
Qed.

Lemma startsWith_false text p :
  startsWith text p = false <-> forall rest, text <> p ++ rest.
Proof.
  split.
  - intros H rest Heq.
    assert (startsWith text p = true) by (apply startsWith_spec; eauto).
    congruence.
  - intros H. destruct (startsWith text p) eqn:E; [|reflexivity].
    apply startsWith_spec in E as (r & Hr). exfalso. exact (H r Hr).
Qed.

Lemma first_prefix_None text pfs :
  first_prefix text pfs = None <->
  forall p, In p pfs -> startsWith text p = false.
Proof.
  unfold first_prefix. induction pfs as [|q pfs IH]; cbn [find].
  - split; [intros _ p [] | reflexivity].
  - destruct (startsWith text q) eqn:E.
    + split; [discriminate|]. intros H. specialize (H q (or_introl eq_refl)).
      congruence.
    + rewrite IH. split.
      * intros H p [<-|Hp]; [exact E | exact (H p Hp)].
      * intros H p Hp. apply H. right. exact Hp.
Qed.

(** The prefix found is the first one, in the order of the table, that
    the text starts with. *)
Lemma first_prefix_Some text pfs m :
  first_prefix text pfs = Some m ->
  exists before after,
    pfs = before ++ m :: after /\ startsWith text m = true /\
    forall p, In p before -> startsWith text p = false.
Proof.
  unfold first_prefix. induction pfs as [|q pfs IH]; cbn [find]; [discriminate|].
  destruct (startsWith text q) eqn:E.
  - intros [= <-]. exists [], pfs. repeat split; [exact E | intros p []].
  - intros H. destruct (IH H) as (b & a & -> & Hm & Hb).
    exists (q :: b), a. repeat split; [exact Hm|].
    intros p [<-|Hp]; [exact E | exact (Hb p Hp)].
Qed.

(** The pattern accepts exactly the non-empty strings of ASCII letters,
    digits and underscores. *)
Lemma isCommandName_spec cmd :
  isCommandName cmd = true <->
  cmd <> [] /\
  forall ch, In ch cmd ->
             48 <= ch <= 57 \/ 65 <= ch <= 90 \/ 97 <= ch <= 122 \/ ch = 95.
Proof.
  unfold isCommandName. rewrite andb_true_iff, forallb_forall.
  assert (Hw : forall ch, isWordChar ch = true <->
            48 <= ch <= 57 \/ 65 <= ch <= 90 \/ 97 <= ch <= 122 \/ ch = 95).
  { intros ch. unfold isWordChar.
    rewrite !orb_true_iff, !andb_true_iff, !N.leb_le, N.eqb_eq. propositional. }
  split.
  - intros [Hne Hall]. split; [destruct cmd; [discriminate | discriminate]|].
    intros ch Hch. apply Hw, Hall, Hch.
  - intros [Hne Hall]. split; [destruct cmd; [contradiction | reflexivity]|].
    intros ch Hch. apply Hw, Hall, Hch.
Qed.

Lemma resolveParts_no_alias cfg c st w ws :
  fst (aliasCandidateOf cfg c (w :: ws) st) = None ->
  fst (resolveParts cfg c (w :: ws) st) =
  if isCommandName w then Some w else None.
Proof.
  intros H. unfold resolveParts.
  destruct (aliasCandidateOf cfg c (w :: ws) st) as [a st1]. cbn [fst] in H.
  subst a. destruct (isCommandName w); reflexivity.
Qed.

(** C6. For every prefix table and every text: the prefix used is the
    first one, in table order, that the text starts with; when the text
    starts with no prefix of the table the parse yields no command; when
    what follows the prefix is empty after trimming (or the prefix found
    is itself the empty string) it yields no command; when no alias
    matches and the first token is not a non-empty string of ASCII
    letters, digits and underscores it yields no command; and when no
    alias matches and the first token is such a string, the command is
    exactly that token (for a prefix that is not the empty string, as
    every entry of a prefix table is). *)
Theorem C6_parse_outcomes cfg c text diy st :
  let P := prefix_table diy st in
  let result := fst (getCommandFromMessage cfg c text diy st) in
  ((forall p rest, In p P -> text <> p ++ rest) -> result = None) /\
  (forall m, first_prefix text P = Some m ->
     exists before after rest,
       P = before ++ m :: after /\ text = m ++ rest /\
       forall p r, In p before -> text <> p ++ r) /\
  (forall m, first_prefix text P = Some m ->
     m = [] \/ trim (slice_from (length m) text) = [] -> result = None) /\
  (forall m w ws, first_prefix text P = Some m ->
     words (trim (slice_from (length m) text)) = w :: ws ->
     fst (aliasCandidateOf cfg c (w :: ws) st) = None ->
     isCommandName w = false -> result = None) /\
  (forall m w ws, first_prefix text P = Some m -> m <> [] ->
     words (trim (slice_from (length m) text)) = w :: ws ->
     fst (aliasCandidateOf cfg c (w :: ws) st) = None ->
     isCommandName w = true -> result = Some w) /\
  (forall w, isCommandName w = true <->
     w <> [] /\
     forall ch, In ch w ->
                48 <= ch <= 57 \/ 65 <= ch <= 90 \/ 97 <= ch <= 122 \/
                ch = 95).
Proof.
  intros P result. subst result. unfold getCommandFromMessage. fold P.
  split; [|split; [|split; [|split; [|split; [|apply isCommandName_spec]]]]].
  - intros Hno.
    assert (Hnone : first_prefix text P = None).
    { apply first_prefix_None. intros p Hp. apply startsWith_false.
      intros rest. exact (Hno p rest Hp). }
    rewrite Hnone. reflexivity.
  - intros m Hm. destruct (first_prefix_Some _ _ _ Hm) as (b & a & HP & Hs & Hb).
    apply startsWith_spec in Hs as (rest & Hrest).
    exists b, a, rest. repeat split; [exact HP | exact Hrest |].
    intros p r Hp. apply startsWith_false. exact (Hb p Hp).
  - intros m Hm [->|Hrest]; rewrite Hm; [reflexivity|]. rewrite Hrest.
    destruct (truthy_str m); reflexivity.
  - intros m w ws Hm Hw Hal Hname. rewrite Hm, Hw.
    destruct (truthy_str m); [|reflexivity]. cbn [negb].
    destruct (trim (slice_from (length m) text)) as [|ch r]; [reflexivity|].
    cbn [truthy_str negb].
    rewrite (resolveParts_no_alias _ _ _ _ _ Hal), Hname. reflexivity.
  - intros m w ws Hm Hne Hw Hal Hname. rewrite Hm, Hw.
    destruct m as [|ch m]; [contradiction|]. cbn [truthy_str negb].
    destruct (trim (slice_from (length (ch :: m)) text)) as [|ch' r] eqn:E.
    + discriminate Hw.
    + cbn [truthy_str negb].
      rewrite (resolveParts_no_alias _ _ _ _ _ Hal), Hname. reflexivity.
Qed.

(** ** The alias store when it cannot be opened *)

Lemma alias_neutral_refl st : alias_neutral st st.
Proof. repeat split. Qed.

Lemma alias_neutral_trans st1 st2 st3 :
  alias_neutral st1 st2 -> alias_neutral st2 st3 -> alias_neutral st1 st3.
Proof.
  intros (a1 & b1 & c1) (a2 & b2 & c2). repeat split; congruence.
Qed.

Lemma alias_neutral_log l st :
  is_alias_warning l = false -> alias_neutral st (log l st).
Proof.
  intros Hl. repeat split. unfold alias_warnings, log. cbn [console set_console].
  rewrite List.filter_app, length_app. cbn [List.filter]. rewrite Hl.
  cbn [length]. lia.
Qed.

Lemma alias_neutral_fold {A} (f : State -> A -> State) l st :
  (forall s x, alias_neutral s (f s x)) ->
  alias_neutral st (fold_left f l st).
Proof.
  intros Hf. revert st. induction l as [|x l IH]; intros st; cbn [fold_left].
  - apply alias_neutral_refl.
  - eapply alias_neutral_trans; [apply Hf | apply IH].
Qed.

Lemma alias_inv_neutral cfg st st' :
  alias_inv cfg st -> alias_neutral st st' -> alias_inv cfg st'.
Proof.
  intros [H0 H1] (Ha & Hw & Hn). unfold alias_inv.
  rewrite Ha, Hw, Hn. split; assumption.
Qed.

Lemma new_AliasDB_neutral c st :
  alias_neutral st (snd (new_AliasDB c st)).
Proof.
  destruct c as [e|rows|e data]; cbn [new_AliasDB snd];
    try apply alias_neutral_refl.
  destruct (fallbackWarned st); [apply alias_neutral_refl|].
  eapply alias_neutral_trans; [|apply alias_neutral_log; reflexivity].
  repeat split.
Qed.

Lemma new_AliasDB_result c st :
  fst (new_AliasDB c st) =
  match c with
  | CtorThrows e => Throw (ExnAliasCtor e)
  | CtorSqlite rows => Ok {| db_sqlite := true; db_rows := rows |}
  | CtorFallback _ data => Ok {| db_sqlite := false; db_rows := data |}
  end.
Proof. destruct c; reflexivity. Qed.

(** Once resolution is switched off, [openAliasDB] does nothing. *)
Lemma openAliasDB_unavailable c st :
  aliasResolutionAvailable st = false -> openAliasDB c st = (None, st).
Proof. intros H. unfold openAliasDB. rewrite H. reflexivity. Qed.

(** The call at which the constructor throws. *)
Lemma openAliasDB_throws e st :
  aliasResolutionAvailable st = true ->
  openAliasDB (CtorThrows e) st =
  (None,
   if aliasResolutionWarned st
   then set_aliasResolutionAvailable false st
   else log (LogAliasUnavailable e)
          (set_aliasResolutionWarned true
             (set_aliasResolutionAvailable false st))).
Proof. intros H. unfold openAliasDB. rewrite H. reflexivity. Qed.

Lemma alias_warnings_log_warning e st :
  alias_warnings (log (LogAliasUnavailable e) st) = S (alias_warnings st).
Proof.
  unfold alias_warnings, log. cbn [console set_console].
  rewrite List.filter_app, length_app. cbn. lia.
Qed.

Lemma openAliasDB_inv cfg c st :
  alias_inv cfg st -> alias_inv cfg (snd (openAliasDB c st)).
Proof.
  intros Hinv. unfold openAliasDB.
  destruct (aliasResolutionAvailable st) eqn:Hav; cbn [negb]; [|exact Hinv].
  pose proof (new_AliasDB_neutral c st) as Hn.
  pose proof (new_AliasDB_result c st) as Hr.
  destruct (new_AliasDB c st) as [r st1]. cbn [fst snd] in *.
  pose proof (alias_inv_neutral _ _ _ Hinv Hn) as Hinv1.
  destruct r as [db|x]; cbn [snd]; [exact Hinv1|].
  destruct Hinv1 as [H0 H1]. destruct Hn as (Ha & Hw & Hc).
  cbn [aliasResolutionWarned set_aliasResolutionAvailable].
  destruct (aliasResolutionWarned st1) eqn:Hw1.
  - destruct (H1 eq_refl) as [Hone _]. split.
    + cbn [aliasResolutionWarned set_aliasResolutionAvailable]. congruence.
    + intros _. split; [exact Hone | reflexivity].
  - destruct (H0 eq_refl) as [Hzero _]. split; [discriminate|].
    intros _. split; [|reflexivity].
    rewrite alias_warnings_log_warning. unfold alias_warnings in *.
    cbn [console set_aliasResolutionWarned set_aliasResolutionAvailable].
    rewrite Hzero. reflexivity.
Qed.

Lemma alias_step_neutral cfg st st' :
  alias_neutral st st' -> alias_step cfg st st'.
Proof.
  intros H. split; [intros Hi; exact (alias_inv_neutral _ _ _ Hi H)|].
  intros _. exact H.
Qed.

Lemma alias_step_refl cfg st : alias_step cfg st st.
Proof. apply alias_step_neutral, alias_neutral_refl. Qed.

Lemma alias_step_trans cfg st1 st2 st3 :
  alias_step cfg st1 st2 -> alias_step cfg st2 st3 -> alias_step cfg st1 st3.
Proof.
  intros [Hi12 Hn12] [Hi23 Hn23]. split; [auto|].
  intros Hoff. pose proof (Hn12 Hoff) as H12.
  eapply alias_neutral_trans; [exact H12|]. apply Hn23.
  destruct H12 as (Ha & _). congruence.
Qed.

Lemma alias_step_fold cfg {A} (f : State -> A -> State) l st :
  (forall s x, alias_step cfg s (f s x)) ->
  alias_step cfg st (fold_left f l st).
Proof.
  intros Hf. revert st. induction l as [|x l IH]; intros st; cbn [fold_left].
  - apply alias_step_refl.
  - eapply alias_step_trans; [apply Hf | apply IH].
Qed.

Lemma openAliasDB_step cfg c st :
  alias_step cfg st (snd (openAliasDB c st)).
Proof.
  split; [apply openAliasDB_inv|].
  intros Hoff. rewrite (openAliasDB_unavailable c st Hoff).
  apply alias_neutral_refl.
Qed.

Lemma aliasCandidateOf_step cfg c parts st :
  alias_step cfg st (snd (aliasCandidateOf cfg c parts st)).
Proof.
  unfold aliasCandidateOf.
  destruct (enableAliasResolution cfg); [|apply alias_step_refl].
  pose proof (openAliasDB_step cfg c st) as H.
  destruct (openAliasDB c st) as [[db|] st1]; exact H.
Qed.

Lemma resolveParts_step cfg c parts st :
  alias_step cfg st (snd (resolveParts cfg c parts st)).
Proof.
  unfold resolveParts. destruct parts as [|cmd ws]; [apply alias_step_refl|].
  pose proof (aliasCandidateOf_step cfg c (cmd :: ws) st) as H.
  destruct (aliasCandidateOf cfg c (cmd :: ws) st) as [[a|] st1];
    cbn [snd] in H.
  - destruct (truthy_str a); [exact H|]. destruct (isCommandName cmd); exact H.
  - destruct (isCommandName cmd); exact H.
Qed.

Lemma getCommandFromMessage_step cfg c text diy st :
  alias_step cfg st (snd (getCommandFromMessage cfg c text diy st)).
Proof.
  unfold getCommandFromMessage.
  destruct (first_prefix text (prefix_table diy st)) as [m|];
    [|apply alias_step_refl].
  destruct (negb (truthy_str m)); [apply alias_step_refl|].
  destruct (negb (truthy_str _)); [apply alias_step_refl|].
  apply resolveParts_step.
Qed.

Lemma load_file_neutral aliasList st file :
  alias_neutral st (load_file aliasList st file).
Proof.
  unfold load_file. destruct (file_module file) as [e| |p].
  - apply alias_neutral_log. reflexivity.
  - apply alias_neutral_refl.
  - repeat split.
Qed.

Lemma setPlugins_step cfg basePath listing c st :
  alias_step cfg st (snd (setPlugins cfg basePath listing c st)).
Proof.
  unfold setPlugins. destruct listing as [listing|x]; [|apply alias_step_refl].
  destruct (eligible_files cfg basePath listing) as [|f files].
  - cbn [snd]. destruct (cfg_minimal cfg); [|apply alias_step_refl].
    apply alias_step_neutral, alias_neutral_log. reflexivity.
  - assert (Hopen : forall (al : list AliasRecord) (s : State),
              alias_step cfg st s ->
              alias_step cfg st (fold_left (load_file al) (f :: files) s)).
    { intros al s Hs. eapply alias_step_trans; [exact Hs|].
      apply alias_step_neutral, alias_neutral_fold. intros s' x.
      apply load_file_neutral. }
    destruct (enableAliasResolution cfg).
    + pose proof (openAliasDB_step cfg c st) as H.
      destruct (openAliasDB c st) as [[db|] st1]; cbn [snd] in *;
        apply Hopen; exact H.
    + cbn [snd]. apply Hopen, alias_step_refl.
Qed.

Lemma removeEventHandler_neutral cb ev st :
  alias_neutral st (removeEventHandler cb ev st).
Proof. repeat split. Qed.

Lemma clearPlugins_neutral st : alias_neutral st (clearPlugins st).
Proof.
  unfold clearPlugins.
  eapply alias_neutral_trans; [|apply alias_neutral_fold].
  - repeat split.
  - intros s h. apply removeEventHandler_neutral.
Qed.

Lemma listen_plugin_neutral cfg st plugin :
  alias_neutral st (listen_plugin cfg st plugin).
Proof.
  unfold listen_plugin.
  eapply alias_neutral_trans; [|apply alias_neutral_fold].
  - destruct (plugin_listenMessageHandler plugin) as [h|];
      [|apply alias_neutral_refl].
    cbn. destruct (_ || _); repeat split.
  - intros s [event handler]. repeat split.
Qed.

Lemma dealListenMessagePlugin_neutral cfg st :
  alias_neutral st (dealListenMessagePlugin cfg st).
Proof.
  unfold dealListenMessagePlugin. apply alias_neutral_fold.
  intros s p. apply listen_plugin_neutral.
Qed.

Lemma dealCronPlugin_neutral st : alias_neutral st (dealCronPlugin st).
Proof.
  unfold dealCronPlugin. apply alias_neutral_fold. intros s p.
  destruct (plugin_cronTasks p) as [tasks|]; [|apply alias_neutral_refl].
  apply alias_neutral_fold. intros s' [key task]. repeat split.
Qed.

Lemma loadPlugins_step cfg env st :
  alias_step cfg st (snd (loadPlugins cfg env st)).
Proof.
  unfold loadPlugins, bind, lift.
  set (s1 := cronManager_clear (clearPlugins st)).
  assert (H1 : alias_step cfg st s1).
  { apply alias_step_neutral.
    eapply alias_neutral_trans; [apply clearPlugins_neutral|]. repeat split. }
  pose proof (setPlugins_step cfg USER_PLUGIN_PATH (env_user env)
                (env_alias_user env) s1) as H2.
  destruct (setPlugins cfg USER_PLUGIN_PATH _ _ s1) as [[[]|x] s2];
    cbn [snd] in *; [|eapply alias_step_trans; eassumption].
  pose proof (setPlugins_step cfg DEFAUTL_PLUGIN_PATH (env_builtin env)
                (env_alias_builtin env) s2) as H3.
  destruct (setPlugins cfg DEFAUTL_PLUGIN_PATH _ _ s2) as [[[]|x] s3];
    cbn [snd] in *;
    [|eapply alias_step_trans; [eapply alias_step_trans|]; eassumption].
  eapply alias_step_trans; [eapply alias_step_trans; [eapply alias_step_trans|]|];
    [exact H1 | exact H2 | exact H3 |].
  apply alias_step_neutral.
  eapply alias_neutral_trans; [|apply dealCronPlugin_neutral].
  eapply alias_neutral_trans; [|apply dealListenMessagePlugin_neutral].
  repeat split.
Qed.

Lemma call_handler_neutral h a obj trigger st :
  alias_neutral st (snd (call_handler h a obj trigger st)).
Proof.
  unfold call_handler. destruct (handler_run h obj trigger); repeat split.
Qed.

Lemma msg_edit_neutral msg text st :
  alias_neutral st (snd (msg_edit msg text st)).
Proof. unfold msg_edit. destruct (edit_outcome msg text); repeat split. Qed.

Lemma dispatch_body_neutral cmd isEdited msg base trigger st :
  alias_neutral st (snd (dispatch_body cmd isEdited msg base trigger st)).
Proof.
  unfold dispatch_body.
  destruct (getPluginEntry cmd st) as [entry|]; [|apply alias_neutral_refl].
  destruct (isEdited && _); [apply alias_neutral_refl|].
  assert (Hcall : forall a obj s,
            alias_neutral st s ->
            alias_neutral st
              (snd match Map_get (target_cmd entry cmd)
                           (plugin_cmdHandlers (entry_plugin entry)) with
                   | Some handler => call_handler handler a obj trigger s
                   | None => (Ok tt, s)
                   end)).
  { intros a obj s Hs. destruct (Map_get _ _) as [h|]; [|exact Hs].
    eapply alias_neutral_trans; [exact Hs | apply call_handler_neutral]. }
  destruct (rewrite_wanted entry) as [aliasFinal|];
    [|apply Hcall, alias_neutral_refl].
  destruct (rewrite_message _ cmd aliasFinal base) as [newMsg|];
    [|apply Hcall, alias_neutral_refl].
  unfold alloc. apply Hcall. repeat split.
Qed.

Lemma dealCommandPluginWithMessage_neutral cmd isEdited msg trigger st :
  alias_neutral st
    (snd (dealCommandPluginWithMessage cmd isEdited msg trigger st)).
Proof.
  unfold dealCommandPluginWithMessage.
  destruct (heap st !! msg) as [base|]; [|apply alias_neutral_refl].
  unfold try_catch.
  pose proof (dispatch_body_neutral cmd isEdited msg base trigger st) as H.
  destruct (dispatch_body cmd isEdited msg base trigger st) as [[[]|x] st1];
    cbn [snd] in H; [exact H|].
  eapply alias_neutral_trans; [exact H|].
  eapply alias_neutral_trans; [|apply msg_edit_neutral].
  apply alias_neutral_log. reflexivity.
Qed.

Lemma dealCommandPlugin_step cfg c event st :
  alias_step cfg st (snd (dealCommandPlugin cfg c event st)).
Proof.
  unfold dealCommandPlugin.
  destruct (heap st !! ev_message event) as [m|]; [|apply alias_step_refl].
  destruct (_ || _); [|apply alias_step_refl].
  pose proof (getCommandFromMessage_step cfg c (msg_message m) None st) as H.
  destruct (getCommandFromMessage cfg c (msg_message m) None st)
    as [[cmd|] st1]; cbn [snd] in H; [|exact H].
  destruct (truthy_str cmd); [|exact H].
  eapply alias_step_trans; [exact H|].
  apply alias_step_neutral, dealCommandPluginWithMessage_neutral.
Qed.

Lemma run_op_step cfg st op : alias_step cfg st (run_op cfg st op).
Proof.
  destruct op; cbn [run_op].
  - apply getCommandFromMessage_step.
  - apply alias_step_neutral. repeat split.
  - apply loadPlugins_step.
  - apply dealCommandPlugin_step.
  - apply alias_step_neutral, dealCommandPluginWithMessage_neutral.
  - apply alias_step_neutral. repeat split.
Qed.

Lemma run_ops_step cfg ops st : alias_step cfg st (run_ops cfg ops st).
Proof. unfold run_ops. apply alias_step_fold. apply run_op_step. Qed.

Lemma initial_state_inv cfg : alias_inv cfg (initial_state cfg).
Proof. split; [intros _; split; reflexivity | discriminate]. Qed.

Lemma alias_inv_at_most_one cfg st :
  alias_inv cfg st ->
  (alias_warnings st <= 1)%nat /\
  (alias_warnings st = 1%nat <-> aliasResolutionWarned st = true).
Proof.
  intros [H0 H1]. destruct (aliasResolutionWarned st).
  - destruct (H1 eq_refl) as [-> _]. split; [lia | propositional].
  - destruct (H0 eq_refl) as [-> _]. split; [lia|].
    split; [discriminate | discriminate].
Qed.

(** C5. When [new AliasDB()] throws, the call at which it happens finds
    no alias, switches resolution off and writes one [ALIAS] warning;
    from then on every call finds no alias and changes nothing, whatever
    the store would answer; a single token ["anycommand"] resolves to
    itself, at the failing call and afterwards; no function of the
    resolver throws (they return a value and a state). Over the whole
    life of the process, from the initial state and through any
    sequence of calls, at most one [ALIAS] warning is ever on the
    console, and once it is there it stays the only one and resolution
    stays off. *)
Theorem C5_alias_store_unavailable cfg :
  (forall e parts st,
      enableAliasResolution cfg = true ->
      aliasResolutionAvailable st = true ->
      aliasResolutionWarned st = false ->
      fst (new_AliasDB (CtorThrows e) st) = Throw (ExnAliasCtor e) /\
      fst (aliasCandidateOf cfg (CtorThrows e) parts st) = None /\
      let st' := snd (aliasCandidateOf cfg (CtorThrows e) parts st) in
      aliasResolutionAvailable st' = false /\
      aliasResolutionWarned st' = true /\
      console st' = console st ++ [LogAliasUnavailable e]) /\
  (forall c parts st,
      aliasResolutionAvailable st = false ->
      aliasCandidateOf cfg c parts st = (None, st)) /\
  (forall c st,
      aliasResolutionAvailable st = false ->
      resolveParts cfg c [js "anycommand"] st = (Some (js "anycommand"), st)) /\
  (forall e st,
      fst (resolveParts cfg (CtorThrows e) [js "anycommand"] st)
      = Some (js "anycommand")) /\
  (forall ops1 ops2,
      let st1 := run_ops cfg ops1 (initial_state cfg) in
      let st2 := run_ops cfg ops2 st1 in
      (alias_warnings st1 <= 1)%nat /\
      (alias_warnings st1 = 1%nat <-> aliasResolutionWarned st1 = true) /\
      (alias_warnings st1 = 1%nat ->
       alias_warnings st2 = 1%nat /\ aliasResolutionAvailable st2 = false)).
Proof.
  assert (Hoff : forall c parts st,
             aliasResolutionAvailable st = false ->
             aliasCandidateOf cfg c parts st = (None, st)).
  { intros c parts st H. unfold aliasCandidateOf.
    rewrite (openAliasDB_unavailable c st H).
    destruct (enableAliasResolution cfg); reflexivity. }
  split; [|split; [exact Hoff|split; [|split]]].
  - intros e parts st Hen Hav Hw. split; [reflexivity|].
    unfold aliasCandidateOf. rewrite Hen, (openAliasDB_throws e st Hav), Hw.
    cbn [fst snd]. repeat split.
  - intros c st H. unfold resolveParts. rewrite (Hoff c _ st H). reflexivity.
  - intros e st. unfold resolveParts, aliasCandidateOf, openAliasDB.
    destruct (enableAliasResolution cfg); [|reflexivity].
    destruct (negb (aliasResolutionAvailable st)); reflexivity.
  - intros ops1 ops2 st1 st2.
    pose proof (run_ops_step cfg ops1 (initial_state cfg)) as [Hinv1 _].
    specialize (Hinv1 (initial_state_inv cfg)). fold st1 in Hinv1.
    destruct (alias_inv_at_most_one cfg st1 Hinv1) as [Hle Hiff].
    split; [exact Hle|]. split; [exact Hiff|].
    intros Hone. apply Hiff in Hone.
    destruct Hinv1 as [_ H1]. destruct (H1 Hone) as [Hcount Hav].
    pose proof (run_ops_step cfg ops2 st1) as [_ Hn].
    destruct (Hn Hav) as (Ha & _ & Hc). fold st2 in Ha, Hc.
    split; congruence.
Qed.

(** ** Maps and sorting *)

Lemma Map_set_keys {V} k (v : V) m k' :
  In k' (map fst (Map_set k v m)) <-> k' = k \/ In k' (map fst m).
Proof.
  induction m as [|[k0 v0] m IH]; cbn [Map_set map fst In].
  - propositional_steps.
  - destruct (decide (k0 = k)) as [->|Hne]; cbn [map fst In].
    + propositional_steps.
    + rewrite IH. propositional_steps.
Qed.

Lemma Map_set_wf {V} k (v : V) m : Map_wf m -> Map_wf (Map_set k v m).
Proof.
  unfold Map_wf. induction m as [|[k0 v0] m IH]; cbn [Map_set map fst].
  - intros _. constructor; [intros [] | constructor].
  - intros Hnd. inversion Hnd as [|? ? Hnotin Hnd']; subst.
    destruct (decide (k0 = k)) as [->|Hne]; cbn [map fst].
    + constructor; assumption.
    + constructor; [|apply IH, Hnd'].
      rewrite Map_set_keys. intros [->|Hin]; [congruence | contradiction].
Qed.

Lemma Map_set_fresh {V} k (v : V) m :
  ~ In k (map fst m) -> Map_set k v m = m ++ [(k, v)].
Proof.
  induction m as [|[k0 v0] m IH]; cbn [Map_set map fst In app];
    [reflexivity|].
  intros Hnotin. destruct (decide (k0 = k)) as [->|Hne]; [propositional|].
  rewrite IH; [reflexivity | propositional].
Qed.

Lemma Map_get_skip {V} k (m1 m2 : list (jsstring * V)) :
  ~ In k (map fst m1) -> Map_get k (m1 ++ m2) = Map_get k m2.
Proof.
  induction m1 as [|[k0 v0] m1 IH]; cbn [Map_get map fst In app];
    [reflexivity|].
  intros Hnotin. destruct (decide (k0 = k)) as [->|Hne]; [propositional|].
  apply IH. propositional.
Qed.

Lemma sort_insert_perm {A} (cmp : A -> A -> Z) x l :
  Permutation (sort_insert cmp x l) (x :: l).
Proof.
  induction l as [|y l IH]; cbn [sort_insert]; [reflexivity|].
  destruct (cmp x y <=? 0)%Z; [reflexivity|].
  rewrite IH. apply perm_swap.
Qed.

Lemma Array_sort_perm {A} (cmp : A -> A -> Z) l :
  Permutation (Array_sort cmp l) l.
Proof.
  induction l as [|x l IH]; cbn [Array_sort foldr]; [reflexivity|].
  fold (Array_sort cmp l). rewrite sort_insert_perm, IH. reflexivity.
Qed.

Lemma sort_insert_HdRel {A} (cmp : A -> A -> Z) a x l :
  cmp_le cmp a x -> HdRel (cmp_le cmp) a l ->
  HdRel (cmp_le cmp) a (sort_insert cmp x l).
Proof.
  intros Hax Hal. destruct l as [|y l]; cbn [sort_insert].
  - constructor. exact Hax.
  - destruct (cmp x y <=? 0)%Z; constructor; [exact Hax|].
    inversion Hal; assumption.
Qed.

Lemma sort_insert_sorted {A} (cmp : A -> A -> Z) x l :
  (forall a b, cmp_le cmp a b \/ cmp_le cmp b a) ->
  Sorted (cmp_le cmp) l -> Sorted (cmp_le cmp) (sort_insert cmp x l).
Proof.
  intros Htotal. induction l as [|y l IH]; cbn [sort_insert]; intros Hs.
  - repeat constructor.
  - destruct (cmp x y <=? 0)%Z eqn:E.
    + constructor; [exact Hs|]. constructor. apply Z.leb_le, E.
    + inversion Hs as [|? ? Hs' Hhd]; subst. constructor; [apply IH, Hs'|].
      apply sort_insert_HdRel; [|exact Hhd].
      apply Z.leb_gt in E. destruct (Htotal y x) as [H|H]; [exact H|].
      unfold cmp_le in H. lia.
Qed.

Lemma Array_sort_sorted {A} (cmp : A -> A -> Z) l :
  (forall a b, cmp_le cmp a b \/ cmp_le cmp b a) ->
  Sorted (cmp_le cmp) (Array_sort cmp l).
Proof.
  intros Htotal. induction l as [|x l IH]; cbn [Array_sort foldr];
    [constructor|].
  apply sort_insert_sorted; [exact Htotal | exact IH].
Qed.

(** ** [listCommands] *)

Lemma listCommands_cmds_wf st :
  Map_wf (plugins st) ->
  listCommands_cmds st = map (fun ke => (fst ke, display (fst ke) (snd ke)))
                             (plugins st).
Proof.
  unfold listCommands_cmds, Map_wf.
  set (f := fun ke : jsstring * PluginEntry =>
              (fst ke, display (fst ke) (snd ke))).
  set (m := plugins st). intros Hwf.
  assert (Hgen : forall m2 m1, m = m1 ++ m2 ->
            fold_left
              (fun cmds key =>
                 match Map_get key m with
                 | Some entry => Map_set key (display key entry) cmds
                 | None => cmds
                 end) (map fst m2) (map f m1) = map f (m1 ++ m2)).
  { induction m2 as [|[k e] m2 IH]; intros m1 Hm; cbn [map fold_left fst].
    - rewrite app_nil_r. reflexivity.
    - assert (Hk : ~ In k (map fst m1)).
      { rewrite Hm, map_app in Hwf. cbn [map fst] in Hwf.
        apply NoDup_remove_2 in Hwf. rewrite in_app_iff in Hwf. propositional. }
      rewrite Hm at 1. rewrite (Map_get_skip k m1 _ Hk). cbn [Map_get].
      destruct (decide (k = k)); [|contradiction].
      rewrite Map_set_fresh.
      + specialize (IH (m1 ++ [(k, e)])).
        rewrite map_app in IH. cbn [map] in IH. unfold f at 2 in IH.
        cbn [fst snd] in IH. rewrite IH; rewrite <- app_assoc; [reflexivity|].
        exact Hm.
      + rewrite map_map. cbn [fst f]. exact Hk. }
  apply (Hgen m []). reflexivity.
Qed.

(** C9. For every command index (a [Map], so with distinct keys),
    [listCommands] returns exactly one display string per key: the
    strings [display key entry] of the entries, in some order; an entry
    that carries an [original] is shown as [key(original)] and an entry
    without one as the bare key; and the result is sorted in the order
    of [localeCompare]: each string does not come after the next one,
    nor, the comparison being transitive, after any later one. *)
Theorem C9_listCommands st :
  (forall a b, locale_le a b \/ locale_le b a) ->
  Map_wf (plugins st) ->
  Permutation (listCommands st)
              (map (fun ke => display (fst ke) (snd ke)) (plugins st)) /\
  length (listCommands st) = length (plugins st) /\
  Sorted locale_le (listCommands st) /\
  ((forall a b c, locale_le a b -> locale_le b c -> locale_le a c) ->
   StronglySorted locale_le (listCommands st)) /\
  (forall key entry o,
      In (key, entry) (plugins st) ->
      entry_original entry = Some o -> o <> [] ->
      display key entry = key ++ js "(" ++ o ++ js ")") /\
  (forall key entry,
      In (key, entry) (plugins st) ->
      entry_original entry = None ->
      display key entry = key).
Proof.
  intros Htotal Hwf.
  assert (Hperm : Permutation (listCommands st)
            (map (fun ke => display (fst ke) (snd ke)) (plugins st))).
  { unfold listCommands. rewrite Array_sort_perm, (listCommands_cmds_wf st Hwf).
    rewrite map_map. reflexivity. }
  repeat split.
  - exact Hperm.
  - rewrite (Permutation_length Hperm), length_map. reflexivity.
  - unfold listCommands. apply (Array_sort_sorted localeCompare), Htotal.
  - intros Htrans. apply Sorted_StronglySorted; [exact Htrans|].
    unfold listCommands. apply (Array_sort_sorted localeCompare), Htotal.
  - intros key entry o _ Ho Hne. unfold display. rewrite Ho.
    destruct o; [contradiction | reflexivity].
  - intros key entry _ Ho. unfold display. rewrite Ho. reflexivity.
Qed.

(** ** Reload *)

Lemma fold_left_invariant {A} (P : State -> Prop) (f : State -> A -> State)
    l st :
  (forall s x, P s -> P (f s x)) -> P st -> P (fold_left f l st).
Proof.
  intros Hf. revert st. induction l as [|x l IH]; intros st H; cbn [fold_left].
  - exact H.
  - apply IH, Hf, H.
Qed.

(** Removing every listed handler leaves the client without handlers. *)
Lemma remove_all_handlers hs st :
  (forall h, In h (client st) -> In h hs) ->
  client (fold_left (fun s h => removeEventHandler (snd h) (fst h) s) hs st)
  = [].
Proof.
  revert st. induction hs as [|h hs IH]; intros st Hsub; cbn [fold_left].
  - destruct (client st) as [|x l]; [reflexivity|].
    destruct (Hsub x (or_introl eq_refl)).
  - apply IH. intros x Hx. unfold removeEventHandler in Hx.
    cbn [client set_client] in Hx. apply filter_In in Hx as [Hin Hneq].
    destruct (Hsub x Hin) as [<-|Hhs]; [|exact Hhs].
    destruct h as [ev cb]. cbn [fst snd] in Hneq.
    rewrite bool_decide_eq_true_2 in Hneq by reflexivity. discriminate.
Qed.

Lemma clearPlugins_spec st :
  let st' := clearPlugins st in
  validPlugins st' = [] /\ plugins st' = [] /\ client st' = [] /\
  cron st' = cron st.
Proof.
  unfold clearPlugins, listEventHandlers. repeat split.
  - apply (fold_left_invariant (fun s => validPlugins s = []));
      [intros s h H; exact H | reflexivity].
  - apply (fold_left_invariant (fun s => plugins s = []));
      [intros s h H; exact H | reflexivity].
  - apply remove_all_handlers. intros h Hh. exact Hh.
  - apply (fold_left_invariant (fun s => cron s = cron st));
      [intros s h H; exact H | reflexivity].
Qed.

Lemma register_cmd_wf aliasList plugin index cmd :
  Map_wf index -> Map_wf (register_cmd aliasList plugin index cmd).
Proof.
  intros Hwf. unfold register_cmd.
  destruct aliasList as [|r rs]; [apply Map_set_wf, Hwf|].
  generalize (List.filter (related_alias cmd) (r :: rs)) as related.
  assert (H1 : Map_wf (Map_set cmd (literal_entry plugin) index))
    by apply Map_set_wf, Hwf.
  revert H1. generalize (Map_set cmd (literal_entry plugin) index) as ix.
  intros ix Hix related. revert ix Hix.
  induction related as [|rec related IH]; intros ix Hix; cbn [fold_left];
    [exact Hix|].
  apply IH, Map_set_wf, Hix.
Qed.

Lemma load_file_spec aliasList st file :
  let st' := load_file aliasList st file in
  validPlugins st' =
    validPlugins st ++
    match file_module file with
    | ValidPlugin p => [with_default_name (file_name file) p]
    | _ => []
    end /\
  client st' = client st /\ cron st' = cron st /\
  (Map_wf (plugins st) -> Map_wf (plugins st')).
Proof.
  unfold load_file. destruct (file_module file) as [e| |p]; cbn.
  - rewrite app_nil_r. repeat split. auto.
  - rewrite app_nil_r. repeat split. auto.
  - repeat split. intros Hwf.
    generalize (map fst
                  (plugin_cmdHandlers (with_default_name (file_name file) p)))
      as cmds.
    revert Hwf. generalize (plugins st) as ix.
    intros ix Hix cmds. revert ix Hix.
    induction cmds as [|cmd cmds IH]; intros ix Hix; cbn [fold_left];
      [exact Hix|].
    apply IH, register_cmd_wf, Hix.
Qed.

Lemma load_files_spec aliasList files st :
  let st' := fold_left (load_file aliasList) files st in
  validPlugins st' =
    validPlugins st ++
    flat_map (fun file =>
                match file_module file with
                | ValidPlugin p => [with_default_name (file_name file) p]
                | _ => []
                end) files /\
  client st' = client st /\ cron st' = cron st /\
  (Map_wf (plugins st) -> Map_wf (plugins st')).
Proof.
  revert st. induction files as [|file files IH]; intros st;
    cbn [fold_left flat_map].
  - rewrite app_nil_r. repeat split. auto.
  - destruct (load_file_spec aliasList st file) as (Hv & Hc & Hr & Hw).
    destruct (IH (load_file aliasList st file)) as (Hv' & Hc' & Hr' & Hw').
    cbn zeta in *. rewrite Hv', Hc', Hr', Hv, Hc, Hr, <- app_assoc.
    repeat split. auto.
Qed.

(** [openAliasDB] touches the alias flags and the console only. *)
Lemma openAliasDB_frame c st :
  let st' := snd (openAliasDB c st) in
  validPlugins st' = validPlugins st /\ plugins st' = plugins st /\
  client st' = client st /\ cron st' = cron st /\
  prefixes st' = prefixes st /\ heap st' = heap st /\
  invoked st' = invoked st /\ edits st' = edits st.
Proof.
  unfold openAliasDB. destruct (aliasResolutionAvailable st); cbn [negb];
    [|repeat split].
  destruct c as [e|rows|e data]; cbn [new_AliasDB snd].
  - cbn [aliasResolutionWarned set_aliasResolutionAvailable].
    destruct (aliasResolutionWarned st); repeat split.
  - repeat split.
  - destruct (fallbackWarned st); repeat split.
Qed.

Lemma setPlugins_spec cfg basePath listing c st :
  let r := setPlugins cfg basePath listing c st in
  match listing with
  | Ok l =>
      fst r = Ok tt /\
      validPlugins (snd r) = validPlugins st ++ loaded_plugins cfg basePath l
  | Throw x => fst r = Throw x /\ validPlugins (snd r) = validPlugins st
  end /\
  client (snd r) = client st /\ cron (snd r) = cron st /\
  (Map_wf (plugins st) -> Map_wf (plugins (snd r))).
Proof.
  unfold setPlugins, loaded_plugins.
  destruct listing as [l|x]; [|cbn; repeat split; auto].
  destruct (eligible_files cfg basePath l) as [|f files] eqn:E.
  - cbn [fst snd flat_map]. rewrite app_nil_r.
    destruct (cfg_minimal cfg); repeat split; auto.
  - assert (Hgen : forall (al : list AliasRecord) (s : State),
              validPlugins s = validPlugins st -> client s = client st ->
              cron s = cron st -> plugins s = plugins st ->
              let s' := fold_left (load_file al) (f :: files) s in
              (validPlugins s' =
                 validPlugins st ++
                 flat_map (fun file =>
                             match file_module file with
                             | ValidPlugin p =>
                                 [with_default_name (file_name file) p]
                             | _ => []
                             end) (f :: files)) /\
              client s' = client st /\ cron s' = cron st /\
              (Map_wf (plugins st) -> Map_wf (plugins s'))).
    { intros al s Hv Hc Hr Hp.
      destruct (load_files_spec al (f :: files) s) as (Hv' & Hc' & Hr' & Hw').
      cbn zeta in *. rewrite Hv', Hc', Hr', Hv, Hc, Hr. repeat split.
      rewrite <- Hp. exact Hw'. }
    destruct (enableAliasResolution cfg).
    + destruct (openAliasDB_frame c st) as (Hv & Hp & Hc & Hr & _).
      cbn zeta in *.
      destruct (openAliasDB c st) as [[db|] st1]; cbn [snd fst] in *.
      * destruct (Hgen (AliasDB_list db) st1 Hv Hc Hr Hp)
          as (H1 & H2 & H3 & H4).
        repeat split; assumption.
      * destruct (Hgen [] st1 Hv Hc Hr Hp) as (H1 & H2 & H3 & H4).
        repeat split; assumption.
    + cbn [fst snd].
      destruct (Hgen [] st eq_refl eq_refl eq_refl eq_refl)
        as (H1 & H2 & H3 & H4).
      repeat split; assumption.
Qed.

Lemma event_handlers_spec (l : list (N * HandlerId)) st :
  let st' :=
    fold_left
      (fun s '(event, handler) =>
         let '(cb, s1) := new_identity s in
         addEventHandler (CbEvent cb handler) (FPluginEvent event) s1)
      l st in
  length (client st') = (length (client st) + length l)%nat /\
  validPlugins st' = validPlugins st /\ plugins st' = plugins st /\
  cron st' = cron st.
Proof.
  revert st. induction l as [|[event handler] l IH]; intros st;
    cbn [fold_left length].
  - repeat split. lia.
  - match goal with
    | |- context [fold_left ?f l ?s] =>
        destruct (IH s) as (Hlen & Hv & Hp & Hr)
    end.
    cbn zeta in *. rewrite Hlen, Hv, Hp, Hr. cbn.
    rewrite length_app. cbn. repeat split. lia.
Qed.

Lemma listen_plugin_spec cfg st plugin :
  let st' := listen_plugin cfg st plugin in
  length (client st') = (length (client st) + subscriptions_of cfg plugin)%nat /\
  validPlugins st' = validPlugins st /\ plugins st' = plugins st /\
  cron st' = cron st.
Proof.
  unfold listen_plugin, subscriptions_of.
  set (st1 := match plugin_listenMessageHandler plugin with
              | Some _ => _
              | None => st
              end).
  assert (H1 : length (client st1) =
               (length (client st) +
                match plugin_listenMessageHandler plugin with
                | Some _ =>
                    if negb (plugin_listenMessageHandlerIgnoreEdited plugin)
                       || match plugin_name plugin with
                          | Some n =>
                              truthy_str n &&
                              bool_decide (n ∈ cfg_listenerHandleEdited cfg)
                          | None => false
                          end
                    then 2 else 1
                | None => 0
                end)%nat /\
               validPlugins st1 = validPlugins st /\
               plugins st1 = plugins st /\ cron st1 = cron st).
  { subst st1. destruct (plugin_listenMessageHandler plugin) as [h|].
    - cbn. destruct (_ || _); cbn; rewrite ?length_app; cbn;
        repeat split; lia.
    - repeat split. lia. }
  destruct H1 as (Hlen & Hv & Hp & Hr). clearbody st1.
  destruct (event_handlers_spec (plugin_eventHandlers plugin) st1)
    as (Hlen' & Hv' & Hp' & Hr').
  cbn zeta in *. repeat split; [lia | congruence..].
Qed.

Lemma listen_plugins_spec cfg l st :
  let st' := fold_left (listen_plugin cfg) l st in
  length (client st') = (length (client st) + subscriptions_of_all cfg l)%nat /\
  validPlugins st' = validPlugins st /\ plugins st' = plugins st /\
  cron st' = cron st.
Proof.
  revert st. induction l as [|p l IH]; intros st;
    cbn [fold_left subscriptions_of_all fold_right].
  - repeat split. lia.
  - destruct (listen_plugin_spec cfg st p) as (Hl & Hv & Hp & Hr).
    destruct (IH (listen_plugin cfg st p)) as (Hl' & Hv' & Hp' & Hr').
    cbn zeta in *. fold (subscriptions_of_all cfg l).
    repeat split; [lia | congruence..].
Qed.

Lemma dealCronPlugin_frame st :
  let st' := dealCronPlugin st in
  client st' = client st /\ validPlugins st' = validPlugins st /\
  plugins st' = plugins st.
Proof.
  unfold dealCronPlugin.
  apply (fold_left_invariant
           (fun s => client s = client st /\ validPlugins s = validPlugins st /\
                     plugins s = plugins st)); [|repeat split].
  intros s p Hs. destruct (plugin_cronTasks p) as [tasks|]; [|exact Hs].
  apply (fold_left_invariant
           (fun s => client s = client st /\ validPlugins s = validPlugins st /\
                     plugins s = plugins st)); [|exact Hs].
  intros s' [key task] H. exact H.
Qed.

(** What a reload leaves, whatever the state it starts from. *)
Lemma loadPlugins_spec cfg env st :
  let st' := snd (loadPlugins cfg env st) in
  length (client st') = subscriptions_after cfg env /\
  Map_wf (plugins st') /\
  validPlugins st' =
    match env_user env, env_builtin env with
    | Ok lu, Ok lb =>
        loaded_plugins cfg USER_PLUGIN_PATH lu ++
        loaded_plugins cfg DEFAUTL_PLUGIN_PATH lb
    | Ok lu, Throw _ => loaded_plugins cfg USER_PLUGIN_PATH lu
    | Throw _, _ => []
    end.
Proof.
  unfold loadPlugins, bind, lift, subscriptions_after.
  set (s1 := cronManager_clear (clearPlugins st)).
  destruct (clearPlugins_spec st) as (Hv0 & Hp0 & Hc0 & _). cbn zeta in *.
  assert (Hs1 : validPlugins s1 = [] /\ plugins s1 = [] /\ client s1 = []).
  { subst s1. repeat split; assumption. }
  destruct Hs1 as (Hv1 & Hp1 & Hc1). clearbody s1.
  pose proof (setPlugins_spec cfg USER_PLUGIN_PATH (env_user env)
                (env_alias_user env) s1) as H2. cbn zeta in H2.
  destruct (setPlugins cfg USER_PLUGIN_PATH (env_user env)
              (env_alias_user env) s1) as [r2 s2].
  cbn [fst snd] in H2. destruct H2 as (H2r & H2c & _ & H2w).
  assert (Hw2 : Map_wf (plugins s2)).
  { apply H2w. rewrite Hp1. constructor. }
  destruct (env_user env) as [lu|x].
  2:{ destruct H2r as (-> & H2v). cbn [snd].
      repeat split; [rewrite H2c, Hc1; reflexivity | exact Hw2 | congruence]. }
  destruct H2r as (-> & H2v).
  pose proof (setPlugins_spec cfg DEFAUTL_PLUGIN_PATH (env_builtin env)
                (env_alias_builtin env) s2) as H3. cbn zeta in H3.
  destruct (setPlugins cfg DEFAUTL_PLUGIN_PATH (env_builtin env)
              (env_alias_builtin env) s2) as [r3 s3].
  cbn [fst snd] in H3. destruct H3 as (H3r & H3c & _ & H3w).
  specialize (H3w Hw2).
  destruct (env_builtin env) as [lb|x].
  2:{ destruct H3r as (-> & H3v). cbn [snd].
      repeat split; [rewrite H3c, H2c, Hc1; reflexivity | exact H3w |].
      rewrite H3v, H2v, Hv1. reflexivity. }
  destruct H3r as (-> & H3v). cbn [snd new_identity].
  set (s4 := addEventHandler CbDealEditedMsgEvent _ _).
  assert (Hs4 : length (client s4) = 2%nat /\ validPlugins s4 = validPlugins s3
                /\ plugins s4 = plugins s3).
  { subst s4. cbn. rewrite !length_app, H3c, H2c, Hc1. repeat split. }
  destruct Hs4 as (Hl4 & Hv4 & Hp4). clearbody s4.
  unfold dealListenMessagePlugin.
  destruct (listen_plugins_spec cfg (validPlugins s4) s4) as (Hl5 & Hv5 & Hp5 & _).
  destruct (dealCronPlugin_frame (fold_left (listen_plugin cfg) (validPlugins s4) s4))
    as (Hc6 & Hv6 & Hp6).
  cbn zeta in *. rewrite Hc6, Hv6, Hp6, Hl5, Hv5, Hp5, Hl4, Hv4, Hp4.
  rewrite H3v, H2v, Hv1. cbn [app]. repeat split. exact H3w.
Qed.

(** C4. Whatever the state, [loadPlugins] first empties the plugin set,
    the command index, the cron registrations and the client's handler
    list; and two reloads in succession over the same two directory
    listings leave an index without duplicate keys and the same number
    of transport subscriptions (and the same plugin set) after the
    second as after the first. *)
Theorem C4_reload_idempotent cfg env1 env2 st :
  env_user env1 = env_user env2 ->
  env_builtin env1 = env_builtin env2 ->
  let st0 := cronManager_clear (clearPlugins st) in
  let st1 := snd (loadPlugins cfg env1 st) in
  let st2 := snd (loadPlugins cfg env2 st1) in
  (validPlugins st0 = [] /\ plugins st0 = [] /\ cron st0 = [] /\
   client st0 = []) /\
  List.NoDup (map fst (plugins st1)) /\
  List.NoDup (map fst (plugins st2)) /\
  length (client st2) = length (client st1) /\
  length (client st1) = subscriptions_after cfg env1 /\
  validPlugins st2 = validPlugins st1.
Proof.
  intros Hu Hb st0 st1 st2.
  destruct (clearPlugins_spec st) as (Hv0 & Hp0 & Hc0 & _).
  destruct (loadPlugins_spec cfg env1 st) as (Hl1 & Hw1 & Hv1).
  destruct (loadPlugins_spec cfg env2 st1) as (Hl2 & Hw2 & Hv2).
  cbn zeta in *. fold st1 in Hl1, Hw1, Hv1. fold st2 in Hl2, Hw2, Hv2.
  assert (Hsame : subscriptions_after cfg env2 = subscriptions_after cfg env1).
  { unfold subscriptions_after. rewrite Hu, Hb. reflexivity. }
  repeat split; try assumption.
  - congruence.
  - rewrite Hv2, Hv1, Hu, Hb. reflexivity.
Qed.

(** ** Tokens *)

Lemma forallb_rev {A} (f : A -> bool) l : forallb f (rev l) = forallb f l.
Proof.
  induction l as [|x l IH]; [reflexivity|].
  cbn [rev forallb]. rewrite forallb_app, IH. cbn [forallb].
  rewrite andb_true_r. apply andb_comm.
Qed.

Lemma split_go_fields inSep acc s :
  forallb (fun ch => negb (isWhiteSpace ch)) acc = true ->
  Forall (fun w => forallb (fun ch => negb (isWhiteSpace ch)) w = true)
         (split_go inSep acc s).
Proof.
  revert inSep acc. induction s as [|ch s IH]; intros inSep acc Hacc;
    cbn [split_go].
  - constructor; [|constructor]. rewrite forallb_rev. exact Hacc.
  - destruct (isWhiteSpace ch) eqn:E.
    + destruct inSep; [apply IH, Hacc|].
      constructor; [rewrite forallb_rev; exact Hacc | apply IH; reflexivity].
    + apply IH. cbn [forallb]. rewrite E, Hacc. reflexivity.
Qed.

(** The tokens of a text are tokens. *)
Lemma words_tokens s : Forall is_token (words s).
Proof.
  unfold words, split_ws.
  pose proof (split_go_fields false [] s eq_refl) as H.
  induction H as [|w l Hw Hl IH]; cbn [List.filter]; [constructor|].
  destruct w as [|ch w]; cbn [truthy_str]; [exact IH|].
  constructor; [|exact IH]. split; [discriminate | exact Hw].
Qed.

Lemma split_go_token t inSep acc s :
  t <> [] ->
  forallb (fun ch => negb (isWhiteSpace ch)) t = true ->
  split_go inSep acc (t ++ s) = split_go false (rev t ++ acc) s.
Proof.
  revert inSep acc. induction t as [|ch t IH]; intros inSep acc Hne Hws;
    [contradiction|].
  cbn [forallb] in Hws. apply andb_true_iff in Hws as [Hch Ht].
  apply negb_true_iff in Hch. cbn [app split_go]. rewrite Hch.
  destruct t as [|d t].
  - reflexivity.
  - rewrite (IH false (ch :: acc)); [|discriminate | exact Ht].
    cbn [rev]. rewrite <- !app_assoc. reflexivity.
Qed.

Lemma split_go_after_space t s :
  is_token t -> split_go true [] (t ++ s) = split_go false [] (t ++ s).
Proof.
  intros [Hne Hws]. rewrite !(split_go_token t _ [] s Hne Hws). reflexivity.
Qed.

Lemma join_cons_cons sep x y l :
  join sep (x :: y :: l) = x ++ sep ++ join sep (y :: l).
Proof. reflexivity. Qed.

Lemma join_tokens_head t toks :
  Forall is_token (t :: toks) ->
  exists ch r, join space (t :: toks) = ch :: r /\ isWhiteSpace ch = false.
Proof.
  intros H. inversion H as [|? ? [Hne Hws] _]; subst.
  destruct t as [|ch t]; [contradiction|].
  cbn [forallb] in Hws. apply andb_true_iff in Hws as [Hch _].
  apply negb_true_iff in Hch.
  destruct toks as [|t2 toks]; [exists ch, t; split; [reflexivity | exact Hch]|].
  rewrite join_cons_cons. cbn [app]. eauto.
Qed.

(** Splitting the tokens joined by single spaces gives the tokens back. *)
Lemma words_join toks : Forall is_token toks -> words (join space toks) = toks.
Proof.
  induction toks as [|t toks IH]; intros H; [reflexivity|].
  inversion H as [|? ? Ht Htoks]; subst. destruct Ht as [Hne Hws].
  destruct toks as [|t2 toks].
  - cbn [join]. unfold words, split_ws.
    rewrite <- (app_nil_r t) at 1.
    rewrite (split_go_token t false [] [] Hne Hws). cbn [split_go].
    rewrite app_nil_r, rev_involutive. cbn [List.filter].
    destruct t; [contradiction | reflexivity].
  - rewrite join_cons_cons. unfold words, split_ws.
    rewrite (split_go_token t false [] _ Hne Hws), app_nil_r.
    unfold space. cbn [app split_go].
    change (isWhiteSpace 32) with true. cbv iota.
    rewrite rev_involutive. cbn [List.filter].
    assert (Ht2 : is_token t2) by (inversion Htoks; assumption).
    replace (split_go true [] (join [32] (t2 :: toks)))
      with (split_go false [] (join [32] (t2 :: toks))).
    + fold (split_ws (join [32] (t2 :: toks))).
      fold (words (join [32] (t2 :: toks))).
      change [32] with space. rewrite (IH Htoks).
      destruct t; [contradiction | reflexivity].
    + destruct toks as [|t3 toks].
      * cbn [join]. rewrite <- (app_nil_r t2).
        symmetry. apply split_go_after_space, Ht2.
      * change (join [32] (t2 :: t3 :: toks))
          with (t2 ++ [32] ++ join [32] (t3 :: toks)).
        symmetry. apply split_go_after_space, Ht2.
Qed.

Lemma only_plain_spaces_join toks :
  Forall is_token toks -> only_plain_spaces (join space toks) = true.
Proof.
  unfold only_plain_spaces.
  induction toks as [|t toks IH]; intros H; [reflexivity|].
  inversion H as [|? ? [Hne Hws] Htoks]; subst.
  assert (Ht : forallb (fun ch => implb (isWhiteSpace ch) (ch =? 32)) t = true).
  { apply forallb_forall. intros ch Hch.
    rewrite forallb_forall in Hws. specialize (Hws ch Hch).
    apply negb_true_iff in Hws. rewrite Hws. reflexivity. }
  destruct toks as [|t2 toks]; [exact Ht|].
  rewrite join_cons_cons, !forallb_app, Ht, (IH Htoks). reflexivity.
Qed.

Lemma no_ws_run_token_app t s :
  forallb (fun ch => negb (isWhiteSpace ch)) t = true ->
  no_ws_run s = true -> no_ws_run (t ++ s) = true.
Proof.
  intros Hws Hs. induction t as [|ch t IH]; [exact Hs|].
  cbn [forallb] in Hws. apply andb_true_iff in Hws as [Hch Ht].
  apply negb_true_iff in Hch. specialize (IH Ht).
  cbn [app no_ws_run]. destruct (t ++ s) as [|d r]; [reflexivity|].
  rewrite Hch. exact IH.
Qed.

Lemma no_ws_run_join toks :
  Forall is_token toks -> no_ws_run (join space toks) = true.
Proof.
  induction toks as [|t toks IH]; intros H; [reflexivity|].
  inversion H as [|? ? [Hne Hws] Htoks]; subst.
  destruct toks as [|t2 toks].
  - cbn [join]. rewrite <- (app_nil_r t).
    apply no_ws_run_token_app; [exact Hws | reflexivity].
  - rewrite join_cons_cons. apply no_ws_run_token_app; [exact Hws|].
    destruct (join_tokens_head t2 toks Htoks) as (ch & r & Hj & Hch).
    specialize (IH Htoks). rewrite Hj in *. unfold space.
    cbn [app].
    change (no_ws_run (32 :: ch :: r))
      with (negb (isWhiteSpace 32 && isWhiteSpace ch) && no_ws_run (ch :: r)).
    rewrite Hch, andb_false_r. exact IH.
Qed.

(** [aliasParts.every(...)] together with the length test says that the
    tokens of the text start with the tokens of the alias key. *)
Lemma every_at_take aliasParts parts idx :
  every_at idx aliasParts parts = true <->
  take (length aliasParts) (drop idx parts) = aliasParts.
Proof.
  revert idx. induction aliasParts as [|w ws IH]; intros idx;
    cbn [every_at length].
  - rewrite take_0. propositional.
  - rewrite andb_true_iff, bool_decide_eq_true, IH.
    destruct (parts !! idx) as [x|] eqn:E.
    + rewrite (drop_S _ _ _ E). cbn [take]. split.
      * intros [[= ->] ->]. reflexivity.
      * intros [= -> Hws]. split; [reflexivity | exact Hws].
    + rewrite (drop_ge parts idx) by (apply lookup_ge_None; exact E).
      cbn [take]. split; [intros [? _]; discriminate | discriminate].
Qed.

Lemma leading_tokens_check aliasParts parts :
  (length aliasParts <=? length parts)%nat && every_at 0 aliasParts parts
  = true <->
  exists extraParts, parts = aliasParts ++ extraParts.
Proof.
  rewrite andb_true_iff, every_at_take, drop_0. split.
  - intros [_ H]. exists (drop (length aliasParts) parts).
    rewrite <- H at 1. symmetry. apply take_drop.
  - intros (extra & ->). split.
    + apply Nat.leb_le. rewrite length_app. lia.
    + apply take_app_length.
Qed.

(** ** The rewriter and the dispatcher *)

Lemma carries_alias_wanted entry o f cmd :
  carries_alias entry o f ->
  rewrite_wanted entry = Some f /\ target_cmd entry cmd = o.
Proof.
  intros (Ho & Hne & Hf & Hfne & Hdiff). unfold rewrite_wanted, target_cmd.
  rewrite Ho, Hf. destruct o as [|c o]; [contradiction|].
  destruct f as [|d f]; [contradiction|]. cbn [truthy_str andb].
  rewrite bool_decide_eq_false_2 by exact Hdiff. split; reflexivity.
Qed.

Lemma rewrite_message_leading st cmd f base extraParts :
  message_parts st base = words cmd ++ extraParts ->
  rewrite_message (getPrefixes st) cmd f base =
  Some (copy_with_text base
          (matched_prefix st base ++ join space (words f ++ extraParts))).
Proof.
  intros Hparts. unfold rewrite_message.
  fold (matched_prefix st base). fold (message_parts st base).
  assert (Hcheck : (length (words cmd) <=? length (message_parts st base))%nat
                   && every_at 0 (words cmd) (message_parts st base) = true)
    by (apply leading_tokens_check; eauto).
  rewrite Hcheck, Hparts, drop_app_length. reflexivity.
Qed.

Lemma rewrite_message_not_leading st cmd f base :
  (forall extraParts, message_parts st base <> words cmd ++ extraParts) ->
  rewrite_message (getPrefixes st) cmd f base = None.
Proof.
  intros Hno. unfold rewrite_message.
  fold (matched_prefix st base). fold (message_parts st base).
  destruct ((length (words cmd) <=? length (message_parts st base))%nat
            && every_at 0 (words cmd) (message_parts st base)) eqn:E;
    [|reflexivity].
  apply leading_tokens_check in E as (extra & Hextra).
  exfalso. exact (Hno extra Hextra).
Qed.

Lemma next_address_unused st : heap st !! next_address st = None.
Proof.
  unfold next_address. apply not_elem_of_dom. apply is_fresh.
Qed.

(** The [try] block when the rewrite takes place. *)
Lemma dispatch_body_rewritten cmd isEdited msg base trigger st entry o f
    extraParts h :
  dispatched st cmd isEdited entry ->
  carries_alias entry o f ->
  message_parts st base = words cmd ++ extraParts ->
  Map_get o (plugin_cmdHandlers (entry_plugin entry)) = Some h ->
  let newMsg :=
    copy_with_text base
      (matched_prefix st base ++ join space (words f ++ extraParts)) in
  dispatch_body cmd isEdited msg base trigger st =
  call_handler h (next_address st) newMsg trigger
    (set_heap (<[next_address st := newMsg]> (heap st)) st).
Proof.
  intros [Hentry Hedit] Hal Hparts Hh newMsg. unfold dispatch_body.
  destruct (carries_alias_wanted entry o f cmd Hal) as [Hw Ht].
  rewrite Hentry, Hedit, Hw, Ht, (rewrite_message_leading _ _ _ _ _ Hparts).
  unfold alloc. fold (next_address st). cbv zeta. rewrite Hh. reflexivity.
Qed.

(** The [try] block when the re-check of the rewrite fails. *)
Lemma dispatch_body_not_rewritten cmd isEdited msg base trigger st entry o f
    h :
  dispatched st cmd isEdited entry ->
  carries_alias entry o f ->
  (forall extraParts, message_parts st base <> words cmd ++ extraParts) ->
  Map_get o (plugin_cmdHandlers (entry_plugin entry)) = Some h ->
  dispatch_body cmd isEdited msg base trigger st =
  call_handler h msg base trigger st.
Proof.
  intros [Hentry Hedit] Hal Hno Hh. unfold dispatch_body.
  destruct (carries_alias_wanted entry o f cmd Hal) as [Hw Ht].
  rewrite Hentry, Hedit, Hw, Ht, (rewrite_message_not_leading _ _ _ _ Hno), Hh.
  reflexivity.
Qed.

(** The dispatcher reads the registry and the prefix table and writes
    neither. *)
Lemma dealCommandPluginWithMessage_registry cmd isEdited msg trigger st :
  let st' := snd (dealCommandPluginWithMessage cmd isEdited msg trigger st) in
  plugins st' = plugins st /\ validPlugins st' = validPlugins st /\
  prefixes st' = prefixes st /\ client st' = client st /\ cron st' = cron st.
Proof.
  unfold dealCommandPluginWithMessage.
  destruct (heap st !! msg) as [base|]; [|repeat split].
  unfold try_catch.
  assert (Hbody : let s := snd (dispatch_body cmd isEdited msg base trigger st)
                  in plugins s = plugins st /\ validPlugins s = validPlugins st
                     /\ prefixes s = prefixes st /\ client s = client st
                     /\ cron s = cron st).
  { unfold dispatch_body.
    destruct (getPluginEntry cmd st) as [entry|]; [|repeat split].
    destruct (isEdited && _); [repeat split|].
    destruct (rewrite_wanted entry) as [aliasFinal|].
    - destruct (rewrite_message _ cmd aliasFinal base) as [newMsg|];
        unfold alloc; cbv zeta;
        (destruct (Map_get _ _) as [h|]; [|repeat split]);
        unfold call_handler; destruct (handler_run _ _ _); repeat split.
    - destruct (Map_get _ _) as [h|]; [|repeat split].
      unfold call_handler; destruct (handler_run _ _ _); repeat split. }
  destruct (dispatch_body cmd isEdited msg base trigger st) as [[[]|x] st1];
    cbn [snd] in *; [exact Hbody|].
  unfold msg_edit. destruct (edit_outcome _ _); exact Hbody.
Qed.

Lemma getCommandFromMessage_plugins cfg c text diy st :
  plugins (snd (getCommandFromMessage cfg c text diy st)) = plugins st.
Proof.
  unfold getCommandFromMessage.
  destruct (first_prefix text (prefix_table diy st)) as [m|]; [|reflexivity].
  destruct (negb (truthy_str m)); [reflexivity|].
  destruct (negb (truthy_str _)); [reflexivity|].
  unfold resolveParts. destruct (words _) as [|cmd ws]; [reflexivity|].
  assert (H : plugins (snd (aliasCandidateOf cfg c (cmd :: ws) st))
              = plugins st).
  { unfold aliasCandidateOf.
    destruct (enableAliasResolution cfg); [|reflexivity].
    destruct (openAliasDB_frame c st) as (_ & Hp & _). cbv zeta in Hp.
    destruct (openAliasDB c st) as [[db|] st1]; exact Hp. }
  destruct (aliasCandidateOf cfg c (cmd :: ws) st) as [[a|] st1];
    cbn [snd] in H.
  - destruct (truthy_str a); [exact H|]. destruct (isCommandName cmd); exact H.
  - destruct (isCommandName cmd); exact H.
Qed.

Lemma dealCommandPlugin_plugins cfg c event st :
  plugins (snd (dealCommandPlugin cfg c event st)) = plugins st.
Proof.
  unfold dealCommandPlugin.
  destruct (heap st !! ev_message event) as [m|]; [|reflexivity].
  destruct (_ || _); [|reflexivity].
  pose proof (getCommandFromMessage_plugins cfg c (msg_message m) None st) as H.
  destruct (getCommandFromMessage cfg c (msg_message m) None st)
    as [[cmd|] st1]; cbn [snd] in H; [|exact H].
  destruct (truthy_str cmd); [|exact H].
  destruct (dealCommandPluginWithMessage_registry cmd (ev_isEdited event)
              (ev_message event) None st1) as (Hp & _).
  cbv zeta in Hp. congruence.
Qed.

(** The command index of every state the process reaches is a [Map]:
    its keys are distinct. *)
Lemma reachable_index_wf cfg ops :
  Map_wf (plugins (run_ops cfg ops (initial_state cfg))).
Proof.
  unfold run_ops.
  apply (fold_left_invariant (fun s => Map_wf (plugins s))); [|constructor].
  intros s op Hwf. destruct op; cbn [run_op].
  - rewrite getCommandFromMessage_plugins. exact Hwf.
  - exact Hwf.
  - apply loadPlugins_spec.
  - rewrite dealCommandPlugin_plugins. exact Hwf.
  - destruct (dealCommandPluginWithMessage_registry cmd isEdited msg trigger s)
      as (Hp & _).
    cbv zeta in Hp. rewrite Hp. exact Hwf.
  - exact Hwf.
Qed.

Lemma try_catch_call msg h a obj trigger s :
  try_catch (call_handler h a obj trigger)
    (fun error st1 =>
       msg_edit msg (failure_notice error) (log (LogError error) st1)) s
  = after_call msg h a obj trigger s.
Proof.
  unfold try_catch, call_handler, after_call, invocation.
  destruct (handler_run h obj trigger); reflexivity.
Qed.

Lemma after_call_spec msg h a obj trigger s :
  let r := after_call msg h a obj trigger s in
  invoked (snd r) = invoked s ++ [invocation h a trigger] /\
  heap (snd r) = heap s /\
  match handler_run h obj trigger with
  | None => fst r = Ok tt /\ console (snd r) = console s /\
            edits (snd r) = edits s
  | Some e =>
      console (snd r) = console s ++ [LogError (ExnHandler h e)] /\
      edits (snd r) = edits s ++ [(msg, failure_notice (ExnHandler h e))] /\
      fst r = match edit_outcome msg (failure_notice (ExnHandler h e)) with
              | None => Ok tt
              | Some e' => Throw (ExnEdit e')
              end
  end.
Proof.
  unfold after_call. destruct (handler_run h obj trigger) as [e|].
  - unfold msg_edit. destruct (edit_outcome _ _); repeat split.
  - repeat split.
Qed.

(** The facts of [after_call_spec] for the call in the goal. *)
Ltac after_call_facts Hinv Hheap Hrun :=
  match goal with
  | |- context [after_call ?m ?h ?a ?obj ?t ?s] =>
      destruct (after_call_spec m h a obj t s) as (Hinv & Hheap & Hrun)
  end.

Lemma dealCommand_rewritten cmd isEdited msg base trigger st entry o f
    extraParts h :
  heap st !! msg = Some base ->
  dispatched st cmd isEdited entry ->
  carries_alias entry o f ->
  message_parts st base = words cmd ++ extraParts ->
  Map_get o (plugin_cmdHandlers (entry_plugin entry)) = Some h ->
  let newMsg :=
    copy_with_text base
      (matched_prefix st base ++ join space (words f ++ extraParts)) in
  dealCommandPluginWithMessage cmd isEdited msg trigger st =
  after_call msg h (next_address st) newMsg trigger
    (set_heap (<[next_address st := newMsg]> (heap st)) st).
Proof.
  intros Hmsg Hd Hal Hparts Hh newMsg. unfold dealCommandPluginWithMessage.
  rewrite Hmsg, <- try_catch_call. unfold try_catch.
  rewrite (dispatch_body_rewritten cmd isEdited msg base trigger st entry o f
             extraParts h Hd Hal Hparts Hh).
  reflexivity.
Qed.

Lemma dealCommand_not_rewritten cmd isEdited msg base trigger st entry o f h :
  heap st !! msg = Some base ->
  dispatched st cmd isEdited entry ->
  carries_alias entry o f ->
  (forall extraParts, message_parts st base <> words cmd ++ extraParts) ->
  Map_get o (plugin_cmdHandlers (entry_plugin entry)) = Some h ->
  dealCommandPluginWithMessage cmd isEdited msg trigger st =
  after_call msg h msg base trigger st.
Proof.
  intros Hmsg Hd Hal Hno Hh. unfold dealCommandPluginWithMessage.
  rewrite Hmsg, <- try_catch_call. unfold try_catch.
  rewrite (dispatch_body_not_rewritten cmd isEdited msg base trigger st entry
             o f h Hd Hal Hno Hh).
  reflexivity.
Qed.

(** C2. When the entry of the dispatched command carries [original] and
    an [aliasFinal] different from it, and the tokens of the message
    after prefix-stripping are the tokens of the alias key followed by
    [extraParts], the handler called is the one the owning plugin
    registers under [original]; it is called once, with a message
    object whose [message] and [text] are the matched prefix followed
    by the tokens of [aliasFinal] and then [extraParts], joined by
    single spaces. *)
Theorem C2_rewritten_text_and_handler cmd isEdited msg base trigger st entry
    o f extraParts h :
  heap st !! msg = Some base ->
  dispatched st cmd isEdited entry ->
  carries_alias entry o f ->
  message_parts st base = words cmd ++ extraParts ->
  Map_get o (plugin_cmdHandlers (entry_plugin entry)) = Some h ->
  let newText :=
    matched_prefix st base ++ join space (words f ++ extraParts) in
  let r := dealCommandPluginWithMessage cmd isEdited msg trigger st in
  invoked (snd r) = invoked st ++ [invocation h (next_address st) trigger] /\
  (exists newMsg,
      heap (snd r) !! next_address st = Some newMsg /\
      msg_message newMsg = newText /\ msg_text newMsg = Some newText /\
      (handler_run h newMsg trigger = None -> fst r = Ok tt)) /\
  (first_prefix (message_text base) (getPrefixes st) <> None ->
   exists rest, message_text base = matched_prefix st base ++ rest).
Proof.
  intros Hmsg Hd Hal Hparts Hh newText r. subst r newText.
  rewrite (dealCommand_rewritten cmd isEdited msg base trigger st entry o f
             extraParts h Hmsg Hd Hal Hparts Hh).
  after_call_facts Hinv Hheap Hrun.
  cbv zeta in Hinv, Hheap, Hrun. repeat split.
  - exact Hinv.
  - eexists. rewrite Hheap. cbn [heap set_heap].
    rewrite lookup_insert_eq. repeat split.
    intros Hok. rewrite Hok in Hrun. apply Hrun.
  - intros Hsome. unfold matched_prefix.
    destruct (first_prefix (message_text base) (getPrefixes st)) as [m|] eqn:E;
      [|contradiction].
    destruct (first_prefix_Some _ _ _ E) as (_ & _ & _ & Hs & _).
    cbn [default]. apply startsWith_spec, Hs.
Qed.

(** C7. When a message is rewritten, the handler is called with a new
    object, at an address the heap did not use: its [message] and
    [text] are the rewritten text, its prototype and all its other
    properties are those of the original; the original object is still
    at its address, unchanged, and so is every other object. *)
Theorem C7_copy_on_write cmd isEdited msg base trigger st entry o f
    extraParts h :
  heap st !! msg = Some base ->
  dispatched st cmd isEdited entry ->
  carries_alias entry o f ->
  message_parts st base = words cmd ++ extraParts ->
  Map_get o (plugin_cmdHandlers (entry_plugin entry)) = Some h ->
  let newText :=
    matched_prefix st base ++ join space (words f ++ extraParts) in
  let st' := snd (dealCommandPluginWithMessage cmd isEdited msg trigger st) in
  let a := next_address st in
  invoked st' = invoked st ++ [invocation h a trigger] /\
  heap st !! a = None /\ a <> msg /\
  (exists newMsg,
      heap st' !! a = Some newMsg /\
      msg_message newMsg = newText /\ msg_text newMsg = Some newText /\
      msg_proto newMsg = msg_proto base /\
      msg_fields newMsg = msg_fields base) /\
  heap st' !! msg = Some base /\
  (forall l, l <> a -> heap st' !! l = heap st !! l).
Proof.
  intros Hmsg Hd Hal Hparts Hh newText st' a. subst st' newText.
  rewrite (dealCommand_rewritten cmd isEdited msg base trigger st entry o f
             extraParts h Hmsg Hd Hal Hparts Hh).
  after_call_facts Hinv Hheap Hrun. clear Hrun.
  cbv zeta in Hinv, Hheap. rewrite Hheap. cbn [heap set_heap].
  pose proof (next_address_unused st) as Hfree. fold a in Hfree |- *.
  assert (Hne : a <> msg) by (intros ->; congruence).
  repeat split.
  - exact Hinv.
  - exact Hfree.
  - exact Hne.
  - eexists. rewrite lookup_insert_eq. repeat split.
  - rewrite lookup_insert_ne by exact Hne. exact Hmsg.
  - intros l Hl. rewrite lookup_insert_ne by congruence. reflexivity.
Qed.

(** C8. When the entry carries [original] and a different [aliasFinal]
    but the tokens of the message do not start with the tokens of the
    alias key, the dispatch does not fail: the handler registered under
    [original] is called with the original message object, at its own
    address, no object is created, and when the handler resolves the
    dispatch returns with nothing logged and no edit sent. *)
Theorem C8_rewrite_inconsistency cmd isEdited msg base trigger st entry o f
    h :
  heap st !! msg = Some base ->
  dispatched st cmd isEdited entry ->
  carries_alias entry o f ->
  (forall extraParts, message_parts st base <> words cmd ++ extraParts) ->
  Map_get o (plugin_cmdHandlers (entry_plugin entry)) = Some h ->
  let r := dealCommandPluginWithMessage cmd isEdited msg trigger st in
  r = after_call msg h msg base trigger st /\
  invoked (snd r) = invoked st ++ [invocation h msg trigger] /\
  heap (snd r) = heap st /\
  (handler_run h base trigger = None ->
   fst r = Ok tt /\ console (snd r) = console st /\ edits (snd r) = edits st).
Proof.
  intros Hmsg Hd Hal Hno Hh r. subst r.
  rewrite (dealCommand_not_rewritten cmd isEdited msg base trigger st entry o
             f h Hmsg Hd Hal Hno Hh).
  destruct (after_call_spec msg h msg base trigger st) as (Hinv & Hheap & Hrun).
  cbv zeta in *. split; [reflexivity|]. split; [exact Hinv|].
  split; [exact Hheap|].
  intros Hok. rewrite Hok in Hrun. exact Hrun.
Qed.

Lemma dealCommand_calls cmd isEdited msg base trigger st entry h :
  heap st !! msg = Some base ->
  dispatched st cmd isEdited entry ->
  handler_of entry cmd = Some h ->
  dealCommandPluginWithMessage cmd isEdited msg trigger st =
  after_call msg h (dispatch_target cmd msg base entry st).1.1
             (dispatch_target cmd msg base entry st).1.2 trigger
             (dispatch_target cmd msg base entry st).2.
Proof.
  intros Hmsg [Hentry Hedit] Hh. unfold dealCommandPluginWithMessage.
  rewrite Hmsg, <- try_catch_call. unfold try_catch, dispatch_body.
  rewrite Hentry, Hedit. unfold dispatch_target, handler_of in *.
  destruct (rewrite_wanted entry) as [aliasFinal|].
  - destruct (rewrite_message _ cmd aliasFinal base) as [newMsg|];
      unfold alloc; fold (next_address st); cbv zeta; rewrite Hh; reflexivity.
  - rewrite Hh. reflexivity.
Qed.

Lemma dispatch_target_frame cmd msg base entry st :
  let s := (dispatch_target cmd msg base entry st).2 in
  console s = console st /\ edits s = edits st /\ invoked s = invoked st.
Proof.
  unfold dispatch_target. destruct (rewrite_wanted entry) as [aliasFinal|];
    [|repeat split].
  destruct (rewrite_message _ cmd aliasFinal base); repeat split.
Qed.



(** C10. The text a rewritten message carries is the matched prefix
    followed by the tokens of [aliasFinal] and the tokens typed after
    the alias key, joined by single spaces: splitting what follows the
    prefix gives these tokens back, it contains no two adjacent
    white-space characters and no white space other than U+0020. The
    trailing argument tokens are kept; the white space between them is
    not. *)
Theorem C10_whitespace_normalised cmd isEdited msg base trigger st entry o f
    extraParts h :
  heap st !! msg = Some base ->
  dispatched st cmd isEdited entry ->
  carries_alias entry o f ->
  message_parts st base = words cmd ++ extraParts ->
  Map_get o (plugin_cmdHandlers (entry_plugin entry)) = Some h ->
  let newRest := join space (words f ++ extraParts) in
  let st' := snd (dealCommandPluginWithMessage cmd isEdited msg trigger st) in
  (exists newMsg,
      invoked st' = invoked st ++ [invocation h (next_address st) trigger] /\
      heap st' !! next_address st = Some newMsg /\
      msg_message newMsg = matched_prefix st base ++ newRest) /\
  words newRest = words f ++ extraParts /\
  Forall is_token extraParts /\
  no_ws_run newRest = true /\
  only_plain_spaces newRest = true.
Proof.
  intros Hmsg Hd Hal Hparts Hh newRest st'.
  assert (Hcall : exists newMsg,
            invoked st' = invoked st ++ [invocation h (next_address st) trigger]
            /\ heap st' !! next_address st = Some newMsg
            /\ msg_message newMsg = matched_prefix st base ++ newRest).
  { subst st' newRest.
    rewrite (dealCommand_rewritten cmd isEdited msg base trigger st entry o f
               extraParts h Hmsg Hd Hal Hparts Hh).
    after_call_facts Hinv Hheap Hrun. clear Hrun.
    cbv zeta in Hinv, Hheap. eexists. rewrite Hheap. cbn [heap set_heap].
    rewrite lookup_insert_eq. repeat split. exact Hinv. }
  assert (Hextra : Forall is_token extraParts).
  { pose proof (words_tokens (trim (slice_from
                  (length (matched_prefix st base)) (message_text base)))) as H.
    fold (message_parts st base) in H. rewrite Hparts in H.
    apply Forall_app in H. apply H. }
  assert (Htoks : Forall is_token (words f ++ extraParts)).
  { apply Forall_app. split; [apply words_tokens | exact Hextra]. }
  split; [exact Hcall|].
  split; [apply words_join, Htoks|].
  split; [exact Hextra|].
  split; [apply no_ws_run_join, Htoks | apply only_plain_spaces_join, Htoks].
Qed.

(** * Further properties *)

(** ** The alias store *)

Lemma rows_get_set_eq o f rows :
  rec_final <$> find (fun r => bool_decide (rec_original r = o))
                     (rows_set o f rows) = Some f.
Proof.
  induction rows as [|x rows IH]; cbn [rows_set find].
  - rewrite bool_decide_eq_true_2 by reflexivity. reflexivity.
  - destruct (bool_decide (rec_original x = o)) eqn:E; cbn [find rec_original].
    + rewrite E. reflexivity.
    + rewrite E. exact IH.
Qed.

Lemma rows_get_set_ne o o' f rows :
  o' <> o ->
  find (fun r => bool_decide (rec_original r = o')) (rows_set o f rows)
  = find (fun r => bool_decide (rec_original r = o')) rows.
Proof.
  intros Hne. induction rows as [|x rows IH]; cbn [rows_set find].
  - assert (Ho : o <> o') by congruence.
    rewrite (bool_decide_eq_false_2 _ Ho). reflexivity.
  - destruct (bool_decide (rec_original x = o)) eqn:E; cbn [find rec_original].
    + apply bool_decide_eq_true in E.
      assert (Hx : rec_original x <> o') by congruence.
      rewrite !(bool_decide_eq_false_2 _ Hx). reflexivity.
    + destruct (bool_decide (rec_original x = o')); [reflexivity | exact IH].
Qed.

Lemma rows_set_originals o f rows :
  map rec_original (rows_set o f rows) =
  if existsb (fun r => bool_decide (rec_original r = o)) rows
  then map rec_original rows
  else map rec_original rows ++ [o].
Proof.
  induction rows as [|x rows IH]; cbn [rows_set existsb map app];
    [reflexivity|].
  destruct (bool_decide (rec_original x = o)) eqn:E; cbn [orb map rec_original].
  - reflexivity.
  - rewrite IH. destruct (existsb _ rows); reflexivity.
Qed.

Lemma existsb_original_In o rows :
  existsb (fun r => bool_decide (rec_original r = o)) rows = true <->
  In o (map rec_original rows).
Proof.
  rewrite existsb_exists, in_map_iff. split.
  - intros (r & Hr & E). apply bool_decide_eq_true in E. eauto.
  - intros (r & E & Hr). exists r. split; [exact Hr|].
    apply bool_decide_eq_true. exact E.
Qed.

Lemma find_original_None o rows :
  find (fun r => bool_decide (rec_original r = o)) rows = None <->
  ~ In o (map rec_original rows).
Proof.
  induction rows as [|x rows IH]; cbn [find map In]; [propositional|].
  destruct (bool_decide (rec_original x = o)) eqn:E.
  - apply bool_decide_eq_true in E. split; [discriminate | propositional].
  - apply bool_decide_eq_false in E. rewrite IH. propositional.
Qed.

(** X1. [get] after [set], on the JSON fallback: whatever rows the
    store held (even a fallback file with repeated keys), [set(o, f)]
    followed by [get(o)] gives [f], [get] of every other key is
    unchanged, and the fallback file is rewritten with exactly the rows
    the store then holds. *)
Theorem alias_set_then_get o f db :
  db_sqlite db = false ->
  let db' := fst (AliasDB_set o f db) in
  AliasDB_get db' o = Some f /\
  (forall o', o' <> o -> AliasDB_get db' o' = AliasDB_get db o') /\
  db_sqlite db' = false /\
  snd (AliasDB_set o f db) = Some (db_rows db').
Proof.
  intros Hfallback. cbn. rewrite Hfallback. repeat split.
  - unfold AliasDB_get. cbn [db_rows]. apply rows_get_set_eq.
  - intros o' Hne. unfold AliasDB_get. cbn [db_rows].
    rewrite (rows_get_set_ne o o' f _ Hne). reflexivity.
Qed.

Lemma filter_length_same {A} (p : A -> bool) l :
  length (List.filter p l) = length l -> List.filter p l = l.
Proof.
  induction l as [|x l IH]; cbn [List.filter length]; [reflexivity|].
  destruct (p x); cbn [length].
  - intros [= H]. rewrite (IH H). reflexivity.
  - intros H. pose proof (List.filter_length_le p l). lia.
Qed.

Lemma rows_get_del_ne o o' rows :
  o' <> o ->
  find (fun r => bool_decide (rec_original r = o'))
       (List.filter (fun x => negb (bool_decide (rec_original x = o))) rows)
  = find (fun r => bool_decide (rec_original r = o')) rows.
Proof.
  intros Hne. induction rows as [|x rows IH]; cbn [List.filter find];
    [reflexivity|].
  destruct (bool_decide (rec_original x = o)) eqn:E; cbn [negb find].
  - apply bool_decide_eq_true in E.
    assert (Hx : rec_original x <> o') by congruence.
    rewrite (bool_decide_eq_false_2 _ Hx). exact IH.
  - destruct (bool_decide (rec_original x = o')); [reflexivity | exact IH].
Qed.

(** X2. [del], on the JSON fallback: afterwards [get] of the deleted key
    is [null] and [get] of every other key is unchanged; the call
    answers [true] exactly when the key was in the store, and then the
    fallback file is rewritten with the rows that are left; when it
    answers [false] the store is left as it was and the file is not
    written. *)
Theorem alias_del_effect o db :
  db_sqlite db = false ->
  let changed := (AliasDB_del o db).1.1 in
  let db' := (AliasDB_del o db).1.2 in
  AliasDB_get db' o = None /\
  (forall o', o' <> o -> AliasDB_get db' o' = AliasDB_get db o') /\
  (changed = true <-> is_original_key db o = true) /\
  (changed = true -> (AliasDB_del o db).2 = Some (db_rows db')) /\
  (changed = false -> db' = db /\ (AliasDB_del o db).2 = None).
Proof.
  intros Hfallback. cbn. rewrite Hfallback.
  unfold AliasDB_get, is_original_key. cbn [db_rows].
  set (keep := fun x => negb (bool_decide (rec_original x = o))).
  assert (Hgone : ~ In o (map rec_original (List.filter keep (db_rows db)))).
  { rewrite in_map_iff. intros (r & E & Hr). apply filter_In in Hr as [_ Hk].
    unfold keep in Hk. rewrite bool_decide_eq_true_2 in Hk by exact E.
    discriminate. }
  assert (Hlen : length (List.filter keep (db_rows db)) = length (db_rows db)
                 <-> ~ In o (map rec_original (db_rows db))).
  { split.
    - intros H. rewrite <- (filter_length_same keep _ H). exact Hgone.
    - intros Hno. f_equal. apply forallb_filter_id. apply forallb_forall.
      intros r Hr. unfold keep. apply negb_true_iff, bool_decide_eq_false.
      intros E. apply Hno, in_map_iff. eauto. }
  repeat split.
  - apply find_original_None in Hgone. rewrite Hgone. reflexivity.
  - intros o' Hne. f_equal. apply rows_get_del_ne, Hne.
  - rewrite negb_true_iff, Nat.eqb_neq. intros H.
    destruct (existsb _ (db_rows db)) eqn:Ex; [reflexivity|].
    exfalso. apply H, Hlen. rewrite <- existsb_original_In, Ex. discriminate.
  - rewrite negb_true_iff, Nat.eqb_neq, existsb_original_In, Hlen.
    intros Hin Hno. exact (Hno Hin).
  - intros ->. reflexivity.
  - destruct db as [sq rows]. cbn [db_rows db_sqlite] in *. subst sq.
    f_equal. apply filter_length_same.
    apply negb_false_iff, Nat.eqb_eq in H. exact H.
  - rewrite H. reflexivity.
Qed.

Lemma NoDup_app_cons_iff_helper {A} (l : list A) x :
  List.NoDup l -> ~ In x l -> List.NoDup (l ++ [x]).
Proof.
  intros Hnd Hx. induction l as [|y l IH]; cbn [app].
  - constructor; [intros [] | constructor].
  - inversion Hnd as [|? ? Hy Hl]; subst. constructor.
    + rewrite in_app_iff. cbn [In]. intros [H|[H|[]]]; [exact (Hy H)|].
      apply Hx. left. symmetry. exact H.
    + apply IH; [exact Hl|]. intros H. apply Hx. right. exact H.
Qed.

(** X3. The key stays a key, on the JSON fallback: [set] and [del] keep
    the [original]s of the rows distinct; [set] of a key that is in the
    store changes neither the number nor the order of the rows, and
    [set] of a new key adds exactly one row, at the end. *)
Theorem alias_set_del_keep_keys_distinct o f db :
  db_sqlite db = false ->
  (distinct_originals db -> distinct_originals (fst (AliasDB_set o f db))) /\
  (distinct_originals db -> distinct_originals (AliasDB_del o db).1.2) /\
  (is_original_key db o = true ->
   map rec_original (db_rows (fst (AliasDB_set o f db)))
   = map rec_original (db_rows db)) /\
  (is_original_key db o = false ->
   db_rows (fst (AliasDB_set o f db))
   = db_rows db ++ [ {| rec_original := o; rec_final := f |} ]).
Proof.
  intros _. unfold distinct_originals, is_original_key.
  cbn [AliasDB_set AliasDB_del fst snd db_rows].
  repeat split.
  - intros Hnd. rewrite rows_set_originals.
    destruct (existsb _ (db_rows db)) eqn:Ex; [exact Hnd|].
    apply NoDup_app_cons_iff_helper; [exact Hnd|].
    rewrite <- existsb_original_In, Ex. discriminate.
  - intros Hnd. induction (db_rows db) as [|x rows IH];
      cbn [List.filter map]; [constructor|].
    cbn [map] in Hnd. inversion Hnd as [|? ? Hx Hrest]; subst.
    destruct (bool_decide (rec_original x = o)); cbn [negb map];
      [apply IH, Hrest|].
    constructor; [|apply IH, Hrest].
    intros Hin. apply Hx. apply in_map_iff in Hin as (r & E & Hr).
    apply filter_In in Hr as [Hr _]. apply in_map_iff. eauto.
  - intros Ex. rewrite rows_set_originals, Ex. reflexivity.
  - intros Ex. induction (db_rows db) as [|x rows IH];
      cbn [rows_set existsb app] in *; [reflexivity|].
    destruct (bool_decide (rec_original x = o)); [discriminate|].
    cbn [orb] in Ex. rewrite (IH Ex). reflexivity.
Qed.

Lemma find_original_unique r rows :
  List.NoDup (map rec_original rows) -> In r rows ->
  find (fun x => bool_decide (rec_original x = rec_original r)) rows = Some r.
Proof.
  induction rows as [|x rows IH]; cbn [map find In]; [intros _ []|].
  intros Hnd Hin. inversion Hnd as [|? ? Hx Hrest]; subst.
  destruct Hin as [->|Hin].
  - rewrite bool_decide_eq_true_2; reflexivity.
  - destruct (bool_decide (rec_original x = rec_original r)) eqn:E.
    + apply bool_decide_eq_true_1 in E. exfalso. apply Hx. rewrite E.
      apply in_map. exact Hin.
    + apply IH; assumption.
Qed.

(** X4. On the JSON fallback [getOriginal] is the inverse image of
    [get]: every key whose value is [f] is among [getOriginal f], and,
    the keys of the store being distinct, every element of
    [getOriginal f] is a key whose value is [f]. *)
Theorem alias_getOriginal_inverts_get f db o :
  db_sqlite db = false ->
  (AliasDB_get db o = Some f -> In o (AliasDB_getOriginal f db)) /\
  (distinct_originals db -> In o (AliasDB_getOriginal f db) ->
   AliasDB_get db o = Some f).
Proof.
  intros _. unfold AliasDB_get, AliasDB_getOriginal, distinct_originals.
  split.
  - destruct (find _ (db_rows db)) as [r|] eqn:E; [|discriminate].
    cbn. intros [= <-]. apply find_some in E as [Hin Ho].
    apply bool_decide_eq_true_1 in Ho. apply in_map_iff. exists r.
    split; [exact Ho|]. apply filter_In. split; [exact Hin|].
    apply bool_decide_eq_true_2. reflexivity.
  - intros Hnd Hin. apply in_map_iff in Hin as (r & <- & Hr).
    apply filter_In in Hr as [Hr Hf]. apply bool_decide_eq_true_1 in Hf.
    rewrite (find_original_unique r _ Hnd Hr). cbn. congruence.
Qed.

(** X5. [list] returns the rows of the store, each as often as it is
    stored; with the JSON fallback, and [localeCompare] a total
    comparison, they are in ascending order of their [original]. *)
Theorem alias_list_sorted db :
  Permutation (db_rows db) (AliasDB_list db) /\
  (db_sqlite db = false ->
   (forall a b, (localeCompare a b <= 0)%Z \/ (localeCompare b a <= 0)%Z) ->
   Sorted (fun a b => locale_le (rec_original a) (rec_original b))
          (AliasDB_list db)).
Proof.
  unfold AliasDB_list. split.
  - destruct (db_sqlite db); [reflexivity|]. symmetry. apply Array_sort_perm.
  - intros -> Htotal.
    apply (Array_sort_sorted
             (fun a b => localeCompare (rec_original a) (rec_original b))).
    intros a b. apply Htotal.
Qed.

(** ** A stored alias, typed *)

Lemma join_tokens_last t toks :
  Forall is_token (t :: toks) ->
  exists s ch, join space (t :: toks) = s ++ [ch] /\ isWhiteSpace ch = false.
Proof.
  revert t. induction toks as [|t2 toks IH]; intros t H.
  - inversion H as [|? ? [Hne Hws] _]; subst. cbn [join].
    destruct (exists_last Hne) as (s & ch & ->). exists s, ch.
    split; [reflexivity|]. rewrite forallb_app in Hws.
    apply andb_true_iff in Hws as [_ Hch]. cbn [forallb] in Hch.
    rewrite andb_true_r in Hch. apply negb_true_iff, Hch.
  - inversion H as [|? ? _ Hrest]; subst.
    destruct (IH t2 Hrest) as (s & ch & E & Hch).
    rewrite join_cons_cons, E. exists (t ++ space ++ s), ch.
    split; [|exact Hch]. rewrite <- !app_assoc. reflexivity.
Qed.

(** Tokens joined by single spaces have no white space to trim. *)
Lemma trim_join toks :
  Forall is_token toks -> trim (join space toks) = join space toks.
Proof.
  destruct toks as [|t toks]; [reflexivity|]. intros H.
  destruct (join_tokens_head t toks H) as (c & r & E & Hc).
  destruct (join_tokens_last t toks H) as (s & d & E' & Hd).
  unfold trim, trimEnd. rewrite E. cbn [trimStart]. rewrite Hc, <- E, E'.
  rewrite rev_app_distr. cbn [rev app trimStart]. rewrite Hd.
  change (d :: rev s) with (rev [d] ++ rev s).
  rewrite <- rev_app_distr, rev_involutive. reflexivity.
Qed.


(** ** The warning of the JSON fallback *)

Lemma fallback_neutral_refl st : fallback_neutral st st.
Proof. split; reflexivity. Qed.

Lemma fallback_neutral_trans st1 st2 st3 :
  fallback_neutral st1 st2 -> fallback_neutral st2 st3 ->
  fallback_neutral st1 st3.
Proof. intros [a1 b1] [a2 b2]. split; congruence. Qed.

Lemma fallback_neutral_log l st :
  is_fallback_warning l = false -> fallback_neutral st (log l st).
Proof.
  intros Hl. split; [reflexivity|].
  unfold fallback_warnings, log. cbn [console set_console].
  rewrite List.filter_app, length_app. cbn [List.filter]. rewrite Hl.
  cbn [length]. lia.
Qed.

Lemma fallback_neutral_fold {A} (f : State -> A -> State) l st :
  (forall s x, fallback_neutral s (f s x)) ->
  fallback_neutral st (fold_left f l st).
Proof.
  intros Hf. revert st. induction l as [|x l IH]; intros st; cbn [fold_left].
  - apply fallback_neutral_refl.
  - eapply fallback_neutral_trans; [apply Hf | apply IH].
Qed.

Lemma fallback_step_neutral st st' :
  fallback_neutral st st' -> fallback_step st st'.
Proof.
  intros [Hf Hn]. unfold fallback_step, fallback_inv.
  rewrite Hf, Hn. split; intros H; exact H.
Qed.

Lemma fallback_step_refl st : fallback_step st st.
Proof. apply fallback_step_neutral, fallback_neutral_refl. Qed.

Lemma fallback_step_trans st1 st2 st3 :
  fallback_step st1 st2 -> fallback_step st2 st3 -> fallback_step st1 st3.
Proof. intros [H12 F12] [H23 F23]. split; auto. Qed.

Lemma fallback_step_fold {A} (f : State -> A -> State) l st :
  (forall s x, fallback_step s (f s x)) ->
  fallback_step st (fold_left f l st).
Proof.
  intros Hf. revert st. induction l as [|x l IH]; intros st; cbn [fold_left].
  - apply fallback_step_refl.
  - eapply fallback_step_trans; [apply Hf | apply IH].
Qed.

(** The constructor prints the warning when, and only when, it falls back
    with the flag still down. *)
Lemma new_AliasDB_fallback_step c st :
  fallback_step st (snd (new_AliasDB c st)).
Proof.
  destruct c as [e|rows|e data]; cbn [new_AliasDB snd];
    try apply fallback_step_refl.
  destruct (fallbackWarned st) eqn:Hw; [apply fallback_step_refl|].
  unfold fallback_step, fallback_inv. rewrite Hw. split; [|discriminate].
  intros H0. unfold fallback_warnings, log in *.
  cbn [console set_console set_fallbackWarned fallbackWarned] in *.
  rewrite List.filter_app, length_app, H0. reflexivity.
Qed.

Lemma openAliasDB_fallback_step c st :
  fallback_step st (snd (openAliasDB c st)).
Proof.
  unfold openAliasDB.
  destruct (aliasResolutionAvailable st); cbn [negb];
    [|apply fallback_step_refl].
  pose proof (new_AliasDB_fallback_step c st) as H.
  destruct (new_AliasDB c st) as [[db|x] st1]; cbn [snd] in *; [exact H|].
  eapply fallback_step_trans; [exact H|]. apply fallback_step_neutral.
  destruct (aliasResolutionWarned _).
  - split; reflexivity.
  - eapply fallback_neutral_trans; [|apply fallback_neutral_log; reflexivity].
    split; reflexivity.
Qed.

Lemma getCommandFromMessage_fallback_step cfg c text diy st :
  fallback_step st (snd (getCommandFromMessage cfg c text diy st)).
Proof.
  unfold getCommandFromMessage.
  destruct (first_prefix text (prefix_table diy st)) as [m|];
    [|apply fallback_step_refl].
  destruct (negb (truthy_str m)); [apply fallback_step_refl|].
  destruct (negb (truthy_str _)); [apply fallback_step_refl|].
  unfold resolveParts. destruct (words _) as [|cmd ws];
    [apply fallback_step_refl|].
  assert (H : fallback_step st (snd (aliasCandidateOf cfg c (cmd :: ws) st))).
  { unfold aliasCandidateOf.
    destruct (enableAliasResolution cfg); [|apply fallback_step_refl].
    pose proof (openAliasDB_fallback_step c st) as H.
    destruct (openAliasDB c st) as [[db|] st1]; exact H. }
  destruct (aliasCandidateOf cfg c (cmd :: ws) st) as [[a|] st1];
    cbn [snd] in H.
  - destruct (truthy_str a); [exact H|]. destruct (isCommandName cmd); exact H.
  - destruct (isCommandName cmd); exact H.
Qed.

Lemma load_file_fallback_neutral aliasList st file :
  fallback_neutral st (load_file aliasList st file).
Proof.
  unfold load_file. destruct (file_module file) as [e| |p].
  - apply fallback_neutral_log. reflexivity.
  - apply fallback_neutral_refl.
  - split; reflexivity.
Qed.

Lemma setPlugins_fallback_step cfg basePath listing c st :
  fallback_step st (snd (setPlugins cfg basePath listing c st)).
Proof.
  unfold setPlugins. destruct listing as [listing|x];
    [|apply fallback_step_refl].
  destruct (eligible_files cfg basePath listing) as [|f files].
  - cbn [snd]. destruct (cfg_minimal cfg); [|apply fallback_step_refl].
    apply fallback_step_neutral, fallback_neutral_log. reflexivity.
  - assert (Hopen : forall (al : list AliasRecord) (s : State),
              fallback_step st s ->
              fallback_step st (fold_left (load_file al) (f :: files) s)).
    { intros al s Hs. eapply fallback_step_trans; [exact Hs|].
      apply fallback_step_neutral, fallback_neutral_fold. intros s' x.
      apply load_file_fallback_neutral. }
    destruct (enableAliasResolution cfg).
    + pose proof (openAliasDB_fallback_step c st) as H.
      destruct (openAliasDB c st) as [[db|] st1]; cbn [snd] in *;
        apply Hopen; exact H.
    + cbn [snd]. apply Hopen, fallback_step_refl.
Qed.

Lemma clearPlugins_fallback_neutral st : fallback_neutral st (clearPlugins st).
Proof.
  unfold clearPlugins.
  eapply fallback_neutral_trans; [|apply fallback_neutral_fold].
  - split; reflexivity.
  - intros s h. split; reflexivity.
Qed.

Lemma listen_plugin_fallback_neutral cfg st plugin :
  fallback_neutral st (listen_plugin cfg st plugin).
Proof.
  unfold listen_plugin.
  eapply fallback_neutral_trans; [|apply fallback_neutral_fold].
  - destruct (plugin_listenMessageHandler plugin) as [h|];
      [|apply fallback_neutral_refl].
    cbn. destruct (_ || _); split; reflexivity.
  - intros s [event handler]. split; reflexivity.
Qed.

Lemma dealCronPlugin_fallback_neutral st :
  fallback_neutral st (dealCronPlugin st).
Proof.
  unfold dealCronPlugin. apply fallback_neutral_fold. intros s p.
  destruct (plugin_cronTasks p) as [tasks|]; [|apply fallback_neutral_refl].
  apply fallback_neutral_fold. intros s' [key task]. split; reflexivity.
Qed.

Lemma loadPlugins_fallback_step cfg env st :
  fallback_step st (snd (loadPlugins cfg env st)).
Proof.
  unfold loadPlugins, bind, lift.
  set (s1 := cronManager_clear (clearPlugins st)).
  assert (H1 : fallback_step st s1).
  { apply fallback_step_neutral.
    eapply fallback_neutral_trans; [apply clearPlugins_fallback_neutral|].
    split; reflexivity. }
  pose proof (setPlugins_fallback_step cfg USER_PLUGIN_PATH (env_user env)
                (env_alias_user env) s1) as H2.
  destruct (setPlugins cfg USER_PLUGIN_PATH _ _ s1) as [[[]|x] s2];
    cbn [snd] in *; [|eapply fallback_step_trans; eassumption].
  pose proof (setPlugins_fallback_step cfg DEFAUTL_PLUGIN_PATH (env_builtin env)
                (env_alias_builtin env) s2) as H3.
  destruct (setPlugins cfg DEFAUTL_PLUGIN_PATH _ _ s2) as [[[]|x] s3];
    cbn [snd] in *;
    [|eapply fallback_step_trans; [eapply fallback_step_trans|]; eassumption].
  eapply fallback_step_trans;
    [eapply fallback_step_trans; [eapply fallback_step_trans|]|];
    [exact H1 | exact H2 | exact H3 |].
  apply fallback_step_neutral.
  eapply fallback_neutral_trans; [|apply dealCronPlugin_fallback_neutral].
  eapply fallback_neutral_trans;
    [|unfold dealListenMessagePlugin; apply fallback_neutral_fold;
      intros s p; apply listen_plugin_fallback_neutral].
  split; reflexivity.
Qed.

Lemma msg_edit_fallback_neutral msg text st :
  fallback_neutral st (snd (msg_edit msg text st)).
Proof.
  unfold msg_edit. destruct (edit_outcome msg text); split; reflexivity.
Qed.

Lemma dealCommandPluginWithMessage_fallback_neutral cmd isEdited msg trigger st :
  fallback_neutral st
    (snd (dealCommandPluginWithMessage cmd isEdited msg trigger st)).
Proof.
  unfold dealCommandPluginWithMessage.
  destruct (heap st !! msg) as [base|]; [|apply fallback_neutral_refl].
  assert (Hcall : forall h a obj s,
            fallback_neutral s (snd (call_handler h a obj trigger s))).
  { intros h a obj s. unfold call_handler.
    destruct (handler_run h obj trigger); split; reflexivity. }
  assert (Hbody : fallback_neutral st
            (snd (dispatch_body cmd isEdited msg base trigger st))).
  { unfold dispatch_body.
    destruct (getPluginEntry cmd st) as [entry|]; [|apply fallback_neutral_refl].
    destruct (isEdited && _); [apply fallback_neutral_refl|].
    assert (Hgo : forall a obj s,
              fallback_neutral st s ->
              fallback_neutral st
                (snd match Map_get (target_cmd entry cmd)
                             (plugin_cmdHandlers (entry_plugin entry)) with
                     | Some handler => call_handler handler a obj trigger s
                     | None => (Ok tt, s)
                     end)).
    { intros a obj s Hs. destruct (Map_get _ _) as [h|]; [|exact Hs].
      eapply fallback_neutral_trans; [exact Hs | apply Hcall]. }
    destruct (rewrite_wanted entry) as [aliasFinal|];
      [|apply Hgo, fallback_neutral_refl].
    destruct (rewrite_message _ cmd aliasFinal base) as [newMsg|];
      [|apply Hgo, fallback_neutral_refl].
    unfold alloc. apply Hgo. split; reflexivity. }
  unfold try_catch.
  destruct (dispatch_body cmd isEdited msg base trigger st) as [[[]|x] st1];
    cbn [snd] in Hbody; [exact Hbody|].
  eapply fallback_neutral_trans; [exact Hbody|].
  eapply fallback_neutral_trans; [|apply msg_edit_fallback_neutral].
  apply fallback_neutral_log. reflexivity.
Qed.

Lemma run_op_fallback_step cfg st op : fallback_step st (run_op cfg st op).
Proof.
  destruct op; cbn [run_op].
  - apply getCommandFromMessage_fallback_step.
  - apply fallback_step_neutral. split; reflexivity.
  - apply loadPlugins_fallback_step.
  - unfold dealCommandPlugin.
    destruct (heap st !! ev_message event) as [m|]; [|apply fallback_step_refl].
    destruct (_ || _); [|apply fallback_step_refl].
    pose proof (getCommandFromMessage_fallback_step cfg c (msg_message m)
                                                    None st) as H.
    destruct (getCommandFromMessage cfg c (msg_message m) None st)
      as [[cmd|] st1]; cbn [snd] in H; [|exact H].
    destruct (truthy_str cmd); [|exact H].
    eapply fallback_step_trans; [exact H|].
    apply fallback_step_neutral,
      dealCommandPluginWithMessage_fallback_neutral.
  - apply fallback_step_neutral,
      dealCommandPluginWithMessage_fallback_neutral.
  - apply fallback_step_neutral. split; reflexivity.
Qed.

(** X7. The warning of the JSON fallback is printed at most once in the
    life of the process: whatever calls are made, and however often the
    store is opened on the fallback, the console holds one [AliasDB]
    warning if the static flag [fallbackWarned] is up and none if it is
    down; and once the flag is up it stays up, so that no further call
    prints the warning again. *)
Theorem fallback_warned_at_most_once cfg ops more :
  let st := run_ops cfg ops (initial_state cfg) in
  (fallback_warnings st <= 1)%nat /\
  fallback_warnings st = (if fallbackWarned st then 1%nat else 0%nat) /\
  (fallbackWarned st = true ->
   fallback_warnings (run_ops cfg more st) = 1%nat).
Proof.
  intros st.
  assert (Hrun : forall l s, fallback_step s (run_ops cfg l s)).
  { intros l s. unfold run_ops. apply fallback_step_fold.
    apply run_op_fallback_step. }
  assert (Hinv : fallback_inv st).
  { apply (Hrun ops (initial_state cfg)). reflexivity. }
  split; [|split].
  - unfold fallback_inv in Hinv. rewrite Hinv.
    destruct (fallbackWarned st); lia.
  - exact Hinv.
  - intros Hw. destruct (Hrun more st) as [Hi Hf].
    specialize (Hi Hinv). unfold fallback_inv in Hi.
    rewrite (Hf Hw) in Hi. exact Hi.
Qed.

(** ** The prefix table at start-up *)

Lemma split_go_no_token inSep acc s :
  List.filter truthy_str (split_go inSep acc s) = [] <->
  acc = [] /\ forallb isWhiteSpace s = true.
Proof.
  revert inSep acc. induction s as [|c s IH]; intros inSep acc;
    cbn [split_go forallb].
  - cbn [List.filter]. destruct acc as [|a acc]; cbn [rev].
    + cbn. propositional.
    + destruct (rev acc ++ [a]) as [|x l] eqn:E;
        [destruct (rev acc); discriminate|].
      cbn [truthy_str]. split; [discriminate | intros [? _]; discriminate].
  - destruct (isWhiteSpace c); cbn [andb].
    + destruct inSep; [apply IH|]. cbn [List.filter].
      destruct acc as [|a acc]; cbn [rev].
      * cbn [truthy_str]. rewrite IH. propositional.
      * destruct (rev acc ++ [a]) as [|x l] eqn:E;
          [destruct (rev acc); discriminate|].
        cbn [truthy_str]. split; [discriminate | intros [? _]; discriminate].
    + rewrite IH. split; [intros [? _]; discriminate | intros [_ ?]; discriminate].
Qed.

(** X8. The prefix table the module starts with is never empty and holds
    only tokens (strings that are not empty and have no white space),
    whatever [TB_PREFIX] is set to; it is the list of the tokens of
    [TB_PREFIX] unless the variable is unset, empty or all white space,
    in which case it is the built-in table of the mode. *)
Theorem startup_prefixes_are_tokens cfg TB_PREFIX :
  cfg_envPrefixes cfg = envPrefixes TB_PREFIX ->
  let P := getPrefixes (initial_state cfg) in
  P <> [] /\ Forall is_token P /\
  (forall s, TB_PREFIX = Some s -> forallb isWhiteSpace s = false ->
             P = words s) /\
  (TB_PREFIX = None \/
   (exists s, TB_PREFIX = Some s /\ forallb isWhiteSpace s = true) ->
   P = if cfg_development cfg then [[33]; [65281]] else [[46]; [12290]; [36]]).
Proof.
  intros Henv. unfold getPrefixes. cbn [initial_state prefixes].
  unfold initial_prefixes. rewrite Henv.
  assert (Hbuiltin : Forall is_token
            (if cfg_development cfg then [[33]; [65281]]
             else [[46]; [12290]; [36]])).
  { destruct (cfg_development cfg); repeat constructor; discriminate. }
  assert (Hwords : forall s, words s = [] <-> forallb isWhiteSpace s = true).
  { intros s. unfold words, split_ws. rewrite split_go_no_token.
    propositional. }
  repeat split.
  - destruct (envPrefixes TB_PREFIX); [|discriminate].
    destruct (cfg_development cfg); discriminate.
  - destruct (envPrefixes TB_PREFIX) as [|p ps] eqn:E; [exact Hbuiltin|].
    destruct TB_PREFIX as [s|]; [|discriminate]. cbn [envPrefixes] in E.
    rewrite <- E. apply words_tokens.
  - intros s -> Hs. cbn [envPrefixes].
    destruct (words s) as [|p ps] eqn:E; [|reflexivity].
    apply Hwords in E. congruence.
  - intros [->|(s & -> & Hs)]; cbn [envPrefixes]; [reflexivity|].
    apply Hwords in Hs. rewrite Hs. reflexivity.
Qed.

(** ** The shape of a parsed command *)

Lemma Forall_take_tokens (i : nat) (parts : list jsstring) :
  Forall is_token parts -> Forall is_token (take i parts).
Proof.
  intros H. revert i. induction H as [|t parts Ht _ IH]; intros [|i];
    cbn [take]; constructor; [exact Ht | apply IH].
Qed.

Lemma resolveParts_candidate cfg c parts st r :
  fst (resolveParts cfg c parts st) = Some r ->
  exists i, (1 <= i <= length parts)%nat /\ r = candidate parts i /\
            (i = 1%nat \/ enableAliasResolution cfg = true).
Proof.
  unfold resolveParts. destruct parts as [|cmd ws]; [discriminate|].
  assert (Hfirst : candidate (cmd :: ws) 1 = cmd) by reflexivity.
  assert (Hcmd : forall s : State,
            fst (if isCommandName cmd then (Some cmd, s) else (None, s))
            = Some r ->
            exists i, (1 <= i <= length (cmd :: ws))%nat /\
                      r = candidate (cmd :: ws) i /\
                      (i = 1%nat \/ enableAliasResolution cfg = true)).
  { intros s. destruct (isCommandName cmd); [|discriminate].
    intros [= <-]. exists 1%nat. cbn [length].
    split; [lia|]. split; [reflexivity|]. left. reflexivity. }
  unfold aliasCandidateOf.
  destruct (enableAliasResolution cfg); [|apply Hcmd].
  destruct (openAliasDB c st) as [[db|] st1]; [|apply Hcmd].
  destruct (aliasLoop db (cmd :: ws) (length (cmd :: ws))) as [a|] eqn:E;
    [|apply Hcmd].
  destruct (truthy_str a); [|apply Hcmd].
  intros [= <-]. apply aliasLoop_Some in E as (i & Hi & -> & _).
  exists i. split; [exact Hi|]. split; [reflexivity|]. right. reflexivity.
Qed.

(** The shape of a parse that yields a command. *)
Lemma parsed_command_shape cfg c text diy st r :
  fst (getCommandFromMessage cfg c text diy st) = Some r ->
  exists m rest i,
    first_prefix text (prefix_table diy st) = Some m /\ m <> [] /\
    text = m ++ rest /\
    (1 <= i <= length (words (trim rest)))%nat /\
    r = join space (take i (words (trim rest))) /\
    (enableAliasResolution cfg = false -> i = 1%nat) /\ r <> [].
Proof.
  unfold getCommandFromMessage.
  destruct (first_prefix text (prefix_table diy st)) as [m|] eqn:Hm;
    [|discriminate].
  destruct (first_prefix_Some _ _ _ Hm) as (_ & _ & _ & Hs & _).
  apply startsWith_spec in Hs as (rest & ->).
  destruct m as [|ch m]; [discriminate|]. cbn [truthy_str negb].
  unfold slice_from. rewrite drop_app_length.
  destruct (negb (truthy_str (trim rest))); [discriminate|].
  intros Hr. apply resolveParts_candidate in Hr as (i & Hi & -> & Hoff).
  unfold candidate.
  assert (Htok : Forall is_token (take i (words (trim rest)))).
  { apply Forall_take_tokens, words_tokens. }
  exists (ch :: m), rest, i.
  split; [reflexivity|]. split; [discriminate|]. split; [reflexivity|].
  split; [exact Hi|]. split; [reflexivity|]. split.
  { intros Hen. destruct Hoff as [H|H]; [exact H | congruence]. }
  destruct (take i (words (trim rest))) as [|t toks] eqn:E.
  - destruct (words (trim rest)); [cbn in Hi; lia|].
    destruct i; [lia | discriminate].
  - destruct (join_tokens_head t toks Htok) as (d & s & -> & _).
    discriminate.
Qed.

(** X9. Whatever [getCommandFromMessage] returns is in normal form: the
    text starts with a non-empty prefix of the table, and the command is
    a leading run of the tokens that follow it, joined by single spaces.
    So the command is never the empty string, has no white space at
    either end, no white space but single spaces [U+0020], and splits
    back into those tokens; with alias resolution off it is the first
    token. *)
Theorem parsed_command_normal_form cfg c text diy st r :
  fst (getCommandFromMessage cfg c text diy st) = Some r ->
  exists m rest i,
    first_prefix text (prefix_table diy st) = Some m /\ m <> [] /\
    text = m ++ rest /\
    (1 <= i <= length (words (trim rest)))%nat /\
    r = join space (take i (words (trim rest))) /\
    (enableAliasResolution cfg = false -> i = 1%nat) /\
    r <> [] /\ trim r = r /\ words r = take i (words (trim rest)) /\
    only_plain_spaces r = true /\ no_ws_run r = true.
Proof.
  intros Hr.
  destruct (parsed_command_shape cfg c text diy st r Hr)
    as (m & rest & i & Hm & Hne & Htext & Hi & -> & Hoff & Hr0).
  assert (Htok : Forall is_token (take i (words (trim rest)))).
  { apply Forall_take_tokens, words_tokens. }
  exists m, rest, i. repeat (split; [assumption|]).
  split; [reflexivity|]. split; [exact Hoff|]. split; [exact Hr0|].
  split; [apply trim_join, Htok|]. split; [apply words_join, Htok|].
  split; [apply only_plain_spaces_join, Htok | apply no_ws_run_join, Htok].
Qed.

(** ** The command index *)

Lemma Map_get_set {V} k k' (v : V) m :
  Map_get k (Map_set k' v m) = if decide (k' = k) then Some v else Map_get k m.
Proof.
  induction m as [|[k0 v0] m IH]; cbn [Map_set Map_get].
  - destruct (decide (k' = k)); reflexivity.
  - destruct (decide (k0 = k')) as [->|Hne]; cbn [Map_get].
    + destruct (decide (k' = k)); reflexivity.
    + destruct (decide (k0 = k)) as [->|Hne'].
      * destruct (decide (k' = k)); [congruence | reflexivity].
      * exact IH.
Qed.

Lemma Map_get_declared {V} k (m : list (jsstring * V)) :
  In k (map fst m) <-> exists v, Map_get k m = Some v.
Proof.
  induction m as [|[k0 v0] m IH]; cbn [map fst In Map_get].
  - split; [intros [] | intros [v Hv]; discriminate].
  - destruct (decide (k0 = k)) as [->|Hne].
    + split; [eauto | left; reflexivity].
    + rewrite <- IH. split; [intros [H|H]; [contradiction | exact H] | auto].
Qed.

Lemma fold_left_ind {A B} (P : B -> Prop) (f : B -> A -> B) l b :
  (forall b x, In x l -> P b -> P (f b x)) -> P b -> P (fold_left f l b).
Proof.
  revert b. induction l as [|x l IH]; intros b Hf Hb; cbn [fold_left];
    [exact Hb|].
  apply IH; [|apply Hf; [left; reflexivity | exact Hb]].
  intros b' y Hy. apply Hf. right. exact Hy.
Qed.

Lemma register_cmd_sound (Q : jsstring -> PluginEntry -> Prop) aliasList
    plugin index cmd :
  Q cmd (literal_entry plugin) ->
  (forall rec, related_alias cmd rec = true ->
               Q (rec_original rec) (alias_entry plugin cmd rec)) ->
  (forall k e, Map_get k index = Some e -> Q k e) ->
  forall k e, Map_get k (register_cmd aliasList plugin index cmd) = Some e ->
              Q k e.
Proof.
  intros Hlit Halias Hix. unfold register_cmd.
  assert (H1 : forall k e,
            Map_get k (Map_set cmd (literal_entry plugin) index) = Some e ->
            Q k e).
  { intros k e. rewrite Map_get_set.
    destruct (decide (cmd = k)) as [<-|_]; [intros [= <-]; exact Hlit|].
    apply Hix. }
  destruct aliasList as [|r rs]; [exact H1|].
  apply (fold_left_ind (fun ix => forall k e, Map_get k ix = Some e -> Q k e));
    [|exact H1].
  intros ix rec Hrec Hq k e. rewrite Map_get_set.
  destruct (decide (rec_original rec = k)) as [<-|_]; [|apply Hq].
  intros [= <-]. apply Halias. apply filter_In in Hrec as [_ Hrel].
  exact Hrel.
Qed.

Lemma load_file_index_sound aliasList st file :
  index_sound st -> index_sound (load_file aliasList st file).
Proof.
  intros Hs. unfold load_file. destruct (file_module file) as [e| |p];
    [exact Hs | exact Hs |].
  set (plugin := with_default_name (file_name file) p).
  unfold index_sound.
  cbn [plugins validPlugins set_plugins set_validPlugins].
  apply (fold_left_ind
           (fun ix => forall k e, Map_get k ix = Some e ->
                        entry_sound k e /\
                        In (entry_plugin e) (validPlugins st ++ [plugin]))).
  - intros ix cmd Hcmd Hix.
    apply (register_cmd_sound
             (fun k e => entry_sound k e /\
                         In (entry_plugin e) (validPlugins st ++ [plugin])));
      [| |exact Hix].
    + split; [exact Hcmd|]. apply in_or_app. right. left. reflexivity.
    + intros rec Hrel. split.
      * unfold entry_sound. cbn [alias_entry entry_original entry_aliasFinal
                                  entry_plugin].
        split; [exact Hcmd|]. unfold related_alias in Hrel.
        apply orb_true_iff in Hrel as [H|H]; [|right; exact H].
        left. apply bool_decide_eq_true_1 in H. exact H.
      * apply in_or_app. right. left. reflexivity.
  - intros k e Hk. destruct (Hs k e Hk) as [H1 H2]. split; [exact H1|].
    apply in_or_app. left. exact H2.
Qed.

Lemma index_sound_same st st' :
  plugins st' = plugins st -> validPlugins st' = validPlugins st ->
  index_sound st -> index_sound st'.
Proof. unfold index_sound. intros -> ->. auto. Qed.

Lemma setPlugins_index_sound cfg basePath listing c st :
  index_sound st -> index_sound (snd (setPlugins cfg basePath listing c st)).
Proof.
  intros Hs. unfold setPlugins. destruct listing as [l|x]; [|exact Hs].
  destruct (eligible_files cfg basePath l) as [|f files].
  - cbn [snd]. destruct (cfg_minimal cfg); exact Hs.
  - assert (Hgo : forall (al : list AliasRecord) (s : State),
              index_sound s ->
              index_sound (fold_left (load_file al) (f :: files) s)).
    { intros al s H. apply (fold_left_invariant index_sound); [|exact H].
      intros s' x. apply load_file_index_sound. }
    destruct (enableAliasResolution cfg); [|apply Hgo, Hs].
    destruct (openAliasDB_frame c st) as (Hv & Hp & _). cbn zeta in *.
    destruct (openAliasDB c st) as [[db|] st1]; cbn [snd] in *;
      apply Hgo; exact (index_sound_same _ _ Hp Hv Hs).
Qed.

Lemma loadPlugins_index_sound cfg env st :
  index_sound (snd (loadPlugins cfg env st)).
Proof.
  unfold loadPlugins, bind, lift.
  set (s1 := cronManager_clear (clearPlugins st)).
  assert (H1 : index_sound s1).
  { destruct (clearPlugins_spec st) as (Hv0 & Hp0 & _). cbn zeta in *.
    intros k e. subst s1. cbn [plugins cronManager_clear set_cron].
    rewrite Hp0. discriminate. }
  pose proof (setPlugins_index_sound cfg USER_PLUGIN_PATH (env_user env)
                (env_alias_user env) s1 H1) as H2.
  destruct (setPlugins cfg USER_PLUGIN_PATH _ _ s1) as [[[]|x] s2];
    cbn [snd] in *; [|exact H2].
  pose proof (setPlugins_index_sound cfg DEFAUTL_PLUGIN_PATH (env_builtin env)
                (env_alias_builtin env) s2 H2) as H3.
  destruct (setPlugins cfg DEFAUTL_PLUGIN_PATH _ _ s2) as [[[]|x] s3];
    cbn [snd] in *; [|exact H3].
  cbn [new_identity].
  set (s4 := addEventHandler CbDealEditedMsgEvent _ _).
  assert (H4 : index_sound s4) by exact H3. clearbody s4.
  unfold dealListenMessagePlugin.
  destruct (listen_plugins_spec cfg (validPlugins s4) s4) as (_ & Hv5 & Hp5 & _).
  destruct (dealCronPlugin_frame
              (fold_left (listen_plugin cfg) (validPlugins s4) s4))
    as (_ & Hv6 & Hp6).
  cbn zeta in *. eapply index_sound_same; [| |exact H4]; congruence.
Qed.

(** The parser touches the alias flags and the console only. *)
Lemma getCommandFromMessage_frame cfg c text diy st :
  let st' := snd (getCommandFromMessage cfg c text diy st) in
  validPlugins st' = validPlugins st /\ plugins st' = plugins st /\
  client st' = client st /\ cron st' = cron st /\
  prefixes st' = prefixes st /\ heap st' = heap st /\
  invoked st' = invoked st /\ edits st' = edits st.
Proof.
  assert (Hrefl : validPlugins st = validPlugins st /\
                  plugins st = plugins st /\ client st = client st /\
                  cron st = cron st /\ prefixes st = prefixes st /\
                  heap st = heap st /\ invoked st = invoked st /\
                  edits st = edits st) by (repeat split).
  unfold getCommandFromMessage.
  destruct (first_prefix text (prefix_table diy st)) as [m|]; [|exact Hrefl].
  destruct (negb (truthy_str m)); [exact Hrefl|].
  destruct (negb (truthy_str _)); [exact Hrefl|].
  unfold resolveParts. destruct (words _) as [|cmd ws]; [exact Hrefl|].
  assert (H : let s := snd (aliasCandidateOf cfg c (cmd :: ws) st) in
              validPlugins s = validPlugins st /\ plugins s = plugins st /\
              client s = client st /\ cron s = cron st /\
              prefixes s = prefixes st /\ heap s = heap st /\
              invoked s = invoked st /\ edits s = edits st).
  { unfold aliasCandidateOf.
    destruct (enableAliasResolution cfg); [|exact Hrefl].
    pose proof (openAliasDB_frame c st) as Hp. cbv zeta in Hp.
    destruct (openAliasDB c st) as [[db|] st1]; exact Hp. }
  cbv zeta in H.
  destruct (aliasCandidateOf cfg c (cmd :: ws) st) as [[a|] st1];
    cbn [snd] in H.
  - destruct (truthy_str a); [exact H|]. destruct (isCommandName cmd); exact H.
  - destruct (isCommandName cmd); exact H.
Qed.

Lemma run_op_registry cfg st op :
  (exists env, op = OpLoadPlugins env) \/
  (plugins (run_op cfg st op) = plugins st /\
   validPlugins (run_op cfg st op) = validPlugins st).
Proof.
  destruct op; cbn [run_op]; [right|right|left; eauto|right|right|right].
  - destruct (getCommandFromMessage_frame cfg c text diy st) as (Hv & Hp & _).
    split; assumption.
  - split; reflexivity.
  - unfold dealCommandPlugin.
    destruct (heap st !! ev_message event) as [m|]; [|split; reflexivity].
    destruct (_ || _); [|split; reflexivity].
    destruct (getCommandFromMessage_frame cfg c (msg_message m) None st)
      as (Hv & Hp & _). cbv zeta in Hv, Hp.
    destruct (getCommandFromMessage cfg c (msg_message m) None st)
      as [[cmd|] st1]; cbn [snd] in *; [|split; assumption].
    destruct (truthy_str cmd); [|split; assumption].
    destruct (dealCommandPluginWithMessage_registry cmd (ev_isEdited event)
                (ev_message event) None st1) as (Hp' & Hv' & _).
    cbv zeta in Hp', Hv'. split; congruence.
  - destruct (dealCommandPluginWithMessage_registry cmd isEdited msg trigger st)
      as (Hp & Hv & _).
    split; assumption.
  - split; reflexivity.
Qed.

Lemma reachable_index_sound cfg ops :
  index_sound (run_ops cfg ops (initial_state cfg)).
Proof.
  unfold run_ops. apply (fold_left_invariant index_sound).
  - intros s op Hs. destruct (run_op_registry cfg s op) as [[env ->]|[Hp Hv]].
    + apply loadPlugins_index_sound.
    + exact (index_sound_same _ _ Hp Hv Hs).
  - intros k e. discriminate.
Qed.

(** X10. In every state the process reaches, each entry of the command
    index was made by [setPlugins] for a plugin that is loaded: an entry
    without [original] stands under a command of its plugin, and an
    entry with [original] names a command of its plugin, its
    [aliasFinal] being that command alone or followed by a space and
    more. So the handler looked up for an indexed command is found,
    unless [original] is the empty string. *)
Theorem indexed_command_has_handler cfg ops k e :
  let st := run_ops cfg ops (initial_state cfg) in
  getPluginEntry k st = Some e ->
  In (entry_plugin e) (validPlugins st) /\
  entry_sound k e /\
  (entry_original e <> Some [] ->
   exists h, Map_get (target_cmd e k) (plugin_cmdHandlers (entry_plugin e))
             = Some h).
Proof.
  intros st Hk. destruct (reachable_index_sound cfg ops k e Hk) as [Hs Hin].
  split; [exact Hin|]. split; [exact Hs|]. intros Hne.
  apply Map_get_declared. unfold entry_sound, target_cmd in *.
  destruct (entry_original e) as [o|]; destruct (entry_aliasFinal e) as [f|];
    try contradiction.
  - destruct Hs as [Hd _]. destruct o as [|ch o]; [congruence|]. exact Hd.
  - exact Hs.
Qed.

(** *** Keys that no alias claims *)

Lemma register_cmd_unaliased aliasList plugin index cmd k :
  ~ In k (map rec_original aliasList) ->
  Map_get k (register_cmd aliasList plugin index cmd)
  = if bool_decide (cmd = k) then Some (literal_entry plugin)
    else Map_get k index.
Proof.
  intros Hk. unfold register_cmd.
  assert (H1 : Map_get k (Map_set cmd (literal_entry plugin) index)
               = if bool_decide (cmd = k) then Some (literal_entry plugin)
                 else Map_get k index).
  { rewrite Map_get_set. destruct (decide (cmd = k)) as [E|E].
    - rewrite (bool_decide_eq_true_2 _ E). reflexivity.
    - rewrite (bool_decide_eq_false_2 _ E). reflexivity. }
  destruct aliasList as [|r rs]; [exact H1|].
  apply (fold_left_ind
           (fun ix => Map_get k ix
                      = if bool_decide (cmd = k)
                        then Some (literal_entry plugin)
                        else Map_get k index)); [|exact H1].
  intros ix rec Hrec Hix. rewrite Map_get_set.
  destruct (decide (rec_original rec = k)) as [E|_]; [|exact Hix].
  exfalso. apply Hk. rewrite <- E. apply in_map.
  apply filter_In in Hrec as [Hrec _]. exact Hrec.
Qed.

Lemma register_cmds_unaliased aliasList plugin cmds index k :
  ~ In k (map rec_original aliasList) ->
  Map_get k (fold_left (register_cmd aliasList plugin) cmds index)
  = if existsb (fun c => bool_decide (c = k)) cmds
    then Some (literal_entry plugin) else Map_get k index.
Proof.
  intros Hk. revert index.
  induction cmds as [|c cmds IH]; intros index; cbn [fold_left existsb];
    [reflexivity|].
  rewrite IH, (register_cmd_unaliased _ _ _ _ _ Hk).
  destruct (existsb _ cmds), (bool_decide (c = k)); reflexivity.
Qed.

Lemma load_files_unaliased aliasList files st k :
  ~ In k (map rec_original aliasList) ->
  Map_get k (plugins (fold_left (load_file aliasList) files st))
  = match last_declaring k
            (flat_map (fun file =>
                         match file_module file with
                         | ValidPlugin p =>
                             [with_default_name (file_name file) p]
                         | _ => []
                         end) files) with
    | Some p => Some (literal_entry p)
    | None => Map_get k (plugins st)
    end.
Proof.
  intros Hk. revert st.
  induction files as [|file files IH]; intros st;
    cbn [fold_left flat_map]; [reflexivity|].
  rewrite IH. unfold load_file.
  destruct (file_module file) as [e| |p]; cbn [app]; [reflexivity..|].
  cbn [last_declaring plugins set_plugins set_validPlugins].
  destruct (last_declaring k _) as [q|]; [reflexivity|].
  rewrite (register_cmds_unaliased _ _ _ _ _ Hk). unfold declaresb.
  destruct (existsb _ _); reflexivity.
Qed.

Lemma last_declaring_app k l1 l2 :
  last_declaring k (l1 ++ l2)
  = match last_declaring k l2 with
    | Some q => Some q
    | None => last_declaring k l1
    end.
Proof.
  induction l1 as [|p l1 IH]; cbn [app last_declaring].
  - destruct (last_declaring k l2); reflexivity.
  - rewrite IH. destruct (last_declaring k l2); reflexivity.
Qed.

Lemma setPlugins_unaliased cfg basePath l c st k :
  ~ In k (map rec_original (ctor_rows c)) ->
  Map_get k (plugins (snd (setPlugins cfg basePath (Ok l) c st)))
  = match last_declaring k (loaded_plugins cfg basePath l) with
    | Some p => Some (literal_entry p)
    | None => Map_get k (plugins st)
    end.
Proof.
  intros Hk. unfold setPlugins, loaded_plugins.
  destruct (eligible_files cfg basePath l) as [|f files].
  - cbn [snd flat_map last_declaring]. destruct (cfg_minimal cfg); reflexivity.
  - destruct (enableAliasResolution cfg).
    + destruct (openAliasDB_frame c st) as (_ & Hp & _). cbn zeta in Hp.
      destruct (openAliasDB c st) as [[db|] st1] eqn:Hopen; cbn [snd] in *.
      * rewrite load_files_unaliased, Hp; [reflexivity|].
        assert (Hrows : db_rows db = ctor_rows c).
        { unfold openAliasDB in Hopen.
          destruct (negb (aliasResolutionAvailable st)); [discriminate|].
          destruct c as [e|rows|e data]; cbn [new_AliasDB] in Hopen.
          - discriminate.
          - injection Hopen as <- _. reflexivity.
          - injection Hopen as <- _. reflexivity. }
        intros Hin. apply Hk. rewrite <- Hrows.
        apply in_map_iff in Hin as (r & Hr & Hin). apply in_map_iff.
        exists r. split; [exact Hr|]. unfold AliasDB_list in Hin.
        destruct (db_sqlite db); [exact Hin|].
        eapply Permutation_in; [apply Array_sort_perm | exact Hin].
      * rewrite load_files_unaliased, Hp; [reflexivity | intros []].
    + cbn [snd]. rewrite load_files_unaliased; [reflexivity | intros []].
Qed.

Lemma declaresb_spec p k : declaresb p k = true <-> declares p k.
Proof.
  unfold declaresb, declares. rewrite existsb_exists. split.
  - intros (c & Hc & E). apply bool_decide_eq_true_1 in E. subst c. exact Hc.
  - intros H. exists k. split; [exact H|]. apply bool_decide_eq_true_2.
    reflexivity.
Qed.

Lemma last_declaring_None k ps :
  last_declaring k ps = None <-> forall p, In p ps -> ~ declares p k.
Proof.
  induction ps as [|p ps IH]; cbn [last_declaring In].
  - split; [intros _ p [] | reflexivity].
  - destruct (last_declaring k ps) as [q|].
    + split; [discriminate|]. intros H. apply IH. intros p' Hp'.
      apply H. right. exact Hp'.
    + destruct (declaresb p k) eqn:E.
      * split; [discriminate|]. intros H. exfalso.
        apply (H p (or_introl eq_refl)). apply declaresb_spec, E.
      * split; [|reflexivity]. intros _ p' [<-|Hp'].
        -- rewrite <- declaresb_spec, E. discriminate.
        -- apply IH; [reflexivity | exact Hp'].
Qed.

Lemma last_declaring_Some k ps q :
  last_declaring k ps = Some q -> In q ps /\ declares q k.
Proof.
  induction ps as [|p ps IH]; cbn [last_declaring In]; [discriminate|].
  destruct (last_declaring k ps) as [q'|].
  - intros [= <-]. destruct (IH eq_refl) as [H1 H2]. split; [right|]; assumption.
  - destruct (declaresb p k) eqn:E; [|discriminate]. intros [= <-].
    split; [left; reflexivity | apply declaresb_spec, E].
Qed.

(** X11. Who owns a command after a reload: for a key that is no
    [original] of the alias store, the index entry is the plain entry of
    the last plugin, in loading order, that declares the key: user
    plugins first, built-in plugins after them. So such a key is indexed
    whenever a loaded plugin declares it, a built-in plugin takes the
    command from a user plugin that declares it too, and a key that no
    loaded plugin declares is not indexed. *)
Theorem last_loaded_plugin_owns_command cfg env st lu lb k :
  env_user env = Ok lu -> env_builtin env = Ok lb ->
  ~ In k (map rec_original (ctor_rows (env_alias_user env))) ->
  ~ In k (map rec_original (ctor_rows (env_alias_builtin env))) ->
  let st' := snd (loadPlugins cfg env st) in
  let U := loaded_plugins cfg USER_PLUGIN_PATH lu in
  let B := loaded_plugins cfg DEFAUTL_PLUGIN_PATH lb in
  validPlugins st' = U ++ B /\
  getPluginEntry k st' = literal_entry <$> last_declaring k (U ++ B) /\
  (forall q, last_declaring k B = Some q ->
             In q B /\ declares q k /\
             getPluginEntry k st' = Some (literal_entry q)) /\
  (getPluginEntry k st' = None <->
   forall p, In p (U ++ B) -> ~ declares p k).
Proof.
  intros Hu Hb Hku Hkb st' U B.
  assert (Hv : validPlugins st' = U ++ B).
  { destruct (loadPlugins_spec cfg env st) as (_ & _ & H). cbn zeta in H.
    rewrite Hu, Hb in H. exact H. }
  assert (Hget : getPluginEntry k st'
                 = literal_entry <$> last_declaring k (U ++ B)).
  { subst st'. unfold getPluginEntry, loadPlugins, bind, lift.
    rewrite Hu, Hb.
    set (s1 := cronManager_clear (clearPlugins st)).
    assert (Hp1 : plugins s1 = []).
    { destruct (clearPlugins_spec st) as (_ & Hp0 & _). exact Hp0. }
    pose proof (setPlugins_spec cfg USER_PLUGIN_PATH (Ok lu)
                  (env_alias_user env) s1) as [[Hok2 _] _].
    pose proof (setPlugins_unaliased cfg USER_PLUGIN_PATH lu
                  (env_alias_user env) s1 k Hku) as Hg2.
    destruct (setPlugins cfg USER_PLUGIN_PATH (Ok lu) _ s1) as [r2 s2].
    cbn [fst snd] in *. subst r2.
    pose proof (setPlugins_spec cfg DEFAUTL_PLUGIN_PATH (Ok lb)
                  (env_alias_builtin env) s2) as [[Hok3 _] _].
    pose proof (setPlugins_unaliased cfg DEFAUTL_PLUGIN_PATH lb
                  (env_alias_builtin env) s2 k Hkb) as Hg3.
    destruct (setPlugins cfg DEFAUTL_PLUGIN_PATH (Ok lb) _ s2) as [r3 s3].
    cbn [fst snd] in *. subst r3. cbn [snd new_identity].
    set (s4 := addEventHandler CbDealEditedMsgEvent _ _).
    assert (Hp4 : plugins s4 = plugins s3) by reflexivity. clearbody s4.
    unfold dealListenMessagePlugin.
    destruct (listen_plugins_spec cfg (validPlugins s4) s4) as (_ & _ & Hp5 & _).
    destruct (dealCronPlugin_frame
                (fold_left (listen_plugin cfg) (validPlugins s4) s4))
      as (_ & _ & Hp6).
    cbn zeta in *. rewrite Hp6, Hp5, Hp4, Hg3, Hg2, Hp1, last_declaring_app.
    fold U B. destruct (last_declaring k B); [reflexivity|].
    destruct (last_declaring k U); reflexivity. }
  split; [exact Hv|]. split; [exact Hget|]. split.
  - intros q Hq. destruct (last_declaring_Some _ _ _ Hq) as [H1 H2].
    split; [exact H1|]. split; [exact H2|].
    rewrite Hget, last_declaring_app, Hq. reflexivity.
  - rewrite Hget, <- last_declaring_None.
    destruct (last_declaring k (U ++ B)); cbn; split; congruence.
Qed.

(** ** Files that do not load *)

Lemma load_file_registry aliasList s s' file :
  plugins s = plugins s' -> validPlugins s = validPlugins s' ->
  plugins (load_file aliasList s file) = plugins (load_file aliasList s' file)
  /\ validPlugins (load_file aliasList s file)
     = validPlugins (load_file aliasList s' file).
Proof.
  intros Hp Hv. unfold load_file. destruct (file_module file) as [e| |p];
    cbn [plugins validPlugins log set_console set_plugins set_validPlugins];
    rewrite ?Hp, ?Hv; split; reflexivity.
Qed.

Lemma load_files_valid_only aliasList files s s' :
  plugins s = plugins s' -> validPlugins s = validPlugins s' ->
  let valid := fun f => match file_module f with
                        | ValidPlugin _ => true
                        | _ => false
                        end in
  plugins (fold_left (load_file aliasList) files s)
  = plugins (fold_left (load_file aliasList) (List.filter valid files) s') /\
  validPlugins (fold_left (load_file aliasList) files s)
  = validPlugins (fold_left (load_file aliasList) (List.filter valid files) s').
Proof.
  intros Hp Hv valid. revert s s' Hp Hv.
  induction files as [|f files IH]; intros s s' Hp Hv;
    cbn [fold_left List.filter]; [split; assumption|].
  destruct (valid f) eqn:E; cbn [fold_left].
  - destruct (load_file_registry aliasList s s' f Hp Hv) as [Hp' Hv'].
    apply IH; assumption.
  - apply IH; unfold load_file; subst valid; cbv beta in E;
      destruct (file_module f); try discriminate; assumption.
Qed.

Lemma eligible_files_loads cfg basePath l :
  eligible_files cfg basePath (List.filter loads l)
  = List.filter (fun f => match file_module f with
                          | ValidPlugin _ => true
                          | _ => false
                          end)
                (eligible_files cfg basePath l).
Proof.
  assert (Hcomm : forall (p q : PluginFile -> bool) (l : list PluginFile),
            List.filter p (List.filter q l) = List.filter q (List.filter p l)).
  { intros p q l0. induction l0 as [|x l0 IH]; cbn [List.filter]; [reflexivity|].
    destruct (q x) eqn:Eq, (p x) eqn:Ep; cbn [List.filter];
      rewrite ?Eq, ?Ep, ?IH; reflexivity. }
  assert (Hts : List.filter (fun f => endsWith (file_name f) (js ".ts"))
                            (List.filter loads l)
                = List.filter (fun f => match file_module f with
                                        | ValidPlugin _ => true
                                        | _ => false
                                        end)
                    (List.filter (fun f => endsWith (file_name f) (js ".ts"))
                                 l)).
  { induction l as [|x l IH]; cbn [List.filter]; [reflexivity|].
    unfold loads at 1.
    destruct (endsWith (file_name x) (js ".ts")) eqn:Ets; cbn [andb List.filter].
    - destruct (file_module x); cbn [List.filter]; rewrite ?Ets, IH; reflexivity.
    - exact IH. }
  unfold eligible_files. rewrite Hts.
  destruct (cfg_minimal cfg); [|reflexivity].
  destruct basePath; [reflexivity|]. apply Hcomm.
Qed.

Lemma setPlugins_alias_list_frame cfg c st :
  let a :=
    if enableAliasResolution cfg then
      match openAliasDB c st with
      | (Some aliasDB, st1) => (AliasDB_list aliasDB, st1)
      | (None, st1) => ([], st1)
      end
    else ([], st) in
  plugins (snd a) = plugins st /\ validPlugins (snd a) = validPlugins st.
Proof.
  destruct (enableAliasResolution cfg); [|split; reflexivity].
  destruct (openAliasDB_frame c st) as (Hv & Hp & _). cbn zeta in *.
  destruct (openAliasDB c st) as [[db|] st1]; cbn [snd] in *; split; assumption.
Qed.

(** X12. A file that does not load costs nothing but itself: whatever
    else the directory holds (files without the [.ts] ending, modules
    that [require] fails on, modules whose default export is no valid
    plugin), [setPlugins] returns normally, and the plugin list and the
    command index it leaves are those it would leave if the directory
    held the loadable files only. *)
Theorem broken_files_load_nothing cfg basePath l c st :
  let r := setPlugins cfg basePath (Ok l) c st in
  let r' := setPlugins cfg basePath (Ok (List.filter loads l)) c st in
  fst r = Ok tt /\
  plugins (snd r) = plugins (snd r') /\
  validPlugins (snd r) = validPlugins (snd r') /\
  client (snd r) = client st /\ cron (snd r) = cron st.
Proof.
  intros r r'.
  destruct (setPlugins_spec cfg basePath (Ok l) c st) as ([Hok _] & Hc & Hr & _).
  fold r in Hok, Hc, Hr.
  split; [exact Hok|].
  assert (Hreg : plugins (snd r) = plugins (snd r') /\
                 validPlugins (snd r) = validPlugins (snd r')).
  { subst r r'. unfold setPlugins. rewrite eligible_files_loads.
    destruct (eligible_files cfg basePath l) as [|f files];
      [cbn [List.filter]; split; reflexivity|].
    destruct (setPlugins_alias_list_frame cfg c st) as [Hp Hv].
    cbn zeta in Hp, Hv.
    destruct (if enableAliasResolution cfg then _ else _) as [al st1].
    cbn [snd] in *.
    destruct (load_files_valid_only al (f :: files) st1 st1 eq_refl eq_refl)
      as [H1 H2].
    rewrite H1, H2.
    destruct (List.filter _ (f :: files)) as [|f' files'];
      [|split; reflexivity].
    cbn [fold_left snd]. rewrite Hp, Hv.
    destruct (cfg_minimal cfg); split; reflexivity. }
  destruct Hreg as [Hp Hv]. repeat split; assumption.
Qed.

(** ** What a reload returns *)

(** X13. [loadPlugins] returns normally exactly when both plugin
    directories can be listed. When the user directory cannot be listed
    the call throws that error and leaves no plugin, no indexed command,
    no cron task and no handler on the client, not even the command
    dispatcher's; when the built-in directory cannot be listed it throws
    that error with the user plugins loaded but, again, nothing
    subscribed and no cron task. *)
Theorem reload_result cfg env st :
  let r := loadPlugins cfg env st in
  (fst r = Ok tt <->
   exists lu lb, env_user env = Ok lu /\ env_builtin env = Ok lb) /\
  (forall x, env_user env = Throw x ->
     fst r = Throw x /\ validPlugins (snd r) = [] /\ plugins (snd r) = [] /\
     client (snd r) = [] /\ cron (snd r) = []) /\
  (forall lu x, env_user env = Ok lu -> env_builtin env = Throw x ->
     fst r = Throw x /\
     validPlugins (snd r) = loaded_plugins cfg USER_PLUGIN_PATH lu /\
     client (snd r) = [] /\ cron (snd r) = []).
Proof.
  unfold loadPlugins, bind, lift.
  set (s1 := cronManager_clear (clearPlugins st)).
  assert (Hs1 : validPlugins s1 = [] /\ plugins s1 = [] /\ client s1 = [] /\
                cron s1 = []).
  { destruct (clearPlugins_spec st) as (Hv0 & Hp0 & Hc0 & _). cbn zeta in *.
    subst s1. repeat split; assumption. }
  destruct Hs1 as (Hv1 & Hp1 & Hc1 & Hr1). clearbody s1.
  pose proof (setPlugins_spec cfg USER_PLUGIN_PATH (env_user env)
                (env_alias_user env) s1) as H2. cbn zeta in H2.
  destruct (env_user env) as [lu|x].
  2:{ cbn [setPlugins fst snd] in *. split; [|split].
      - split; [discriminate | intros (? & ? & ? & _); discriminate].
      - intros ? [= <-]. repeat split; assumption.
      - intros ? ? [=]. }
  destruct (setPlugins cfg USER_PLUGIN_PATH (Ok lu) (env_alias_user env) s1)
    as [r2 s2].
  cbn [fst snd] in H2. destruct H2 as ((-> & H2v) & H2c & H2r & _).
  pose proof (setPlugins_spec cfg DEFAUTL_PLUGIN_PATH (env_builtin env)
                (env_alias_builtin env) s2) as H3. cbn zeta in H3.
  destruct (env_builtin env) as [lb|x].
  2:{ cbn [setPlugins fst snd] in *. split; [|split].
      - split; [discriminate | intros (? & ? & _ & ?); discriminate].
      - intros ? [=].
      - intros ? ? [= <-] [= <-]. rewrite H2v, Hv1, H2c, H2r.
        repeat split; assumption. }
  destruct (setPlugins cfg DEFAUTL_PLUGIN_PATH (Ok lb) (env_alias_builtin env)
              s2) as [r3 s3].
  cbn [fst snd] in H3. destruct H3 as ((-> & _) & _). cbn [fst].
  split; [|split].
  - split; [eauto | reflexivity].
  - intros ? [=].
  - intros ? ? _ [=].
Qed.

(** ** The dispatcher's subscription *)

Lemma plugin_handlers_added_refl st : plugin_handlers_added st st.
Proof. exists []. rewrite app_nil_r. split; [reflexivity | constructor]. Qed.

Lemma plugin_handlers_added_trans st1 st2 st3 :
  plugin_handlers_added st1 st2 -> plugin_handlers_added st2 st3 ->
  plugin_handlers_added st1 st3.
Proof.
  intros (e1 & H1 & F1) (e2 & H2 & F2). exists (e1 ++ e2).
  rewrite H2, H1, app_assoc. split; [reflexivity|].
  apply Forall_app. split; assumption.
Qed.

Lemma plugin_handlers_added_one ev cb st st' :
  is_dispatcher cb = false -> client st' = client st ->
  plugin_handlers_added st (addEventHandler cb ev st').
Proof.
  intros Hcb Hc. exists [(ev, cb)]. cbn [addEventHandler client set_client].
  rewrite Hc. split; [reflexivity|]. constructor; [exact Hcb | constructor].
Qed.

Lemma plugin_handlers_added_fold {A} (f : State -> A -> State) l st :
  (forall s x, plugin_handlers_added s (f s x)) ->
  plugin_handlers_added st (fold_left f l st).
Proof.
  intros Hf. revert st. induction l as [|x l IH]; intros st; cbn [fold_left].
  - apply plugin_handlers_added_refl.
  - eapply plugin_handlers_added_trans; [apply Hf | apply IH].
Qed.

Lemma listen_plugin_adds cfg st plugin :
  plugin_handlers_added st (listen_plugin cfg st plugin).
Proof.
  unfold listen_plugin.
  eapply plugin_handlers_added_trans; [|apply plugin_handlers_added_fold].
  - destruct (plugin_listenMessageHandler plugin) as [h|];
      [|apply plugin_handlers_added_refl].
    cbn [new_identity].
    set (s3 := addEventHandler (CbListenNew _ h) _ _).
    assert (H3 : plugin_handlers_added st s3)
      by (apply plugin_handlers_added_one; reflexivity).
    destruct (_ || _); [|exact H3].
    eapply plugin_handlers_added_trans; [exact H3|].
    apply plugin_handlers_added_one; reflexivity.
  - intros s [event handler]. cbn [new_identity].
    apply plugin_handlers_added_one; reflexivity.
Qed.

(** X14. After a reload that returns normally the command dispatcher is
    subscribed exactly once for new messages and exactly once for edited
    messages, as the first two handlers of the client, however many
    reloads went before and whatever the client held; every other
    handler of the client belongs to a plugin. *)
Theorem dispatcher_subscribed_once cfg env st :
  fst (loadPlugins cfg env st) = Ok tt ->
  let st' := snd (loadPlugins cfg env st) in
  exists n rest,
    client st' = (FNewMessage n, CbDealNewMsgEvent)
                 :: (FEditedMessage (n + 1), CbDealEditedMsgEvent) :: rest /\
    Forall (fun h => is_dispatcher (snd h) = false) rest /\
    length (List.filter (fun h => is_dispatcher (snd h)) (client st')) = 2%nat.
Proof.
  unfold loadPlugins, bind, lift.
  set (s1 := cronManager_clear (clearPlugins st)).
  assert (Hc1 : client s1 = []).
  { destruct (clearPlugins_spec st) as (_ & _ & Hc0 & _). exact Hc0. }
  clearbody s1.
  pose proof (setPlugins_spec cfg USER_PLUGIN_PATH (env_user env)
                (env_alias_user env) s1) as (_ & H2c & _). cbn zeta in H2c.
  destruct (setPlugins cfg USER_PLUGIN_PATH _ _ s1) as [[[]|x] s2];
    cbn [fst snd] in *; [|discriminate].
  pose proof (setPlugins_spec cfg DEFAUTL_PLUGIN_PATH (env_builtin env)
                (env_alias_builtin env) s2) as (_ & H3c & _). cbn zeta in H3c.
  destruct (setPlugins cfg DEFAUTL_PLUGIN_PATH _ _ s2) as [[[]|x] s3];
    cbn [fst snd] in *; [|discriminate].
  intros _. cbn [new_identity].
  set (s4 := addEventHandler CbDealEditedMsgEvent _ _).
  assert (Hc4 : client s4 = [(FNewMessage (next_id s3), CbDealNewMsgEvent);
                             (FEditedMessage (next_id s3 + 1),
                              CbDealEditedMsgEvent)]).
  { subst s4. cbn. rewrite H3c, H2c, Hc1. reflexivity. }
  clearbody s4. unfold dealListenMessagePlugin.
  assert (H5 : plugin_handlers_added s4
                 (fold_left (listen_plugin cfg) (validPlugins s4) s4)).
  { apply plugin_handlers_added_fold. intros s p. apply listen_plugin_adds. }
  destruct (dealCronPlugin_frame
              (fold_left (listen_plugin cfg) (validPlugins s4) s4))
    as (Hc6 & _).
  cbn zeta in Hc6. destruct H5 as (extra & H5 & Hextra).
  exists (next_id s3), extra. rewrite Hc6, H5, Hc4. cbn [app].
  split; [reflexivity|]. split; [exact Hextra|].
  cbn [List.filter snd is_dispatcher length]. f_equal. f_equal.
  clear H5. induction Hextra as [|h extra Hh _ IH]; [reflexivity|].
  cbn [List.filter]. rewrite Hh. exact IH.
Qed.

(** ** What the dispatcher never does *)

Lemma dealCommandPluginWithMessage_calls cmd isEdited msg base trigger st :
  heap st !! msg = Some base ->
  let st' := snd (dealCommandPluginWithMessage cmd isEdited msg trigger st) in
  (invoked st' = invoked st /\ edits st' = edits st) \/
  exists e h a,
    dispatched st cmd isEdited e /\ handler_of e cmd = Some h /\
    (a = msg \/ heap st !! a = None) /\
    invoked st' = invoked st ++ [invocation h a trigger].
Proof.
  intros Hmsg st'.
  destruct (getPluginEntry cmd st) as [e|] eqn:He.
  2:{ left. subst st'. unfold dealCommandPluginWithMessage, try_catch,
        dispatch_body. rewrite Hmsg, He. repeat split. }
  destruct (isEdited && plugin_ignoreEdited (entry_plugin e)) eqn:Hed.
  { left. subst st'. unfold dealCommandPluginWithMessage, try_catch,
      dispatch_body. rewrite Hmsg, He, Hed. repeat split. }
  destruct (handler_of e cmd) as [h|] eqn:Hh.
  - right. exists e, h, (dispatch_target cmd msg base e st).1.1.
    split; [split; assumption|]. split; [exact Hh|]. subst st'.
    rewrite (dealCommand_calls cmd isEdited msg base trigger st e h Hmsg
               (conj He Hed) Hh).
    after_call_facts Hinv Hheap Hrun. rewrite Hinv.
    destruct (dispatch_target_frame cmd msg base e st) as (_ & _ & Hi).
    cbn zeta in Hi. rewrite Hi. split; [|reflexivity].
    unfold dispatch_target. destruct (rewrite_wanted e) as [f|];
      [|left; reflexivity].
    destruct (rewrite_message _ cmd f base); [|left; reflexivity].
    right. apply next_address_unused.
  - left. subst st'. unfold dealCommandPluginWithMessage, try_catch,
      dispatch_body. rewrite Hmsg, He, Hed. unfold handler_of in Hh.
    destruct (rewrite_wanted e) as [f|].
    + destruct (rewrite_message _ cmd f base); unfold alloc; cbv zeta;
        rewrite Hh; repeat split.
    + rewrite Hh. repeat split.
Qed.

(** X15. What it takes for a handler to be called on an event: the
    message is outgoing or in Saved Messages, its text parses to a
    command, the command is indexed, and the event is not an edit the
    plugin ignores. Otherwise no handler is called and no edit is sent.
    At most one handler is called per event, always without a trigger,
    with the message itself or with an object that was not on the heap
    before. *)
Theorem handler_called_only_for_own_commands cfg c event st :
  let st' := snd (dealCommandPlugin cfg c event st) in
  (invoked st' = invoked st /\ edits st' = edits st) \/
  exists m cmd e h a,
    heap st !! ev_message event = Some m /\
    (truthy (field m (js "out")) = true \/
     truthy (field m (js "savedPeerId")) = true) /\
    fst (getCommandFromMessage cfg c (msg_message m) None st) = Some cmd /\
    getPluginEntry cmd st = Some e /\
    ev_isEdited event && plugin_ignoreEdited (entry_plugin e) = false /\
    (a = ev_message event \/ heap st !! a = None) /\
    invoked st' = invoked st ++ [invocation h a None].
Proof.
  intros st'. subst st'. unfold dealCommandPlugin.
  destruct (heap st !! ev_message event) as [m|] eqn:Hm;
    [|left; split; reflexivity].
  destruct (truthy (field m (js "out")) || truthy (field m (js "savedPeerId")))
    eqn:Hown; [|left; split; reflexivity].
  destruct (getCommandFromMessage_frame cfg c (msg_message m) None st)
    as (_ & Hp & _ & _ & _ & Hheap & Hinv & Hed).
  cbv zeta in Hp, Hheap, Hinv, Hed.
  destruct (getCommandFromMessage cfg c (msg_message m) None st)
    as [[cmd|] st1] eqn:Hparse; cbn [snd] in *; [|left; split; assumption].
  destruct (truthy_str cmd); [|left; split; assumption].
  assert (Hm1 : heap st1 !! ev_message event = Some m) by (rewrite Hheap; exact Hm).
  destruct (dealCommandPluginWithMessage_calls cmd (ev_isEdited event)
              (ev_message event) m None st1 Hm1)
    as [[Hi He]|(e & h & a & [Hentry Hedit] & _ & Ha & Hcall)].
  - left. split; congruence.
  - right. exists m, cmd, e, h, a. split; [reflexivity|].
    split; [apply orb_true_iff, Hown|]. split; [rewrite Hparse; reflexivity|].
    split; [unfold getPluginEntry in *; rewrite <- Hp; exact Hentry|].
    split; [exact Hedit|].
    split; [rewrite <- Hheap; exact Ha|]. rewrite Hcall, Hinv. reflexivity.
Qed.

(** X16. A command that needs no rewriting gets the message itself: when
    the entry has no [original], or its [aliasFinal] is its [original]
    (an alias that only renames a command), the handler is called once,
    with the very object the event carried and no copy is put on the
    heap; so the handler of a renaming alias reads the text as it was
    typed, alias key included. *)
Theorem plain_entry_passes_message_through cmd isEdited msg base trigger st
    entry h :
  heap st !! msg = Some base ->
  dispatched st cmd isEdited entry ->
  entry_original entry = None \/ entry_aliasFinal entry = entry_original entry ->
  handler_of entry cmd = Some h ->
  let r := dealCommandPluginWithMessage cmd isEdited msg trigger st in
  invoked (snd r) = invoked st ++ [invocation h msg trigger] /\
  heap (snd r) = heap st /\
  (handler_run h base trigger = None ->
   r = (Ok tt, set_invoked (invoked st ++ [invocation h msg trigger]) st)).
Proof.
  intros Hmsg Hd Hplain Hh r. subst r.
  rewrite (dealCommand_calls cmd isEdited msg base trigger st entry h Hmsg Hd
             Hh).
  assert (Hw : rewrite_wanted entry = None).
  { unfold rewrite_wanted. destruct Hplain as [-> | ->]; [reflexivity|].
    destruct (entry_original entry) as [o|]; [|reflexivity].
    rewrite bool_decide_eq_true_2 by reflexivity.
    rewrite andb_false_r. reflexivity. }
  unfold dispatch_target. rewrite Hw. cbn [fst snd].
  destruct (after_call_spec msg h msg base trigger st) as (Hinv & Hheap & _).
  cbn zeta in *. split; [exact Hinv|]. split; [exact Hheap|].
  intros Hrun. unfold after_call. rewrite Hrun. reflexivity.
Qed.

Lemma split_go_inSep s :
  List.filter truthy_str (split_go true [] s)
  = List.filter truthy_str (split_go false [] s).
Proof.
  destruct s as [|c s]; [reflexivity|]. cbn [split_go].
  destruct (isWhiteSpace c); reflexivity.
Qed.

Lemma words_token_space t s :
  is_token t -> words (t ++ space ++ s) = t :: words s.
Proof.
  intros [Hne Hws]. unfold words, split_ws.
  rewrite (split_go_token t false [] _ Hne Hws), app_nil_r.
  unfold space. cbn [app split_go]. change (isWhiteSpace 32) with true.
  cbv iota. rewrite rev_involutive. cbn [List.filter].
  destruct t as [|ch t]; [contradiction|]. cbn [truthy_str].
  rewrite split_go_inSep. reflexivity.
Qed.

(** X17. The text a handler gets after a rewrite names its command: in
    every state the process reaches, when the entry of an alias carries
    an [original] that is a single token and the rewrite takes place,
    the new text is the matched prefix followed by [original] and
    further tokens, joined by single spaces, and [message] and [text]
    of the copy agree. *)
Theorem rewritten_text_names_the_command cfg ops cmd e o f base newMsg :
  let st := run_ops cfg ops (initial_state cfg) in
  getPluginEntry cmd st = Some e ->
  carries_alias e o f -> is_token o ->
  rewrite_message (getPrefixes st) cmd f base = Some newMsg ->
  exists more,
    msg_message newMsg = matched_prefix st base ++ join space (o :: more) /\
    Forall is_token more /\
    msg_text newMsg = Some (msg_message newMsg).
Proof.
  intros st He (Ho & Hone & Hf & Hfne & Hdiff) Htok Hrw.
  destruct (reachable_index_sound cfg ops cmd e He) as [Hs _].
  unfold entry_sound in Hs. rewrite Ho, Hf in Hs. destruct Hs as [_ Hrel].
  destruct Hrel as [-> | Hrel]; [contradiction|].
  apply startsWith_spec in Hrel as (tail & ->).
  unfold rewrite_message in Hrw. fold (matched_prefix st base) in Hrw.
  destruct (_ && _); [|discriminate]. injection Hrw as <-.
  rewrite <- app_assoc, (words_token_space o tail Htok). cbn [app].
  eexists. cbn [copy_with_text msg_message msg_text].
  split; [reflexivity|]. split; [|reflexivity].
  apply Forall_app. split; [apply words_tokens|].
  apply Forall_drop, words_tokens.
Qed.

(** ** From the text to the handler *)

(** X18. An alias that is typed is always rewritten: when the command
    the dispatcher parsed from an outgoing message has an entry with an
    [original] and a different [aliasFinal], the tokens of the message
    do start with the tokens of the command, so the handler of
    [original] is called with a new object whose text is the prefix, the
    tokens of [aliasFinal] and the remaining tokens of the message. The
    re-check of the rewriter can fail only for a command that was not
    parsed from the message. *)
Theorem typed_alias_is_always_rewritten cfg c event st m cmd e o f h :
  heap st !! ev_message event = Some m ->
  truthy (field m (js "out")) || truthy (field m (js "savedPeerId")) = true ->
  fst (getCommandFromMessage cfg c (msg_message m) None st) = Some cmd ->
  getPluginEntry cmd st = Some e ->
  ev_isEdited event && plugin_ignoreEdited (entry_plugin e) = false ->
  carries_alias e o f ->
  Map_get o (plugin_cmdHandlers (entry_plugin e)) = Some h ->
  let st' := snd (dealCommandPlugin cfg c event st) in
  exists extraParts,
    message_parts st m = words cmd ++ extraParts /\
    invoked st' = invoked st ++ [invocation h (next_address st) None] /\
    exists newMsg,
      heap st' !! next_address st = Some newMsg /\
      msg_message newMsg
      = matched_prefix st m ++ join space (words f ++ extraParts) /\
      msg_text newMsg = Some (msg_message newMsg).
Proof.
  intros Hm Hown Hparse He Hed Hal Hh st'.
  destruct (parsed_command_shape cfg c (msg_message m) None st cmd Hparse)
    as (mm & rest & i & Hpre & Hne & Htext & Hi & Hcmd & _ & Hcmd0).
  cbn [prefix_table] in Hpre.
  assert (Hmt : message_text m = msg_message m).
  { unfold message_text. rewrite Htext. destruct mm; [contradiction|].
    reflexivity. }
  assert (Hmp : matched_prefix st m = mm).
  { unfold matched_prefix. rewrite Hmt, Hpre. reflexivity. }
  assert (Hparts : message_parts st m
                   = words cmd ++ drop i (words (trim rest))).
  { unfold message_parts. rewrite Hmp, Hmt, Htext. unfold slice_from.
    rewrite drop_app_length, Hcmd, words_join, take_drop; [reflexivity|].
    apply Forall_take_tokens, words_tokens. }
  exists (drop i (words (trim rest))). split; [exact Hparts|].
  subst st'. unfold dealCommandPlugin. rewrite Hm, Hown.
  destruct (getCommandFromMessage_frame cfg c (msg_message m) None st)
    as (_ & Hp & _ & _ & Hpf & Hheap & Hinv & _).
  cbv zeta in Hp, Hpf, Hheap, Hinv.
  destruct (getCommandFromMessage cfg c (msg_message m) None st)
    as [r st1]. cbn [fst snd] in *. subst r.
  destruct cmd as [|ch cmd']; [contradiction|]. cbn [truthy_str].
  set (cmd := ch :: cmd') in *.
  assert (Hm1 : heap st1 !! ev_message event = Some m) by (rewrite Hheap; exact Hm).
  assert (Hd1 : dispatched st1 cmd (ev_isEdited event) e).
  { split; [unfold getPluginEntry in *; rewrite Hp; exact He | exact Hed]. }
  assert (Hparts1 : message_parts st1 m
                    = words cmd ++ drop i (words (trim rest))).
  { unfold message_parts, matched_prefix, getPrefixes in *.
    rewrite Hpf. exact Hparts. }
  rewrite (dealCommand_rewritten cmd (ev_isEdited event) (ev_message event) m
             None st1 e o f _ h Hm1 Hd1 Hal Hparts1 Hh).
  assert (Ha : next_address st1 = next_address st)
    by (unfold next_address; rewrite Hheap; reflexivity).
  assert (Hmp1 : matched_prefix st1 m = matched_prefix st m)
    by (unfold matched_prefix, getPrefixes; rewrite Hpf; reflexivity).
  rewrite Ha, Hmp1.
  after_call_facts Hi' Hheap' Hrun. cbv zeta in Hi', Hheap'.
  rewrite Hi', Hheap'. cbn [invoked heap set_heap]. rewrite Hinv.
  split; [reflexivity|]. eexists. rewrite lookup_insert_eq.
  split; [reflexivity|]. split; reflexivity.
Qed.

(** ** The minimal profile *)

Lemma getCommandFromMessage_no_resolution cfg c text diy st :
  enableAliasResolution cfg = false ->
  snd (getCommandFromMessage cfg c text diy st) = st.
Proof.
  intros Hen. unfold getCommandFromMessage.
  destruct (first_prefix text (prefix_table diy st)) as [m|]; [|reflexivity].
  destruct (negb (truthy_str m)); [reflexivity|].
  destruct (negb (truthy_str _)); [reflexivity|].
  unfold resolveParts, aliasCandidateOf. rewrite Hen.
  destruct (words _) as [|cmd ws]; [reflexivity|].
  destruct (isCommandName cmd); reflexivity.
Qed.

Lemma setPlugins_no_resolution cfg basePath listing c st :
  enableAliasResolution cfg = false ->
  fallback_neutral st (snd (setPlugins cfg basePath listing c st)) /\
  ((forall k e, Map_get k (plugins st) = Some e ->
                e = literal_entry (entry_plugin e)) ->
   forall k e,
     Map_get k (plugins (snd (setPlugins cfg basePath listing c st))) = Some e ->
     e = literal_entry (entry_plugin e)).
Proof.
  intros Hen. unfold setPlugins. rewrite Hen.
  destruct listing as [l|x];
    [|split; [apply fallback_neutral_refl | intros H; exact H]].
  destruct (eligible_files cfg basePath l) as [|f files]; cbn [snd].
  - split; [|destruct (cfg_minimal cfg); intros H; exact H].
    destruct (cfg_minimal cfg); [|apply fallback_neutral_refl].
    apply fallback_neutral_log. reflexivity.
  - split.
    + apply fallback_neutral_fold. intros s x.
      apply load_file_fallback_neutral.
    + apply (fold_left_invariant
               (fun s => forall k e, Map_get k (plugins s) = Some e ->
                                     e = literal_entry (entry_plugin e))).
      intros s file Hs. unfold load_file.
      destruct (file_module file) as [e0| |p]; [exact Hs | exact Hs |].
      cbn [plugins set_plugins set_validPlugins].
      apply (fold_left_ind
               (fun ix => forall k e, Map_get k ix = Some e ->
                                      e = literal_entry (entry_plugin e)));
        [|exact Hs].
      intros ix cmd _ Hix k e. cbn [register_cmd]. rewrite Map_get_set.
      destruct (decide (cmd = k)); [intros [= <-]; reflexivity | apply Hix].
Qed.

Lemma loadPlugins_no_resolution cfg env st :
  enableAliasResolution cfg = false ->
  fallback_neutral st (snd (loadPlugins cfg env st)) /\
  forall k e, Map_get k (plugins (snd (loadPlugins cfg env st))) = Some e ->
              e = literal_entry (entry_plugin e).
Proof.
  intros Hen. unfold loadPlugins, bind, lift.
  set (s1 := cronManager_clear (clearPlugins st)).
  assert (H1 : fallback_neutral st s1 /\
               forall k e, Map_get k (plugins s1) = Some e ->
                           e = literal_entry (entry_plugin e)).
  { split.
    - eapply fallback_neutral_trans; [apply clearPlugins_fallback_neutral|].
      split; reflexivity.
    - destruct (clearPlugins_spec st) as (_ & Hp0 & _). cbn zeta in Hp0.
      subst s1. cbn [plugins cronManager_clear set_cron]. rewrite Hp0.
      discriminate. }
  destruct H1 as [Hn1 Hl1]. clearbody s1.
  destruct (setPlugins_no_resolution cfg USER_PLUGIN_PATH (env_user env)
              (env_alias_user env) s1 Hen) as [Hn2 Hl2].
  specialize (Hl2 Hl1).
  destruct (setPlugins cfg USER_PLUGIN_PATH _ _ s1) as [[[]|x] s2];
    cbn [snd] in *;
    [|split; [eapply fallback_neutral_trans; eassumption | exact Hl2]].
  destruct (setPlugins_no_resolution cfg DEFAUTL_PLUGIN_PATH (env_builtin env)
              (env_alias_builtin env) s2 Hen) as [Hn3 Hl3].
  specialize (Hl3 Hl2).
  assert (Hn13 : forall s, fallback_neutral s2 s -> fallback_neutral st s).
  { intros s Hs. eapply fallback_neutral_trans; [|exact Hs].
    eapply fallback_neutral_trans; eassumption. }
  destruct (setPlugins cfg DEFAUTL_PLUGIN_PATH _ _ s2) as [[[]|x] s3];
    cbn [snd] in *; [|split; [apply Hn13, Hn3 | exact Hl3]].
  cbn [new_identity].
  set (s4 := addEventHandler CbDealEditedMsgEvent _ _).
  assert (H4 : fallback_neutral s3 s4 /\ plugins s4 = plugins s3)
    by (repeat split).
  destruct H4 as [Hn4 Hp4]. clearbody s4. unfold dealListenMessagePlugin.
  destruct (listen_plugins_spec cfg (validPlugins s4) s4) as (_ & _ & Hp5 & _).
  destruct (dealCronPlugin_frame
              (fold_left (listen_plugin cfg) (validPlugins s4) s4))
    as (_ & _ & Hp6).
  cbn zeta in *. split.
  - apply Hn13. eapply fallback_neutral_trans; [exact Hn3|].
    eapply fallback_neutral_trans; [exact Hn4|].
    eapply fallback_neutral_trans; [|apply dealCronPlugin_fallback_neutral].
    apply fallback_neutral_fold. intros s p.
    apply listen_plugin_fallback_neutral.
  - rewrite Hp6, Hp5, Hp4. exact Hl3.
Qed.

Lemma eligible_files_minimal cfg basePath l f :
  cfg_minimal cfg = true -> In f (eligible_files cfg basePath l) ->
  basePath = DEFAUTL_PLUGIN_PATH /\ In f l /\
  In (file_name f) minimalBuiltinPluginFiles.
Proof.
  intros Hmin. unfold eligible_files. rewrite Hmin.
  destruct basePath; [intros []|]. intros Hin.
  apply filter_In in Hin as [Hin Hallow].
  apply filter_In in Hin as [Hin _].
  apply bool_decide_eq_true_1 in Hallow.
  split; [reflexivity|]. split; [exact Hin|].
  clear -Hallow. induction Hallow as [x l|x y l _ IH];
    [left; reflexivity | right; exact IH].
Qed.

(** X19. In the minimal profile the alias store plays no part: parsing a
    text changes nothing and never opens the store; a reload loads no
    user plugin and only the built-in files of the allow-list; and in
    every state the process reaches, every entry of the command index
    is the plain entry of its plugin (so no message is ever rewritten),
    alias resolution is off, and neither the [ALIAS] nor the [AliasDB]
    warning was printed. *)
Theorem minimal_profile_ignores_aliases cfg :
  cfg_minimal cfg = true ->
  (forall c text diy st, snd (getCommandFromMessage cfg c text diy st) = st) /\
  (forall env st p,
      In p (validPlugins (snd (loadPlugins cfg env st))) ->
      exists lb f q,
        env_builtin env = Ok lb /\ In f lb /\
        In (file_name f) minimalBuiltinPluginFiles /\
        file_module f = ValidPlugin q /\
        p = with_default_name (file_name f) q) /\
  (forall ops,
      let st := run_ops cfg ops (initial_state cfg) in
      (forall k e, getPluginEntry k st = Some e ->
                   e = literal_entry (entry_plugin e) /\
                   rewrite_wanted e = None) /\
      aliasResolutionAvailable st = false /\
      alias_warnings st = 0%nat /\ fallback_warnings st = 0%nat).
Proof.
  intros Hmin.
  assert (Hen : enableAliasResolution cfg = false)
    by (unfold enableAliasResolution; rewrite Hmin; reflexivity).
  split; [|split].
  - intros c text diy st. apply getCommandFromMessage_no_resolution, Hen.
  - intros env st p Hp.
    destruct (loadPlugins_spec cfg env st) as (_ & _ & Hv). cbn zeta in Hv.
    rewrite Hv in Hp. clear Hv.
    assert (Hfrom : forall basePath l,
              In p (loaded_plugins cfg basePath l) ->
              basePath = DEFAUTL_PLUGIN_PATH /\
              exists f q, In f l /\
                In (file_name f) minimalBuiltinPluginFiles /\
                file_module f = ValidPlugin q /\
                p = with_default_name (file_name f) q).
    { intros basePath l Hin. unfold loaded_plugins in Hin.
      apply in_flat_map in Hin as (f & Hf & Hpf).
      destruct (eligible_files_minimal cfg basePath l f Hmin Hf)
        as (Hb & Hl & Hallow).
      split; [exact Hb|].
      destruct (file_module f) as [e0| |q] eqn:Eq; try destruct Hpf.
      - exists f, q. repeat split; try assumption. symmetry. assumption.
      - contradiction. }
    destruct (env_user env) as [lu|x]; [|destruct Hp].
    destruct (env_builtin env) as [lb|x].
    + apply in_app_or in Hp as [Hp|Hp].
      * destruct (Hfrom _ _ Hp) as [Hb _]. discriminate.
      * destruct (Hfrom _ _ Hp) as (_ & f & q & H). exists lb, f, q.
        split; [reflexivity | exact H].
    + destruct (Hfrom _ _ Hp) as [Hb _]. discriminate.
  - intros ops st.
    assert (Hinv : (forall k e, Map_get k (plugins st) = Some e ->
                                e = literal_entry (entry_plugin e)) /\
                   fallbackWarned st = false /\
                   fallback_warnings st = 0%nat).
    { subst st. unfold run_ops.
      apply (fold_left_invariant
               (fun s => (forall k e, Map_get k (plugins s) = Some e ->
                                      e = literal_entry (entry_plugin e)) /\
                         fallbackWarned s = false /\
                         fallback_warnings s = 0%nat)).
      - intros s op (Hl & Hw & Hc).
        assert (Hn : fallback_neutral s (run_op cfg s op)).
        { destruct op; cbn [run_op].
          - rewrite (getCommandFromMessage_no_resolution _ _ _ _ _ Hen).
            apply fallback_neutral_refl.
          - split; reflexivity.
          - apply loadPlugins_no_resolution, Hen.
          - unfold dealCommandPlugin.
            destruct (heap s !! ev_message event) as [m|];
              [|apply fallback_neutral_refl].
            destruct (_ || _); [|apply fallback_neutral_refl].
            pose proof (getCommandFromMessage_no_resolution cfg c
                          (msg_message m) None s Hen) as Hs.
            destruct (getCommandFromMessage cfg c (msg_message m) None s)
              as [[cmd|] s1]; cbn [snd] in Hs; subst s1;
              [|apply fallback_neutral_refl].
            destruct (truthy_str cmd); [|apply fallback_neutral_refl].
            apply dealCommandPluginWithMessage_fallback_neutral.
          - apply dealCommandPluginWithMessage_fallback_neutral.
          - split; reflexivity. }
        destruct Hn as [Hn1 Hn2]. rewrite Hn1, Hn2.
        split; [|split; assumption].
        destruct (run_op_registry cfg s op) as [[env ->]|[Hp _]].
        + apply loadPlugins_no_resolution, Hen.
        + rewrite Hp. exact Hl.
      - split; [intros k e; discriminate | split; reflexivity]. }
    destruct Hinv as (Hl & _ & Hfb).
    pose proof (run_ops_step cfg ops (initial_state cfg)) as [_ Hneutral].
    destruct (Hneutral Hen) as (Ha & _ & Hc). fold st in Ha, Hc.
    split; [|split; [|split]].
    + intros k e Hk. specialize (Hl k e Hk). split; [exact Hl|].
      rewrite Hl. reflexivity.
    + rewrite Ha. exact Hen.
    + rewrite Hc. reflexivity.
    + exact Hfb.
Qed.

(** ** An alias that was deleted *)

Lemma resolveParts_source cfg c parts st r :
  fst (resolveParts cfg c parts st) = Some r ->
  (exists db st1, openAliasDB c st = (Some db, st1) /\ has_final db r = true)
  \/ (isCommandName r = true /\ exists ws, parts = r :: ws).
Proof.
  unfold resolveParts. destruct parts as [|cmd ws]; [discriminate|].
  assert (Hcmd : forall s : State,
            fst (if isCommandName cmd then (Some cmd, s) else (None, s))
            = Some r ->
            isCommandName r = true /\ exists ws', cmd :: ws = r :: ws').
  { intros s. destruct (isCommandName cmd) eqn:E; [|discriminate].
    intros [= <-]. split; [exact E | eauto]. }
  unfold aliasCandidateOf.
  destruct (enableAliasResolution cfg); [|intros H; right; exact (Hcmd _ H)].
  destruct (openAliasDB c st) as [[db|] st1] eqn:Hopen;
    [|intros H; right; exact (Hcmd _ H)].
  destruct (aliasLoop db (cmd :: ws) (length (cmd :: ws))) as [a|] eqn:E;
    [|intros H; right; exact (Hcmd _ H)].
  destruct (truthy_str a); [|intros H; right; exact (Hcmd _ H)].
  intros [= <-]. apply aliasLoop_Some in E as (i & _ & _ & Hf & _).
  left. exists db, st1. split; [reflexivity | exact Hf].
Qed.

(** X20. An alias that was deleted is no longer resolved: once [del(o)]
    has run on the store the parser opens, no text parses to [o] as an
    alias; a text parses to [o] only if [o] is a command name (letters,
    digits, underscores) standing as the first token after the
    prefix. *)
Theorem deleted_alias_is_forgotten cfg c st o db text diy :
  (forall db', fst (openAliasDB c st) = Some db' ->
               db' = (AliasDB_del o db).1.2) ->
  fst (getCommandFromMessage cfg c text diy st) = Some o ->
  isCommandName o = true /\
  exists m rest ws,
    first_prefix text (prefix_table diy st) = Some m /\ text = m ++ rest /\
    words (trim rest) = o :: ws.
Proof.
  intros Hdb. unfold getCommandFromMessage.
  destruct (first_prefix text (prefix_table diy st)) as [m|] eqn:Hm;
    [|discriminate].
  destruct (first_prefix_Some _ _ _ Hm) as (_ & _ & _ & Hs & _).
  apply startsWith_spec in Hs as (rest & ->).
  destruct (negb (truthy_str m)); [discriminate|].
  unfold slice_from. rewrite drop_app_length.
  destruct (negb (truthy_str (trim rest))); [discriminate|].
  intros Hr.
  apply resolveParts_source in Hr
    as [(db' & st1 & Hopen & Hf)|(Hname & ws & Hparts)].
  - exfalso. rewrite (Hdb db') in Hf by (rewrite Hopen; reflexivity).
    unfold has_final, AliasDB_get in Hf. cbn [AliasDB_del fst snd db_rows] in Hf.
    assert (Hnone : find (fun r => bool_decide (rec_original r = o))
                      (List.filter
                         (fun x => negb (bool_decide (rec_original x = o)))
                         (db_rows db)) = None).
    { apply find_original_None. intros Hin.
      apply in_map_iff in Hin as (r & Hr & Hin).
      apply filter_In in Hin as [_ Hneq].
      rewrite bool_decide_eq_true_2 in Hneq by exact Hr. discriminate. }
    rewrite Hnone in Hf. discriminate.
  - split; [exact Hname|]. exists m, rest, ws.
    split; [reflexivity|]. split; [reflexivity | exact Hparts].
Qed.

(** ** Aliases in the index *)

Lemma fold_left_reaches {A B} (P : B -> Prop) (f : B -> A -> B) l b x :
  In x l -> (forall b, P (f b x)) -> (forall b y, P b -> P (f b y)) ->
  P (fold_left f l b).
Proof.
  intros Hin Hx Hkeep. revert b.
  induction l as [|y l IH]; intros b; [destruct Hin|]. cbn [fold_left].
  destruct Hin as [->|Hin]; [|apply IH, Hin].
  generalize (f b x) (Hx b). clear -Hkeep. induction l as [|z l IH];
    intros b' Hb'; cbn [fold_left]; [exact Hb'|].
  apply IH, Hkeep, Hb'.
Qed.

Lemma register_cmd_keeps_keys aliasList plugin index cmd k :
  In k (map fst index) ->
  In k (map fst (register_cmd aliasList plugin index cmd)).
Proof.
  intros Hk. unfold register_cmd.
  assert (H1 : In k (map fst (Map_set cmd (literal_entry plugin) index)))
    by (apply Map_set_keys; right; exact Hk).
  destruct aliasList as [|r rs]; [exact H1|].
  apply (fold_left_ind (fun ix => In k (map fst ix))); [|exact H1].
  intros ix rec _ Hix. apply Map_set_keys. right. exact Hix.
Qed.

Lemma register_cmd_alias_key aliasList plugin index cmd rec :
  In rec aliasList -> related_alias cmd rec = true ->
  In (rec_original rec) (map fst (register_cmd aliasList plugin index cmd)).
Proof.
  intros Hin Hrel. unfold register_cmd.
  destruct aliasList as [|r rs]; [destruct Hin|].
  apply (fold_left_reaches (fun ix => In (rec_original rec) (map fst ix))
           _ _ _ rec).
  - apply filter_In. split; assumption.
  - intros ix. apply Map_set_keys. left. reflexivity.
  - intros ix y Hix. apply Map_set_keys. right. exact Hix.
Qed.

Lemma load_file_keeps_keys aliasList st file k :
  In k (map fst (plugins st)) ->
  In k (map fst (plugins (load_file aliasList st file))).
Proof.
  intros Hk. unfold load_file. destruct (file_module file) as [e| |p];
    [exact Hk | exact Hk |].
  cbn [plugins set_plugins set_validPlugins].
  apply (fold_left_ind (fun ix => In k (map fst ix))); [|exact Hk].
  intros ix cmd _ Hix. apply register_cmd_keeps_keys, Hix.
Qed.

(** X21. An alias stored for a command of a plugin is indexed when the
    plugin is loaded: if the store opens and holds a row whose [final]
    is a command of a loadable file's plugin, alone or followed by a
    space and more, then after [setPlugins] the row's [original] is a
    key of the command index, and so is the command itself; and no key
    the index had is lost. *)
Theorem stored_alias_is_indexed cfg basePath l c st db st1 file p rec cmd :
  enableAliasResolution cfg = true ->
  openAliasDB c st = (Some db, st1) ->
  In file (eligible_files cfg basePath l) ->
  file_module file = ValidPlugin p ->
  declares p cmd ->
  In rec (db_rows db) ->
  related_alias cmd rec = true ->
  let st' := snd (setPlugins cfg basePath (Ok l) c st) in
  (exists e, getPluginEntry (rec_original rec) st' = Some e) /\
  (exists e, getPluginEntry cmd st' = Some e) /\
  (forall k e, getPluginEntry k st = Some e ->
               exists e', getPluginEntry k st' = Some e').
Proof.
  intros Hen Hopen Hfile Hmod Hcmd Hrec Hrel st'. subst st'.
  unfold setPlugins, getPluginEntry. rewrite Hen, Hopen.
  destruct (eligible_files cfg basePath l) as [|f files] eqn:E;
    [destruct Hfile|].
  cbn [snd]. rewrite <- !Map_get_declared.
  assert (Hlist : In rec (AliasDB_list db)).
  { unfold AliasDB_list. destruct (db_sqlite db); [exact Hrec|].
    eapply Permutation_in; [symmetry; apply Array_sort_perm | exact Hrec]. }
  assert (Hdecl : In cmd (map fst (plugin_cmdHandlers
                                     (with_default_name (file_name file) p)))).
  { unfold with_default_name. destruct (match plugin_name p with
                                         | Some n => negb (truthy_str n)
                                         | None => true
                                         end); exact Hcmd. }
  split; [|split].
  - apply (fold_left_reaches
             (fun s => In (rec_original rec) (map fst (plugins s)))
             _ _ _ file Hfile).
    + intros s. unfold load_file. rewrite Hmod.
      cbn [plugins set_plugins set_validPlugins].
      apply (fold_left_reaches
               (fun ix => In (rec_original rec) (map fst ix)) _ _ _ cmd Hdecl).
      * intros ix. apply register_cmd_alias_key; assumption.
      * intros ix y. apply register_cmd_keeps_keys.
    + intros s y. apply load_file_keeps_keys.
  - apply (fold_left_reaches (fun s => In cmd (map fst (plugins s)))
             _ _ _ file Hfile).
    + intros s. unfold load_file. rewrite Hmod.
      cbn [plugins set_plugins set_validPlugins].
      apply (fold_left_reaches (fun ix => In cmd (map fst ix)) _ _ _ cmd Hdecl).
      * intros ix. unfold register_cmd.
        assert (H1 : In cmd (map fst (Map_set cmd
                       (literal_entry (with_default_name (file_name file) p))
                       ix)))
          by (apply Map_set_keys; left; reflexivity).
        destruct (AliasDB_list db) as [|r rs]; [exact H1|].
        apply (fold_left_ind (fun ix' => In cmd (map fst ix'))); [|exact H1].
        intros ix' y _ H. apply Map_set_keys. right. exact H.
      * intros ix y. apply register_cmd_keeps_keys.
    + intros s y. apply load_file_keeps_keys.
  - intros k e Hk.
    destruct (openAliasDB_frame c st) as (_ & Hp & _). cbn zeta in Hp.
    rewrite Hopen in Hp. cbn [snd] in Hp.
    apply Map_get_declared.
    apply (fold_left_invariant (fun s => In k (map fst (plugins s)))).
    + intros s y. apply load_file_keeps_keys.
    + rewrite Hp. apply Map_get_declared. eauto.
Qed.

End Host.

(** * Worked cases *)

(** [" ab  cd ".split(/\s+/)] has an empty first and last field, [""]
    gives one empty field, and the tokens are the non-empty fields. *)
Example split_ws_edges :
  split_ws (js " ab  cd ") = [[]; js "ab"; js "cd"; []] /\
  split_ws [] = [[]] /\
  split_ws (js "  ") = [[]; []] /\
  words (js " ab  cd ") = [js "ab"; js "cd"] /\
  trim ([9; 160] ++ js " ab  cd " ++ [10; 12288]) = js "ab  cd".
Proof. repeat split. Qed.

(** The parser on the default prefix table [".", "。", "$"]. *)
Example parse_default_prefixes :
  let cfg := {| cfg_minimal := false; cfg_envPrefixes := [];
                cfg_development := false; cfg_listenerHandleEdited := [] |} in
  let parse text :=
    fst (getCommandFromMessage cfg (CtorSqlite demo_rows) text None
           (initial_state cfg)) in
  parse (js ".foo bar baz") = Some (js "foo bar") /\
  parse ([12290] ++ js "g cats") = Some (js "g") /\
  parse (js "$ ping_2  now") = Some (js "ping_2") /\
  parse (js "ping") = None /\
  parse (js ".(ping)") = None /\
  parse (js ".") = None.
Proof. repeat split. Qed.

(** A table entry that is the empty string is found first for every
    text, and then nothing is parsed, whatever follows it in the
    table. *)
Example empty_prefix_parses_nothing :
  fst (getCommandFromMessage demo_cfg (CtorSqlite demo_rows) (js "fping")
         (Some [[]; js "f"]) (initial_state demo_cfg)) = None /\
  fst (getCommandFromMessage demo_cfg (CtorSqlite demo_rows) (js "fping")
         (Some [js "f"; []]) (initial_state demo_cfg)) = Some (js "ping").
Proof. repeat split. Qed.

(** The index and the list of commands after one reload over the two
    demo directories. *)
Example listCommands_after_reload :
  let st := demo_state compare_units (js ".g cats") in
  map fst (plugins st) = [js "google"; js "g"; js "fail"; js "help"] /\
  listCommands compare_units st
  = [js "fail"; js "g(google)"; js "google"; js "help"].
Proof. split; vm_compute; reflexivity. Qed.


Lemma C1_longest_alias_wins_witness :
  fst (resolveParts demo_cfg (CtorSqlite demo_rows)
         [js "foo"; js "bar"; js "baz"] (initial_state demo_cfg))
  = Some (js "foo bar").
Proof.
  destruct (C1_longest_alias_wins demo_cfg (CtorSqlite demo_rows)
              (initial_state demo_cfg)
              {| db_sqlite := true; db_rows := demo_rows |}
              (initial_state demo_cfg)
              [js "foo"; js "bar"; js "baz"]
              eq_refl eq_refl ltac:(discriminate)) as (_ & _ & H).
  apply H; reflexivity.
Defined.

(** C1 as the specification words it fails on a row whose [final] is the
    empty string: ["foo bar"] exists as an [original] key and is the
    first candidate that does, yet the tokens resolve to ["foo"]. *)
Lemma C1_counterexample :
  let rows := [ {| rec_original := js "foo bar"; rec_final := [] |} ] in
  let db := {| db_sqlite := true; db_rows := rows |} in
  let parts := [js "foo"; js "bar"; js "baz"] in
  is_original_key db (js "foo bar") = true /\
  first_original_key db parts (length parts) = Some (js "foo bar") /\
  fst (aliasCandidateOf demo_cfg (CtorSqlite rows) parts
         (initial_state demo_cfg))
  <> first_original_key db parts (length parts) /\
  fst (resolveParts demo_cfg (CtorSqlite rows) parts
         (initial_state demo_cfg)) = Some (js "foo").
Proof. repeat split; vm_compute; congruence. Qed.

Lemma C2_rewritten_text_and_handler_witness :
  let st := demo_state compare_units (js ".g cats") in
  let r := dealCommandPluginWithMessage demo_handler_run demo_edit_accepts
             demo_inherited_text (js "g") false 7 None st in
  fst r = Ok tt /\
  invoked (snd r) = [invocation 1 (next_address st) None] /\
  exists newMsg,
    heap (snd r) !! next_address st = Some newMsg /\
    msg_message newMsg = js ".google search cats" /\
    msg_text newMsg = Some (js ".google search cats").
Proof.
  intros st r.
  destruct (C2_rewritten_text_and_handler demo_handler_run demo_edit_accepts
              demo_inherited_text (js "g") false 7 (outgoing (js ".g cats"))
              None st demo_alias_entry (js "google") (js "google search")
              [js "cats"] 1)
    as (Hinv & (newMsg & Hheap & Hm & Ht & Hok) & _).
  - vm_compute. reflexivity.
  - split; vm_compute; reflexivity.
  - repeat split; vm_compute; congruence.
  - vm_compute. reflexivity.
  - vm_compute. reflexivity.
  - split; [apply Hok; reflexivity|]. split; [exact Hinv|].
    exists newMsg. split; [exact Hheap|]. split; [exact Hm | exact Ht].
Defined.



(** The failure notice is sent with [await msg.edit] inside the [catch]
    block: when the transport rejects that edit, its error, not the
    handler's, ends the call. *)
Lemma rejected_edit_ends_the_call :
  let st := demo_state compare_units (js ".fail now") in
  let r := dealNewMsgEvent demo_handler_run demo_edit_rejects
             demo_inherited_text demo_cfg (CtorSqlite demo_rows) 7 st in
  fst r = Throw (ExnEdit (js "MESSAGE_ID_INVALID")) /\
  invoked (snd r) = [invocation 2 7 None] /\
  console (snd r) = console st ++ [LogError (ExnHandler 2 (js "boom"))].
Proof. repeat split; vm_compute; reflexivity. Qed.

Lemma C4_reload_idempotent_witness :
  let env2 :=
    {| env_user := env_user demo_env; env_builtin := env_builtin demo_env;
       env_alias_user := CtorThrows (js "EACCES");
       env_alias_builtin := CtorFallback (js "no sqlite") [] |} in
  let st1 := snd (loadPlugins compare_units demo_cfg demo_env
                    (initial_state demo_cfg)) in
  let st2 := snd (loadPlugins compare_units demo_cfg env2 st1) in
  List.NoDup (map fst (plugins st2)) /\
  length (client st2) = length (client st1) /\
  length (client st1) = 4%nat.
Proof.
  intros env2 st1 st2.
  destruct (C4_reload_idempotent compare_units demo_cfg demo_env env2
              (initial_state demo_cfg) eq_refl eq_refl)
    as (_ & _ & Hnd & Hlen & Hcount & _).
  split; [exact Hnd|]. split; [exact Hlen | exact Hcount].
Defined.

Lemma C5_alias_store_unavailable_witness :
  let failing := OpGetCommand (CtorThrows (js "EACCES")) (js ".anycommand")
                   None in
  let ops1 := [failing] in
  let ops2 := [failing; OpLoadPlugins demo_env;
               OpGetCommand (CtorSqlite demo_rows) (js ".g cats") None] in
  let st1 := run_ops compare_units demo_handler_run demo_edit_accepts
               demo_inherited_text demo_cfg ops1 (initial_state demo_cfg) in
  let st2 := run_ops compare_units demo_handler_run demo_edit_accepts
               demo_inherited_text demo_cfg ops2 st1 in
  alias_warnings st2 = 1%nat /\ aliasResolutionAvailable st2 = false /\
  resolveParts demo_cfg (CtorSqlite demo_rows) [js "anycommand"] st2
  = (Some (js "anycommand"), st2).
Proof.
  intros failing ops1 ops2 st1 st2.
  destruct (C5_alias_store_unavailable compare_units demo_handler_run
              demo_edit_accepts demo_inherited_text demo_cfg)
    as (_ & _ & Hany & _ & Hlife).
  destruct (Hlife ops1 ops2) as (_ & _ & Hstay).
  destruct Hstay as [Hone Hoff]; [vm_compute; reflexivity|].
  split; [exact Hone|]. split; [exact Hoff|].
  apply Hany. exact Hoff.
Defined.

Lemma C6_parse_outcomes_witness :
  fst (getCommandFromMessage demo_cfg (CtorSqlite demo_rows) (js ".ping now")
         None (initial_state demo_cfg)) = Some (js "ping") /\
  fst (getCommandFromMessage demo_cfg (CtorSqlite demo_rows) (js ".!ping")
         None (initial_state demo_cfg)) = None /\
  fst (getCommandFromMessage demo_cfg (CtorSqlite demo_rows) (js ".   ")
         None (initial_state demo_cfg)) = None.
Proof.
  split; [|split].
  - destruct (C6_parse_outcomes demo_cfg (CtorSqlite demo_rows)
                (js ".ping now") None (initial_state demo_cfg))
      as (_ & _ & _ & _ & H & _).
    apply (H (js ".") (js "ping") [js "now"]);
      [reflexivity | discriminate | reflexivity | reflexivity | reflexivity].
  - destruct (C6_parse_outcomes demo_cfg (CtorSqlite demo_rows)
                (js ".!ping") None (initial_state demo_cfg))
      as (_ & _ & _ & H & _).
    apply (H (js ".") (js "!ping") []); reflexivity.
  - destruct (C6_parse_outcomes demo_cfg (CtorSqlite demo_rows)
                (js ".   ") None (initial_state demo_cfg))
      as (_ & _ & H & _).
    apply (H (js ".")); [reflexivity | right; reflexivity].
Defined.

Lemma C7_copy_on_write_witness :
  let st := demo_state compare_units (js ".g cats") in
  let st' := snd (dealCommandPluginWithMessage demo_handler_run
                    demo_edit_accepts demo_inherited_text (js "g") false 7
                    None st) in
  heap st' !! 7 = Some (outgoing (js ".g cats")) /\
  exists newMsg,
    heap st' !! next_address st = Some newMsg /\
    msg_message newMsg = js ".google search cats" /\
    msg_fields newMsg = msg_fields (outgoing (js ".g cats")).
Proof.
  intros st st'.
  destruct (C7_copy_on_write demo_handler_run demo_edit_accepts
              demo_inherited_text (js "g") false 7 (outgoing (js ".g cats"))
              None st demo_alias_entry (js "google") (js "google search")
              [js "cats"] 1)
    as (_ & _ & _ & (newMsg & Hheap & Hm & _ & _ & Hf) & Hsame & _).
  - vm_compute. reflexivity.
  - split; vm_compute; reflexivity.
  - repeat split; vm_compute; congruence.
  - vm_compute. reflexivity.
  - vm_compute. reflexivity.
  - split; [exact Hsame|]. exists newMsg.
    split; [exact Hheap|]. split; [exact Hm | exact Hf].
Defined.

Lemma C8_rewrite_inconsistency_witness :
  let st := demo_state compare_units (js ".other stuff") in
  let r := dealCommandPluginWithMessage demo_handler_run demo_edit_accepts
             demo_inherited_text (js "g") false 7 None st in
  fst r = Ok tt /\ invoked (snd r) = [invocation 1 7 None] /\
  heap (snd r) = heap st /\ edits (snd r) = [].
Proof.
  intros st r.
  destruct (C8_rewrite_inconsistency demo_handler_run demo_edit_accepts
              demo_inherited_text (js "g") false 7
              (outgoing (js ".other stuff")) None st demo_alias_entry
              (js "google") (js "google search") 1)
    as (_ & Hinv & Hheap & Hok).
  - vm_compute. reflexivity.
  - split; vm_compute; reflexivity.
  - repeat split; vm_compute; congruence.
  - intros extraParts H. vm_compute in H. discriminate H.
  - vm_compute. reflexivity.
  - destruct (Hok eq_refl) as (Hres & _ & Hedits).
    split; [exact Hres|]. split; [exact Hinv|]. split; [exact Hheap|].
    exact Hedits.
Defined.

(** The comparison by code units is a total order. *)
Lemma compare_units_total a b :
  locale_le compare_units a b \/ locale_le compare_units b a.
Proof.
  unfold locale_le, cmp_le.
  revert b. induction a as [|x a IH]; intros [|y b]; cbn [compare_units];
    try lia.
  destruct (x <? y) eqn:Exy; [lia|]. destruct (y <? x) eqn:Eyx; [lia|].
  apply IH.
Defined.

Lemma C9_listCommands_witness :
  let st := demo_state compare_units (js ".g cats") in
  length (listCommands compare_units st) = 4%nat /\
  Sorted (locale_le compare_units) (listCommands compare_units st) /\
  display (js "g") demo_alias_entry = js "g(google)" /\
  display (js "google") demo_literal_entry = js "google".
Proof.
  intros st.
  destruct (C9_listCommands compare_units st compare_units_total)
    as (_ & Hlen & Hsorted & _ & Halias & Hliteral).
  - vm_compute. repeat constructor; vm_compute; intuition discriminate.
  - split; [exact Hlen|]. split; [exact Hsorted|]. split.
    + apply (Halias (js "g") demo_alias_entry (js "google"));
        [vm_compute; tauto | reflexivity | discriminate].
    + apply (Hliteral (js "google") demo_literal_entry);
        [vm_compute; tauto | reflexivity].
Defined.

Lemma C10_whitespace_normalised_witness :
  let text := js ".g  cats" ++ [9; 32; 32] ++ js "dogs " in
  let st := demo_state compare_units text in
  let st' := snd (dealCommandPluginWithMessage demo_handler_run
                    demo_edit_accepts demo_inherited_text (js "g") false 7
                    None st) in
  exists newMsg,
    heap st' !! next_address st = Some newMsg /\
    msg_message newMsg = js ".google search cats dogs" /\
    no_ws_run (js "google search cats dogs") = true.
Proof.
  intros text st st'.
  destruct (C10_whitespace_normalised demo_handler_run demo_edit_accepts
              demo_inherited_text (js "g") false 7 (outgoing text) None st
              demo_alias_entry (js "google") (js "google search")
              [js "cats"; js "dogs"] 1)
    as ((newMsg & _ & Hheap & Hm) & _ & _ & Hrun & _).
  - vm_compute. reflexivity.
  - split; vm_compute; reflexivity.
  - repeat split; vm_compute; congruence.
  - vm_compute. reflexivity.
  - vm_compute. reflexivity.
  - exists newMsg. split; [exact Hheap|]. split; [exact Hm | exact Hrun].
Defined.

(** * Worked cases of the further properties *)

Lemma alias_set_then_get_witness :
  let db' := fst (AliasDB_set (js "g") (js "google images") demo_fallback_db) in
  AliasDB_get db' (js "g") = Some (js "google images") /\
  AliasDB_get db' (js "foo bar") = Some (js "echo hello") /\
  snd (AliasDB_set (js "g") (js "google images") demo_fallback_db)
  = Some (db_rows db').
Proof.
  intros db'. subst db'.
  destruct (alias_set_then_get (js "g") (js "google images") demo_fallback_db
              eq_refl)
    as (H1 & H2 & _ & H4).
  split; [exact H1|]. split; [|exact H4].
  rewrite (H2 (js "foo bar")); [reflexivity | vm_compute; congruence].
Defined.

Lemma alias_del_effect_witness :
  let r := AliasDB_del (js "g") demo_fallback_db in
  r.1.1 = true /\ AliasDB_get r.1.2 (js "g") = None /\
  AliasDB_get r.1.2 (js "foo bar") = Some (js "echo hello") /\
  (AliasDB_del (js "none") demo_fallback_db).1.2 = demo_fallback_db /\
  (AliasDB_del (js "none") demo_fallback_db).2 = None.
Proof.
  intros r. subst r.
  destruct (alias_del_effect (js "g") demo_fallback_db eq_refl)
    as (H1 & H2 & H3 & _).
  destruct (alias_del_effect (js "none") demo_fallback_db eq_refl)
    as (_ & _ & _ & _ & H4).
  split; [apply H3; vm_compute; reflexivity|]. split; [exact H1|].
  split; [rewrite (H2 (js "foo bar")); [reflexivity | vm_compute; congruence]|].
  apply H4. vm_compute. reflexivity.
Defined.

Lemma demo_rows_distinct : distinct_originals demo_fallback_db.
Proof.
  unfold distinct_originals. vm_compute.
  constructor; [intros [H|[]]; discriminate H|].
  constructor; [intros [] | constructor].
Defined.

Lemma alias_set_del_keep_keys_distinct_witness :
  distinct_originals
    (fst (AliasDB_set (js "g") (js "google images") demo_fallback_db)) /\
  distinct_originals (AliasDB_del (js "g") demo_fallback_db).1.2 /\
  map rec_original
      (db_rows (fst (AliasDB_set (js "g") (js "google images")
                       demo_fallback_db)))
  = [js "foo bar"; js "g"] /\
  db_rows (fst (AliasDB_set (js "w") (js "weather") demo_fallback_db))
  = demo_rows ++ [ {| rec_original := js "w"; rec_final := js "weather" |} ].
Proof.
  destruct (alias_set_del_keep_keys_distinct (js "g") (js "google images")
              demo_fallback_db eq_refl) as (H1 & H2 & H3 & _).
  destruct (alias_set_del_keep_keys_distinct (js "w") (js "weather")
              demo_fallback_db eq_refl) as (_ & _ & _ & H4).
  split; [exact (H1 demo_rows_distinct)|].
  split; [exact (H2 demo_rows_distinct)|].
  split; [rewrite H3; reflexivity | apply H4; reflexivity].
Defined.

Lemma alias_getOriginal_inverts_get_witness :
  In (js "g") (AliasDB_getOriginal (js "google search") demo_fallback_db) /\
  AliasDB_get demo_fallback_db (js "g") = Some (js "google search").
Proof.
  destruct (alias_getOriginal_inverts_get (js "google search")
              demo_fallback_db (js "g") eq_refl) as [H1 H2].
  assert (Hin : In (js "g")
                   (AliasDB_getOriginal (js "google search") demo_fallback_db))
    by (apply H1; reflexivity).
  split; [exact Hin | exact (H2 demo_rows_distinct Hin)].
Defined.

Lemma alias_list_sorted_witness :
  let db := {| db_sqlite := false;
               db_rows := [ {| rec_original := js "g";
                               rec_final := js "google" |};
                            {| rec_original := js "a";
                               rec_final := js "alpha" |} ] |} in
  Sorted (fun a b => locale_le compare_units (rec_original a) (rec_original b))
         (AliasDB_list compare_units db) /\
  map rec_original (AliasDB_list compare_units db) = [js "a"; js "g"].
Proof.
  intros db.
  destruct (alias_list_sorted compare_units db) as [_ H].
  split; [apply H; [reflexivity | exact compare_units_total] | reflexivity].
Defined.


Lemma fallback_warned_at_most_once_witness :
  let falling := OpGetCommand (CtorFallback (js "no sqlite") demo_rows)
                   (js ".g cats") None in
  let st := run_ops compare_units demo_handler_run demo_edit_accepts
              demo_inherited_text demo_cfg [falling] (initial_state demo_cfg) in
  fallback_warnings st = 1%nat /\
  fallback_warnings
    (run_ops compare_units demo_handler_run demo_edit_accepts
       demo_inherited_text demo_cfg [falling; OpLoadPlugins demo_env; falling]
       st) = 1%nat.
Proof.
  intros falling st.
  destruct (fallback_warned_at_most_once compare_units demo_handler_run
              demo_edit_accepts demo_inherited_text demo_cfg [falling]
              [falling; OpLoadPlugins demo_env; falling])
    as (_ & Hcount & Hstay).
  split; [exact Hcount|]. apply Hstay. vm_compute. reflexivity.
Defined.

Lemma startup_prefixes_are_tokens_witness :
  let cfg := {| cfg_minimal := false;
                cfg_envPrefixes := [js "!"; js "?"];
                cfg_development := true; cfg_listenerHandleEdited := [] |} in
  let cfg0 := {| cfg_minimal := false; cfg_envPrefixes := [];
                 cfg_development := true; cfg_listenerHandleEdited := [] |} in
  getPrefixes (initial_state cfg) = [js "!"; js "?"] /\
  Forall is_token (getPrefixes (initial_state cfg)) /\
  getPrefixes (initial_state cfg0) = [[33]; [65281]].
Proof.
  intros cfg cfg0.
  destruct (startup_prefixes_are_tokens cfg (Some ([9] ++ js "!  ? ")))
    as (_ & Htok & Hwords & _); [reflexivity|].
  destruct (startup_prefixes_are_tokens cfg0 (Some [32; 9]))
    as (_ & _ & _ & Hdefault); [reflexivity|].
  split; [rewrite (Hwords _ eq_refl eq_refl); reflexivity|].
  split; [exact Htok|].
  rewrite Hdefault; [reflexivity|]. right. eexists. split; reflexivity.
Defined.

Lemma parsed_command_normal_form_witness :
  let text := js ".foo" ++ [9; 32] ++ js "bar  baz " in
  exists i,
    js "foo bar" = join space (take i [js "foo"; js "bar"; js "baz"]) /\
    trim (js "foo bar") = js "foo bar" /\
    no_ws_run (js "foo bar") = true.
Proof.
  intros text.
  destruct (parsed_command_normal_form demo_cfg (CtorSqlite demo_rows) text
              None (initial_state demo_cfg) (js "foo bar") eq_refl)
    as (m & rest & i & Hm & _ & Htext & _ & Hr & _ & _ & Htrim & _ & _ & Hrun).
  vm_compute in Hm. injection Hm as <-. vm_compute in Htext.
  injection Htext as <-. exists i.
  split; [exact Hr|]. split; [exact Htrim | exact Hrun].
Defined.

Lemma indexed_command_has_handler_witness :
  let st := run_ops compare_units demo_handler_run demo_edit_accepts
              demo_inherited_text demo_cfg [OpLoadPlugins demo_env]
              (initial_state demo_cfg) in
  In (entry_plugin demo_alias_entry) (validPlugins st) /\
  exists h, Map_get (js "google")
              (plugin_cmdHandlers (entry_plugin demo_alias_entry)) = Some h.
Proof.
  intros st.
  destruct (indexed_command_has_handler compare_units demo_handler_run
              demo_edit_accepts demo_inherited_text demo_cfg
              [OpLoadPlugins demo_env] (js "g") demo_alias_entry)
    as (Hin & _ & Hh); [vm_compute; reflexivity|].
  split; [exact Hin|]. apply Hh. vm_compute. congruence.
Defined.

Lemma last_loaded_plugin_owns_command_witness :
  let st' := snd (loadPlugins compare_units demo_cfg override_env
                    (initial_state demo_cfg)) in
  getPluginEntry (js "help") st' = Some (literal_entry help_plugin) /\
  getPluginEntry (js "mine") st' = Some (literal_entry help_override) /\
  getPluginEntry (js "absent") st' = None.
Proof.
  intros st'. subst st'.
  destruct (last_loaded_plugin_owns_command compare_units demo_cfg
              override_env (initial_state demo_cfg) _ _ (js "help")
              eq_refl eq_refl)
    as (_ & _ & Hbuiltin & _);
    [vm_compute; intuition congruence | vm_compute; intuition congruence |].
  destruct (last_loaded_plugin_owns_command compare_units demo_cfg
              override_env (initial_state demo_cfg) _ _ (js "mine")
              eq_refl eq_refl)
    as (_ & Huser & _ & _);
    [vm_compute; intuition congruence | vm_compute; intuition congruence |].
  destruct (last_loaded_plugin_owns_command compare_units demo_cfg
              override_env (initial_state demo_cfg) _ _ (js "absent")
              eq_refl eq_refl)
    as (_ & _ & _ & Hnone);
    [vm_compute; intuition congruence | vm_compute; intuition congruence |].
  split; [apply (Hbuiltin help_plugin); reflexivity|].
  split; [rewrite Huser; reflexivity|].
  apply Hnone. intros p Hp Hd. vm_compute in Hp, Hd.
  intuition (subst; cbn in *; intuition congruence).
Defined.

Lemma reload_result_witness :
  let unreadable :=
    {| env_user := Throw (ExnReaddir (js "ENOENT"));
       env_builtin := env_builtin demo_env;
       env_alias_user := CtorSqlite demo_rows;
       env_alias_builtin := CtorSqlite demo_rows |} in
  let st := demo_state compare_units (js ".g cats") in
  let r := loadPlugins compare_units demo_cfg unreadable st in
  fst r = Throw (ExnReaddir (js "ENOENT")) /\
  plugins (snd r) = [] /\ client (snd r) = [] /\
  fst (loadPlugins compare_units demo_cfg demo_env st) = Ok tt.
Proof.
  intros unreadable st r. subst r.
  destruct (reload_result compare_units demo_cfg unreadable st)
    as (_ & Huser & _).
  destruct (reload_result compare_units demo_cfg demo_env st) as (Hok & _).
  destruct (Huser (ExnReaddir (js "ENOENT")) eq_refl)
    as (Hr & _ & Hp & Hc & _).
  split; [exact Hr|]. split; [exact Hp|]. split; [exact Hc|].
  apply Hok. eexists. eexists. split; reflexivity.
Defined.

Lemma dispatcher_subscribed_once_witness :
  let st := demo_state compare_units (js ".g cats") in
  let st' := snd (loadPlugins compare_units demo_cfg demo_env st) in
  length (List.filter (fun h => is_dispatcher (snd h)) (client st')) = 2%nat /\
  length (client st') = 4%nat.
Proof.
  intros st st'. subst st'.
  destruct (dispatcher_subscribed_once compare_units demo_cfg demo_env st)
    as (n & rest & _ & _ & Htwo); [vm_compute; reflexivity|].
  split; [exact Htwo | vm_compute; reflexivity].
Defined.

Lemma plain_entry_passes_message_through_witness :
  let st := demo_state compare_units (js ".google cats") in
  let r := dealCommandPluginWithMessage demo_handler_run demo_edit_accepts
             demo_inherited_text (js "google") false 7 None st in
  invoked (snd r) = [invocation 1 7 None] /\ heap (snd r) = heap st /\
  fst r = Ok tt.
Proof.
  intros st r. subst r.
  destruct (plain_entry_passes_message_through demo_handler_run
              demo_edit_accepts demo_inherited_text (js "google") false 7
              (outgoing (js ".google cats")) None st demo_literal_entry 1)
    as (Hinv & Hheap & Hok).
  - vm_compute. reflexivity.
  - split; vm_compute; reflexivity.
  - left. reflexivity.
  - vm_compute. reflexivity.
  - split; [exact Hinv|]. split; [exact Hheap|].
    rewrite (Hok eq_refl). reflexivity.
Defined.

Lemma rewritten_text_names_the_command_witness :
  exists more,
    js ".google search cats" = js "." ++ join space (js "google" :: more) /\
    Forall is_token more.
Proof.
  destruct (rewritten_text_names_the_command compare_units demo_handler_run
              demo_edit_accepts demo_inherited_text demo_cfg
              [OpLoadPlugins demo_env] (js "g") demo_alias_entry (js "google")
              (js "google search") (outgoing (js ".g cats"))
              (copy_with_text (outgoing (js ".g cats"))
                              (js ".google search cats")))
    as (more & Htext & Htok & _).
  - vm_compute. reflexivity.
  - repeat split; vm_compute; congruence.
  - split; vm_compute; congruence.
  - reflexivity.
  - exists more. split; [exact Htext | exact Htok].
Defined.

Lemma typed_alias_is_always_rewritten_witness :
  let st := demo_state compare_units (js ".g  cats") in
  let st' := snd (dealCommandPlugin demo_handler_run demo_edit_accepts
                    demo_inherited_text demo_cfg (CtorSqlite demo_rows)
                    {| ev_message := 7; ev_isEdited := false |} st) in
  exists extraParts newMsg,
    message_parts demo_inherited_text st (outgoing (js ".g  cats"))
    = [js "g"] ++ extraParts /\
    invoked st' = [invocation 1 (next_address st) None] /\
    heap st' !! next_address st = Some newMsg /\
    msg_message newMsg = js "." ++ join space (words (js "google search")
                                                 ++ extraParts).
Proof.
  intros st st'. subst st'.
  destruct (typed_alias_is_always_rewritten demo_handler_run demo_edit_accepts
              demo_inherited_text demo_cfg (CtorSqlite demo_rows)
              {| ev_message := 7; ev_isEdited := false |} st
              (outgoing (js ".g  cats")) (js "g") demo_alias_entry
              (js "google") (js "google search") 1)
    as (extraParts & Hparts & Hinv & newMsg & Hheap & Hm & _).
  - vm_compute. reflexivity.
  - vm_compute. reflexivity.
  - vm_compute. reflexivity.
  - vm_compute. reflexivity.
  - vm_compute. reflexivity.
  - repeat split; vm_compute; congruence.
  - vm_compute. reflexivity.
  - exists extraParts, newMsg. split; [exact Hparts|].
    split; [exact Hinv|]. split; [exact Hheap | exact Hm].
Defined.

Lemma minimal_profile_ignores_aliases_witness :
  let ops := [OpLoadPlugins demo_env;
              OpGetCommand (CtorFallback (js "no sqlite") demo_rows)
                           (js ".g cats") None] in
  let st := run_ops compare_units demo_handler_run demo_edit_accepts
              demo_inherited_text minimal_cfg ops (initial_state minimal_cfg) in
  fallback_warnings st = 0%nat /\ alias_warnings st = 0%nat /\
  (forall k e, getPluginEntry k st = Some e -> rewrite_wanted e = None) /\
  snd (getCommandFromMessage minimal_cfg (CtorThrows (js "EACCES"))
         (js ".g cats") None st) = st.
Proof.
  intros ops st.
  destruct (minimal_profile_ignores_aliases compare_units demo_handler_run
              demo_edit_accepts demo_inherited_text minimal_cfg eq_refl)
    as (Hpure & _ & Hreach).
  destruct (Hreach ops) as (Hlit & _ & Ha & Hf).
  split; [exact Hf|]. split; [exact Ha|]. split; [|apply Hpure].
  intros k e Hk. exact (proj2 (Hlit k e Hk)).
Defined.

Lemma deleted_alias_is_forgotten_witness :
  let db := {| db_sqlite := true; db_rows := demo_rows |} in
  let c := CtorSqlite (db_rows (AliasDB_del (js "g") db).1.2) in
  isCommandName (js "g") = true /\
  fst (getCommandFromMessage demo_cfg c (js ".foo bar") None
         (initial_state demo_cfg)) = Some (js "foo bar").
Proof.
  intros db c.
  destruct (deleted_alias_is_forgotten demo_cfg c (initial_state demo_cfg)
              (js "g") db (js ".g cats") None) as (Hname & _).
  - intros db' H. vm_compute in H. injection H as <-. reflexivity.
  - reflexivity.
  - split; [exact Hname | reflexivity].
Defined.

Lemma stored_alias_is_indexed_witness :
  let st' := snd (setPlugins compare_units demo_cfg USER_PLUGIN_PATH
                    (env_user demo_env) (CtorSqlite demo_rows)
                    (initial_state demo_cfg)) in
  (exists e, getPluginEntry (js "g") st' = Some e) /\
  (exists e, getPluginEntry (js "google") st' = Some e).
Proof.
  intros st'. subst st'.
  destruct (stored_alias_is_indexed compare_units demo_cfg USER_PLUGIN_PATH
              [ {| file_name := js "search.ts";
                   file_module := ValidPlugin search_plugin |};
                {| file_name := js "README.md"; file_module := NotAPlugin |};
                {| file_name := js "broken.ts";
                   file_module := RequireFails (js "SyntaxError") |} ]
              (CtorSqlite demo_rows) (initial_state demo_cfg)
              {| db_sqlite := true; db_rows := demo_rows |}
              (initial_state demo_cfg)
              {| file_name := js "search.ts";
                 file_module := ValidPlugin search_plugin |}
              search_plugin
              {| rec_original := js "g"; rec_final := js "google search" |}
              (js "google"))
    as (Halias & Hcmd & _).
  - reflexivity.
  - reflexivity.
  - vm_compute. left. reflexivity.
  - reflexivity.
  - vm_compute. left. reflexivity.
  - vm_compute. right. left. reflexivity.
  - vm_compute. reflexivity.
  - split; [exact Halias | exact Hcmd].
Defined.
